(** * LazyLoaderService (src/app/lazy-loader.service.ts)

    A shallow embedding of the Angular service that lazy-loads an NgModule,
    caches the resulting module handle, creates components from it, unloads
    it again, and injects external script tags.

    The service is written against three host objects: the
    SystemJsNgModuleLoader, the Injector and the DOM document.  Their
    behaviour is not part of the service; here every answer the host can give
    (a synchronous throw, a promise that is fulfilled or rejected later, a
    module factory whose [create] throws, ...) is an input of the model, and
    the calls by which the service makes the host load, create or destroy
    something are recorded in a log.

    JavaScript runs the service on a single-threaded event loop.  A run is a
    list of events; each event executes one synchronous piece of the service
    (a method call, a promise reaction, a DOM load handler) to completion. *)

From Stdlib Require Import String Ascii List Bool Arith Lia.
From stdpp Require Import base tactics option list gmap strings.
Import ListNotations.

Local Open Scope string_scope.
Local Open Scope list_scope.
Local Open Scope nat_scope.

(** ** References and host values *)

Abbreviation loc := nat (only parsing).              (* reference to a moduleBundle object *)
Abbreviation PromiseRef := nat (only parsing).       (* reference to a promise object *)
Abbreviation ElementRef := nat (only parsing).       (* reference to a DOM element *)
Abbreviation NgModuleRef := nat (only parsing).      (* a module instance made by the host *)
Abbreviation ComponentType := nat (only parsing).    (* a component class *)
Abbreviation Injector := nat (only parsing).
Abbreviation ViewContainerRef := nat (only parsing).

(** What [moduleRef.componentFactoryResolver.resolveComponentFactory(type)]
    returns: the factory of [type], bound to the module instance. *)
Record ComponentFactory := mkComponentFactory {
  componentType : ComponentType;
  ngModule : NgModuleRef
}.

(** One value [{ type: ..., factory: ... }] of the compFactory object. *)
Record Entry := mkEntry {
  entry_type : ComponentType;
  entry_factory : ComponentFactory
}.

(** [moduleFactory.moduleType]: the module class.  Its static field
    [creatableComponents] is a convention; [None] is a class without it.
    The list holds the object's own enumerable properties in the order
    [Object.keys] reports them. *)
Record ModuleType := mkModuleType {
  moduleClass : nat;
  creatableComponents : option (list (string * ComponentType))
}.

(** A module factory as the host hands it to the [then] callback, with the
    answers the host will give when the callback uses it. *)
Record NgModuleFactory := mkNgModuleFactory {
  mf_moduleType : ModuleType;
  mf_create_throws : bool;                 (* moduleFactory.create(inj) throws *)
  mf_entryComponents : list ComponentType  (* types resolveComponentFactory knows *)
}.

(** ** Plain JavaScript objects used as dictionaries

    [this.cache], [this.loadedLibraries] and [compFactory] are created by
    [{}] / [Object.assign({}, ...)], so they inherit from Object.prototype:
    reading a key that is not an own property still finds the built-ins. *)

Definition Object_prototype_names : list string :=
  [ "constructor"; "__defineGetter__"; "__defineSetter__"; "hasOwnProperty";
    "__lookupGetter__"; "__lookupSetter__"; "isPrototypeOf";
    "propertyIsEnumerable"; "toString"; "valueOf"; "__proto__";
    "toLocaleString" ].

Definition inherited (k : string) : bool :=
  existsb (String.eqb k) Object_prototype_names.

Inductive Lookup (V : Type) :=
  | Own (v : V)        (* an own property *)
  | Builtin            (* a built-in found on Object.prototype (truthy) *)
  | Undefined.         (* undefined *)
Arguments Own {V} v.
Arguments Builtin {V}.
Arguments Undefined {V}.

(** [o[k]] for an object with own properties [o] and prototype Object.prototype. *)
Definition js_get {V} (o : gmap string V) (k : string) : Lookup V :=
  match o !! k with
  | Some v => Own v
  | None => if inherited k then Builtin else Undefined
  end.

(** [if (o[k])]: every value stored in these objects is an object. *)
Definition truthy {V} (r : Lookup V) : bool :=
  match r with Undefined => false | _ => true end.

(** The compFactory object.  [Object.assign] stores with [[Set]]; for the key
    "__proto__" that runs the setter inherited from Object.prototype, which
    replaces the prototype by the assigned object instead of adding an own
    property. *)
Record CompFactory := mkCompFactory {
  cf_own : gmap string Entry;
  cf_proto : option Entry       (* [Some e]: prototype replaced by e *)
}.

Definition compFactory_empty : CompFactory := mkCompFactory ∅ None.

Definition compFactory_set (k : string) (e : Entry) (o : CompFactory) : CompFactory :=
  if String.eqb k "__proto__"
  then mkCompFactory (cf_own o) (Some e)
  else mkCompFactory (<[k := e]> (cf_own o)) (cf_proto o).

(** [Object.assign({}, ...sources)] where each source is [{ [key]: entry }]. *)
Definition Object_assign (sources : list (string * Entry)) : CompFactory :=
  fold_left (fun o kv => compFactory_set (fst kv) (snd kv) o) sources compFactory_empty.

(** The value of [compFactory[k].factory]. *)
Inductive FactoryLookup :=
  | FLThrows                          (* compFactory[k] is undefined *)
  | FLFactory (f : ComponentFactory)  (* an entry's bound factory *)
  | FLUndefined                       (* compFactory[k] is a built-in: no factory *)
  | FLHostObject.                     (* compFactory[k] is a host object *)

Definition compFactory_factory (o : CompFactory) (k : string) : FactoryLookup :=
  match cf_own o !! k with
  | Some e => FLFactory (entry_factory e)
  | None =>
    match cf_proto o with
    | None => if inherited k then FLUndefined else FLThrows
    | Some e =>
      if String.eqb k "__proto__" then FLFactory (entry_factory e)
      else if String.eqb k "type" || String.eqb k "factory" then FLHostObject
      else if inherited k then FLUndefined else FLThrows
    end
  end.

(** ** Values, errors, promises *)

Inductive Value :=
  | VUndefined
  | VBundle (h : loc)          (* a moduleBundle object *)
  | VScript (e : ElementRef)   (* a script element *)
  | VBuiltin                   (* a built-in of Object.prototype *)
  | VPromise (p : PromiseRef).

Inductive Error :=
  | TypeError      (* property access or call on undefined *)
  | HostError.     (* thrown inside the host runtime *)

Inductive PromiseState :=
  | Pending
  | Fulfilled (v : Value)
  | Rejected (e : Error).

(** ** The objects of the service *)

(** The moduleBundle object literal of [load].  [create_compFactory] is the
    [compFactory] constant the [create] arrow function closes over; it is not
    the [factory] property.  [unloaded] does not exist until [unload] sets it. *)
Record ModuleBundle := mkModuleBundle {
  name : string;
  url : string;
  factory : option CompFactory;
  moduleRef : NgModuleRef;
  moduleType : ModuleType;
  create_compFactory : CompFactory;
  unloaded : option bool
}.

(** The reaction registered by [this.loader.load(moduleURL).then(callback)]:
    the variables the callback closes over, the promise [then] returns, and
    whether the host promise has been settled. *)
Record Reaction := mkReaction {
  r_moduleName : string;
  r_moduleURL : string;
  r_promise : PromiseRef;     (* the promise of [rs] *)
  r_derived : PromiseRef;     (* the promise returned by [then] *)
  r_settled : bool
}.

(** A script element made by [loadJs]; [onload] closes over [url] and [rs]. *)
Record ScriptElement := mkScriptElement {
  script_type : string;
  script_src : string;
  onload_url : string;
  onload_promise : PromiseRef
}.

(** Calls into the host. *)
Inductive HostCall :=
  | LoaderLoad (moduleURL : string)
  | ModuleFactoryCreate (m : ModuleType) (inj : Injector)
  | ModuleRefDestroy (m : NgModuleRef)
  | ViewContainerCreateComponent (c : ViewContainerRef) (f : option ComponentFactory)
  | ComponentFactoryCreate (f : ComponentFactory) (inj : Injector).

Record State := mkState {
  cache : gmap string loc;                  (* this.cache *)
  loadedLibraries : gmap string ElementRef; (* this.loadedLibraries *)
  inj : Injector;                           (* this.inj *)
  heap : list ModuleBundle;                 (* moduleBundle objects, by reference *)
  promises : list PromiseState;             (* promise objects *)
  reactions : list Reaction;                (* one per promise the host loader returned *)
  scriptElements : list ScriptElement;            (* document.createElement results *)
  body : list ElementRef;                   (* children appended to document.body *)
  nextModuleRef : NgModuleRef;              (* module instances the host has made *)
  hostLog : list HostCall;
  console : list (list string)
}.

(** The service right after construction. *)
Definition init (i : Injector) : State :=
  mkState ∅ ∅ i [] [] [] [] [] 0 [] [].

(** Field updates of [State]. *)
Definition set_cache (f : gmap string loc → gmap string loc) (σ : State) : State :=
  mkState (f (cache σ)) (loadedLibraries σ) (inj σ) (heap σ) (promises σ)
          (reactions σ) (scriptElements σ) (body σ) (nextModuleRef σ) (hostLog σ) (console σ).
Definition set_loadedLibraries (f : gmap string ElementRef → gmap string ElementRef)
    (σ : State) : State :=
  mkState (cache σ) (f (loadedLibraries σ)) (inj σ) (heap σ) (promises σ)
          (reactions σ) (scriptElements σ) (body σ) (nextModuleRef σ) (hostLog σ) (console σ).
Definition set_heap (f : list ModuleBundle → list ModuleBundle) (σ : State) : State :=
  mkState (cache σ) (loadedLibraries σ) (inj σ) (f (heap σ)) (promises σ)
          (reactions σ) (scriptElements σ) (body σ) (nextModuleRef σ) (hostLog σ) (console σ).
Definition set_promises (f : list PromiseState → list PromiseState) (σ : State) : State :=
  mkState (cache σ) (loadedLibraries σ) (inj σ) (heap σ) (f (promises σ))
          (reactions σ) (scriptElements σ) (body σ) (nextModuleRef σ) (hostLog σ) (console σ).
Definition set_reactions (f : list Reaction → list Reaction) (σ : State) : State :=
  mkState (cache σ) (loadedLibraries σ) (inj σ) (heap σ) (promises σ)
          (f (reactions σ)) (scriptElements σ) (body σ) (nextModuleRef σ) (hostLog σ) (console σ).
Definition set_scriptElements (f : list ScriptElement → list ScriptElement) (σ : State) : State :=
  mkState (cache σ) (loadedLibraries σ) (inj σ) (heap σ) (promises σ)
          (reactions σ) (f (scriptElements σ)) (body σ) (nextModuleRef σ) (hostLog σ) (console σ).
Definition set_body (f : list ElementRef → list ElementRef) (σ : State) : State :=
  mkState (cache σ) (loadedLibraries σ) (inj σ) (heap σ) (promises σ)
          (reactions σ) (scriptElements σ) (f (body σ)) (nextModuleRef σ) (hostLog σ) (console σ).
Definition set_nextModuleRef (f : NgModuleRef → NgModuleRef) (σ : State) : State :=
  mkState (cache σ) (loadedLibraries σ) (inj σ) (heap σ) (promises σ)
          (reactions σ) (scriptElements σ) (body σ) (f (nextModuleRef σ)) (hostLog σ) (console σ).
Definition set_hostLog (f : list HostCall → list HostCall) (σ : State) : State :=
  mkState (cache σ) (loadedLibraries σ) (inj σ) (heap σ) (promises σ)
          (reactions σ) (scriptElements σ) (body σ) (nextModuleRef σ) (f (hostLog σ)) (console σ).
Definition set_console (f : list (list string) → list (list string)) (σ : State) : State :=
  mkState (cache σ) (loadedLibraries σ) (inj σ) (heap σ) (promises σ)
          (reactions σ) (scriptElements σ) (body σ) (nextModuleRef σ) (hostLog σ) (f (console σ)).

(** ** Synchronous code: state and exceptions

    A piece of synchronous JavaScript either completes normally with a value
    or throws; the mutations made before a throw stay. *)

Inductive Completion (A : Type) :=
  | Normal (a : A)
  | Throw (e : Error).
Arguments Normal {A} a.
Arguments Throw {A} e.

Definition M (A : Type) : Type := State → Completion A * State.

Definition ret {A} (a : A) : M A := λ σ, (Normal a, σ).

Definition bind {A B} (m : M A) (k : A → M B) : M B :=
  λ σ, match m σ with
       | (Normal a, σ') => k a σ'
       | (Throw e, σ') => (Throw e, σ')
       end.

Definition throw {A} (e : Error) : M A := λ σ, (Throw e, σ).

(** [try { m } catch (err) { handler(err) }] *)
Definition try_catch {A} (m : M A) (handler : Error → M A) : M A :=
  λ σ, match m σ with
       | (Normal a, σ') => (Normal a, σ')
       | (Throw e, σ') => handler e σ'
       end.

Definition gets {A} (f : State → A) : M A := λ σ, (Normal (f σ), σ).
Definition modify (f : State → State) : M unit := λ σ, (Normal tt, f σ).

Notation "'let*' x ':=' m 'in' k" := (bind m (λ x, k))
  (at level 10, x name, m at level 100, k at level 200, only parsing).
Notation "'do' m 'in' k" := (bind m (λ _, k))
  (at level 10, m at level 100, k at level 200, only parsing).

(** ** Promises *)

(** Settling a promise: only a pending promise changes. *)
Definition settle (p : PromiseRef) (s : PromiseState) (σ : State) : State :=
  match promises σ !! p with
  | Some Pending => set_promises (λ ps, <[p := s]> ps) σ
  | _ => σ
  end.

(** The two functions an executor receives, for promise [p]. *)
Definition rs (p : PromiseRef) (v : Value) : M Value :=
  λ σ, (Normal VUndefined, settle p (Fulfilled v) σ).
Definition rj (p : PromiseRef) (e : Error) : M Value :=
  λ σ, (Normal VUndefined, settle p (Rejected e) σ).

Definition alloc_promise (s : PromiseState) : M PromiseRef :=
  λ σ, (Normal (length (promises σ)), set_promises (λ ps, ps ++ [s]) σ).

(** [new Promise(executor)]: the executor runs at once; its return value is
    dropped; if it throws, the promise is rejected with what it threw.  The
    constructor itself never throws. *)
Definition new_Promise (executor : PromiseRef → M Value) : State → PromiseRef * State :=
  λ σ, let p := length (promises σ) in
       let σ0 := set_promises (λ ps, ps ++ [Pending]) σ in
       match executor p σ0 with
       | (Normal _, σ') => (p, σ')
       | (Throw err, σ') => (p, settle p (Rejected err) σ')
       end.

(** A call that cannot throw, used inside synchronous code. *)
Definition lift {A} (f : State → A * State) : M A :=
  λ σ, let (a, σ') := f σ in (Normal a, σ').

(** An [async] function: its promise follows the promise its body returns
    (both are named by the inner promise here), is fulfilled with any other
    returned value, and is rejected with what the body throws.  Calling the
    function never throws. *)
Definition async_function (fn_body : M Value) : State → PromiseRef * State :=
  λ σ, match fn_body σ with
       | (Normal (VPromise p), σ') => (p, σ')
       | (Normal v, σ') =>
         (length (promises σ'), set_promises (λ ps, ps ++ [Fulfilled v]) σ')
       | (Throw e, σ') =>
         (length (promises σ'), set_promises (λ ps, ps ++ [Rejected e]) σ')
       end.

(** ** Host calls *)

Definition host_call (c : HostCall) : M unit :=
  modify (set_hostLog (λ l, l ++ [c])).

(** What [this.loader.load(moduleURL)] does synchronously. *)
Inductive LoaderAnswer :=
  | LoaderThrows            (* throws *)
  | LoaderReturnsPromise.   (* returns a promise the host settles later *)

Definition loader_load (moduleURL : string) (a : LoaderAnswer) : M unit :=
  do host_call (LoaderLoad moduleURL) in
  match a with
  | LoaderThrows => throw HostError
  | LoaderReturnsPromise => ret tt
  end.

(** [hostPromise.then(callback)]: registers the reaction and returns a new
    promise, which nothing in the service keeps. *)
Definition promise_then (moduleName moduleURL : string) (p : PromiseRef) : M Value :=
  let* d := alloc_promise Pending in
  do modify (set_reactions (λ l, l ++ [mkReaction moduleName moduleURL p d false])) in
  ret (VPromise d).

(** [moduleFactory.create(this.inj)] *)
Definition moduleFactory_create (moduleFactory : NgModuleFactory) : M NgModuleRef :=
  let* i := gets inj in
  do host_call (ModuleFactoryCreate (mf_moduleType moduleFactory) i) in
  if mf_create_throws moduleFactory then throw HostError
  else
    let* m := gets nextModuleRef in
    do modify (set_nextModuleRef S) in
    ret m.

(** [Object.keys(entryComponents)]: throws on undefined. *)
Definition Object_keys (entryComponents : option (list (string * ComponentType)))
    : M (list string) :=
  match entryComponents with
  | None => throw TypeError
  | Some l => ret (map fst l)
  end.

(** [entryComponents[key]] for a key that [Object.keys] reported. *)
Fixpoint property (l : list (string * ComponentType)) (key : string)
    : option ComponentType :=
  match l with
  | [] => None
  | (k, t) :: l' => if String.eqb k key then Some t else property l' key
  end.

(** [moduleRef.componentFactoryResolver.resolveComponentFactory(type)]:
    throws for a type the module does not list as an entry component. *)
Definition resolveComponentFactory (moduleFactory : NgModuleFactory)
    (moduleRef : NgModuleRef) (t : ComponentType) : M ComponentFactory :=
  if existsb (Nat.eqb t) (mf_entryComponents moduleFactory)
  then ret (mkComponentFactory t moduleRef)
  else throw HostError.

(** [array.map(f)] for an [f] with effects. *)
Fixpoint array_map {A B} (f : A → M B) (l : list A) : M (list B) :=
  match l with
  | [] => ret []
  | a :: l' => let* b := f a in let* bs := array_map f l' in ret (b :: bs)
  end.

Definition alloc_bundle (b : ModuleBundle) : M loc :=
  λ σ, (Normal (length (heap σ)), set_heap (λ h, h ++ [b]) σ).

Definition console_info (args : list string) : M unit :=
  modify (set_console (λ c, c ++ [args])).

(** ** LazyLoaderService.load *)

Definition update_bundle (h : loc) (f : ModuleBundle → ModuleBundle) : M unit :=
  modify (set_heap (λ hp, match hp !! h with
                          | Some b => <[h := f b]> hp
                          | None => hp
                          end)).

(** The arrow function mapped over the keys, line 97:
    [{ [key]: { type: entryComponents[key], factory: resolve(entryComponents[key]) } }].
    Every key comes from [Object.keys(entryComponents)], so the property exists. *)
Definition compFactory_source (moduleFactory : NgModuleFactory) (moduleRef : NgModuleRef)
    (entryComponents : option (list (string * ComponentType))) (key : string)
    : M (string * Entry) :=
  match property (default [] entryComponents) key with
  | Some t =>
    let* f := resolveComponentFactory moduleFactory moduleRef t in
    ret (key, mkEntry t f)
  | None => throw HostError
  end.

(** The callback given to [then], lines 87-115.  [moduleName], [moduleURL]
    and the resolving function of promise [p] are its free variables. *)
Definition load_callback (moduleName moduleURL : string) (p : PromiseRef)
    (moduleFactory : NgModuleFactory) : M Value :=
  let* c := gets cache in
  match js_get c moduleURL with
  | Own cached => rs p (VBundle cached)
  | Builtin => rs p VBuiltin
  | Undefined =>
    do console_info ["Loading Module "; moduleURL] in
    let* moduleRef := moduleFactory_create moduleFactory in
    let entryComponents := creatableComponents (mf_moduleType moduleFactory) in
    let* keys := Object_keys entryComponents in
    let* compFactoryArray :=
      array_map (compFactory_source moduleFactory moduleRef entryComponents) keys in
    let compFactory := Object_assign compFactoryArray in
    let* moduleBundle := alloc_bundle
      {| name := moduleName;
         url := moduleURL;
         factory := Some compFactory;
         moduleRef := moduleRef;
         moduleType := mf_moduleType moduleFactory;
         create_compFactory := compFactory;
         unloaded := None |} in
    (* moduleURL holds a '#', so this store adds an own property *)
    do modify (set_cache (λ c, <[moduleURL := moduleBundle]> c)) in
    rs p (VBundle moduleBundle)
  end.

(** [load], lines 82-120. *)
Definition load (moduleName moduleFilename : string) (a : LoaderAnswer)
    : State → PromiseRef * State :=
  async_function (
    let moduleURL := moduleFilename +:+ "#" +:+ moduleName in
    let* p := lift (new_Promise (λ rs_rj,
      try_catch
        (do loader_load moduleURL a in
         do promise_then moduleName moduleURL rs_rj in
         ret VUndefined)
        (λ err, rs rs_rj VUndefined))) in
    ret (VPromise p)).

(** ** LazyLoaderService.unload, lines 126-135

    [destroy_throws] is the host's answer to [moduleRef.destroy()], should the
    call be made. *)
Definition moduleRef_destroy (m : NgModuleRef) (destroy_throws : bool) : M unit :=
  do host_call (ModuleRefDestroy m) in
  if destroy_throws then throw HostError else ret tt.

(** Reading a property of the object behind a reference.  A reference the
    heap does not have stands for an argument that is not an object. *)
Definition deref (h : loc) : M ModuleBundle :=
  let* hp := gets heap in
  match hp !! h with
  | Some b => ret b
  | None => throw TypeError
  end.

Definition unload (moduleBundle : loc) (destroy_throws : bool)
    : State → PromiseRef * State :=
  async_function (
    let* b := deref moduleBundle in
    let* c := gets cache in
    if truthy (js_get c (url b)) then
      do update_bundle moduleBundle (λ o,
           mkModuleBundle (name o +:+ "-unloaded") (url o) (factory o) (moduleRef o)
                          (moduleType o) (create_compFactory o) (unloaded o)) in
      do update_bundle moduleBundle (λ o,
           mkModuleBundle (name o) (url o) (factory o) (moduleRef o)
                          (moduleType o) (create_compFactory o) (Some true)) in
      let* b1 := deref moduleBundle in
      do moduleRef_destroy (moduleRef b1) destroy_throws in
      do update_bundle moduleBundle (λ o,
           mkModuleBundle (name o) (url o) None (moduleRef o)
                          (moduleType o) (create_compFactory o) (unloaded o)) in
      let* b2 := deref moduleBundle in
      do modify (set_cache (λ c, delete (url b2) c)) in
      ret VUndefined
    else ret VUndefined).

(** [moduleBundle.destroy()], line 110: calls [unload] and drops its promise. *)
Definition destroy (moduleBundle : loc) (destroy_throws : bool) : M Value :=
  do lift (unload moduleBundle destroy_throws) in
  ret VUndefined.

(** ** moduleBundle.create, line 108

    The result is the request made to the host; the component is whatever the
    host answers.  [HostDefined]: the code went on with a property of a host
    object, which the service does not determine. *)
Inductive CreateResult :=
  | Asked (c : HostCall)
  | HostDefined.

Definition create (moduleBundle : loc) (componentType : string)
    (viewRef : option ViewContainerRef) : M CreateResult :=
  let* b := deref moduleBundle in
  let compFactory := create_compFactory b in
  match viewRef with
  | Some container =>
    match compFactory_factory compFactory componentType with
    | FLThrows => throw TypeError
    | FLFactory f =>
      let c := ViewContainerCreateComponent container (Some f) in
      do host_call c in ret (Asked c)
    | FLUndefined =>
      let c := ViewContainerCreateComponent container None in
      do host_call c in ret (Asked c)
    | FLHostObject => ret HostDefined
    end
  | None =>
    match compFactory_factory compFactory componentType with
    | FLThrows => throw TypeError
    | FLFactory f =>
      let* i := gets inj in
      let c := ComponentFactoryCreate f i in
      do host_call c in ret (Asked c)
    | FLUndefined => throw TypeError
    | FLHostObject => ret HostDefined
    end
  end.

(** ** LazyLoaderService.loadJs, lines 156-171 *)

(** [document.createElement('script')] followed by the assignments of
    [type], [onload] and [src]: the element is local to the executor until
    [appendChild], so the three assignments are made at allocation. *)
Definition document_createElement_script (ty src : string) (p : PromiseRef)
    : M ElementRef :=
  λ σ, (Normal (length (scriptElements σ)),
        set_scriptElements (λ l, l ++ [mkScriptElement ty src src p]) σ).

Definition body_appendChild (e : ElementRef) : M unit :=
  modify (set_body (λ l, l ++ [e])).

Definition loadJs (url : string) : State → PromiseRef * State :=
  new_Promise (λ rs_rj,
    let* libs := gets loadedLibraries in
    match js_get libs url with
    | Own cached => ret (VScript cached)
    | Builtin => ret VBuiltin
    | Undefined =>
      let* script := document_createElement_script "text/javascript" url rs_rj in
      do body_appendChild script in
      ret VUndefined
    end).

(** The [onload] handler of a script element, lines 164-167.  The handler
    exists only for a [url] whose lookup was undefined, hence not a name on
    Object.prototype: the store adds an own property. *)
Definition script_onload (script : ElementRef) : M Value :=
  let* els := gets scriptElements in
  match els !! script with
  | Some s =>
    do modify (set_loadedLibraries (λ l, <[onload_url s := script]> l)) in
    rs (onload_promise s) (VScript script)
  | None => ret VUndefined
  end.

(** ** The event loop *)

Inductive Event :=
  | CallLoad (moduleName moduleFilename : string) (a : LoaderAnswer)
  | HostFulfils (k : nat) (moduleFactory : NgModuleFactory)
  | HostRejects (k : nat)
  | CallUnload (moduleBundle : loc) (destroy_throws : bool)
  | CallDestroy (moduleBundle : loc) (destroy_throws : bool)
  | CallCreate (moduleBundle : loc) (componentType : string)
               (viewRef : option ViewContainerRef)
  | CallLoadJs (url : string)
  | ScriptLoads (script : ElementRef).

Definition mark_settled (k : nat) (σ : State) : State :=
  set_reactions (λ l, match l !! k with
                      | Some r => <[k := mkReaction (r_moduleName r) (r_moduleURL r)
                                                     (r_promise r) (r_derived r) true]> l
                      | None => l
                      end) σ.

(** The host fulfils the [k]-th promise its loader returned: the callback
    registered with [then] runs, and settles the promise [then] returned. *)
Definition host_fulfils (k : nat) (moduleFactory : NgModuleFactory) (σ : State) : State :=
  match reactions σ !! k with
  | Some r =>
    if r_settled r then σ
    else
      match load_callback (r_moduleName r) (r_moduleURL r) (r_promise r)
                          moduleFactory (mark_settled k σ) with
      | (Normal v, σ') => settle (r_derived r) (Fulfilled v) σ'
      | (Throw e, σ') => settle (r_derived r) (Rejected e) σ'
      end
  | None => σ
  end.

(** The host rejects it: the callback is skipped, the rejection passes on to
    the promise [then] returned. *)
Definition host_rejects (k : nat) (σ : State) : State :=
  match reactions σ !! k with
  | Some r =>
    if r_settled r then σ
    else settle (r_derived r) (Rejected HostError) (mark_settled k σ)
  | None => σ
  end.

Definition step (ev : Event) (σ : State) : State :=
  match ev with
  | CallLoad moduleName moduleFilename a => (load moduleName moduleFilename a σ).2
  | HostFulfils k moduleFactory => host_fulfils k moduleFactory σ
  | HostRejects k => host_rejects k σ
  | CallUnload h d => (unload h d σ).2
  | CallDestroy h d => (destroy h d σ).2
  | CallCreate h t v => (create h t v σ).2
  | CallLoadJs url => (loadJs url σ).2
  | ScriptLoads e => (script_onload e σ).2
  end.

Definition run (evs : list Event) (σ : State) : State :=
  fold_left (λ s ev, step ev s) evs σ.

Definition reachable (σ : State) : Prop :=
  ∃ i evs, σ = run evs (init i).

(** * Vocabulary of the properties *)

(** ** Keys *)

(** [moduleURL] always holds a '#', the names on Object.prototype never do:
    reading [this.cache[moduleURL]] finds an own property or nothing. *)
Fixpoint has_hash (s : string) : bool :=
  match s with
  | EmptyString => false
  | String c s' => Ascii.eqb c "#"%char || has_hash s'
  end.

(** ** The handle [load] builds *)

(** The entry stored for a key, and the compFactory object of a module whose
    [creatableComponents] are [L], resolved against module instance [mref]. *)
Definition entry_of (L : list (string * ComponentType)) (mref : NgModuleRef)
    (key : string) : Entry :=
  let t := default 0 (property L key) in
  mkEntry t (mkComponentFactory t mref).

Definition compFactory_of (L : list (string * ComponentType)) (mref : NgModuleRef)
    : CompFactory :=
  Object_assign (map (λ key, (key, entry_of L mref key)) (map fst L)).

(** [Object.assign] onto [o] of the sources [{ [key]: g key }]. *)
Definition assign (g : string → Entry) (keys : list string) (o : CompFactory)
    : CompFactory :=
  fold_left (λ o kv, compFactory_set (fst kv) (snd kv) o)
            (map (λ key, (key, g key)) keys) o.

(** The host can resolve the type listed under [key]. *)
Definition resolvable (mf : NgModuleFactory) (L : list (string * ComponentType))
    (key : string) : bool :=
  match property L key with
  | Some t => existsb (Nat.eqb t) (mf_entryComponents mf)
  | None => false
  end.

(** A module factory the callback gets through: [create] returns, the module
    class has [creatableComponents], and every listed type can be resolved. *)
Definition well_behaved (mf : NgModuleFactory) : bool :=
  negb (mf_create_throws mf) &&
  match creatableComponents (mf_moduleType mf) with
  | Some L => forallb (resolvable mf L) (map fst L)
  | None => false
  end.

(** The moduleBundle object of lines 101-111. *)
Definition new_bundle (moduleName moduleURL : string) (mf : NgModuleFactory)
    (L : list (string * ComponentType)) (mref : NgModuleRef) : ModuleBundle :=
  {| name := moduleName;
     url := moduleURL;
     factory := Some (compFactory_of L mref);
     moduleRef := mref;
     moduleType := mf_moduleType mf;
     create_compFactory := compFactory_of L mref;
     unloaded := None |}.

(** The handle after lines 128-129, and after lines 128-132. *)
Definition marked (b : ModuleBundle) : ModuleBundle :=
  mkModuleBundle (name b +:+ "-unloaded") (url b) (factory b) (moduleRef b)
                 (moduleType b) (create_compFactory b) (Some true).
Definition stripped (b : ModuleBundle) : ModuleBundle :=
  mkModuleBundle (name b +:+ "-unloaded") (url b) None (moduleRef b)
                 (moduleType b) (create_compFactory b) (Some true).

(** A module that declares a component under the own key "__proto__" has
    its compFactory's prototype replaced by that entry; the names "type" and
    "factory" are then found on it. *)
Definition reaches_host_object (L : list (string * ComponentType)) (k : string) : bool :=
  match property L "__proto__" with
  | Some _ => String.eqb k "type" || String.eqb k "factory"
  | None => false
  end.

(** ** Well-formed states *)

(** Two states that agree on everything the service itself owns; the host
    log, the console and the host's module counter may differ. *)
Definition same_core (σ σ' : State) : Prop :=
  cache σ' = cache σ ∧ loadedLibraries σ' = loadedLibraries σ ∧ inj σ' = inj σ ∧
  heap σ' = heap σ ∧ promises σ' = promises σ ∧ reactions σ' = reactions σ ∧
  scriptElements σ' = scriptElements σ ∧ body σ' = body σ.

(** A handle made by [load]: its url is a module URL, and the compFactory its
    [create] closes over was built from its module type's
    [creatableComponents] against its own module instance. *)
Definition bundle_ok (b : ModuleBundle) : Prop :=
  (∃ n f, url b = f +:+ "#" +:+ n) ∧
  ∃ L, creatableComponents (moduleType b) = Some L ∧
       create_compFactory b = compFactory_of L (moduleRef b).

(** What every state the service can reach satisfies: reactions and script
    handlers hold resolving functions of promises that exist, a reaction's
    two promises differ and its url is a module URL, the keys [onload]
    handlers store under are not inherited names, and every handle was made
    by [load]. *)
Definition wf (σ : State) : Prop :=
  (∀ k r, reactions σ !! k = Some r →
     r_promise r < length (promises σ) ∧ r_derived r < length (promises σ) ∧
     r_promise r ≠ r_derived r ∧
     ∃ f, r_moduleURL r = f +:+ "#" +:+ r_moduleName r) ∧
  (∀ e s, scriptElements σ !! e = Some s →
     onload_promise s < length (promises σ) ∧ inherited (onload_url s) = false) ∧
  (∀ h b, heap σ !! h = Some b → bundle_ok b).

(** ** What one event may change *)

(** Who may settle promise [p] in state [σ], and with what: the reaction of a
    host promise still unsettled (its callback fulfils the promise of [load];
    the promise [then] returned is settled either way), or the [onload]
    handler of a script element. *)
Definition may_settle (σ : State) (p : PromiseRef) (s : PromiseState) : Prop :=
  (∃ k r v, reactions σ !! k = Some r ∧ r_settled r = false ∧ r_promise r = p ∧
            s = Fulfilled v)
  ∨ (∃ k r, reactions σ !! k = Some r ∧ r_settled r = false ∧ r_derived r = p)
  ∨ (∃ e sc, scriptElements σ !! e = Some sc ∧ onload_promise sc = p ∧
             s = Fulfilled (VScript e)).

(** Promises are never removed; an existing one keeps its state or, if it
    was pending, is settled by someone who may. *)
Definition promises_evolve (σ : State) (ps' : list PromiseState) : Prop :=
  length (promises σ) ≤ length ps' ∧
  ∀ p, p < length (promises σ) →
    ps' !! p = promises σ !! p
    ∨ (promises σ !! p = Some Pending ∧ ∃ s, ps' !! p = Some s ∧ may_settle σ p s).

(** A reaction is an old one, possibly settled meanwhile, or a new one over
    promises that did not exist before ([n'] is the new number of promises). *)
Definition reactions_evolve (σ : State) (n' : nat) (rs' : list Reaction) : Prop :=
  ∀ k r', rs' !! k = Some r' →
    (∃ r, reactions σ !! k = Some r ∧ r_moduleName r' = r_moduleName r ∧
          r_moduleURL r' = r_moduleURL r ∧ r_promise r' = r_promise r ∧
          r_derived r' = r_derived r ∧ (r_settled r = true → r_settled r' = true))
    ∨ (length (promises σ) ≤ r_promise r' ∧ length (promises σ) ≤ r_derived r' ∧
       r_promise r' < n' ∧ r_derived r' < n' ∧ r_promise r' ≠ r_derived r' ∧
       r_settled r' = false ∧
       ∃ f, r_moduleURL r' = f +:+ "#" +:+ r_moduleName r').

(** A script element is an old one, unchanged, or a new one over a promise
    that did not exist before. *)
Definition scripts_evolve (σ : State) (n' : nat) (es' : list ScriptElement) : Prop :=
  ∀ e s, es' !! e = Some s →
    scriptElements σ !! e = Some s
    ∨ (length (promises σ) ≤ onload_promise s ∧ onload_promise s < n' ∧
       inherited (onload_url s) = false).

(** A handle is an old one, with the fields [unload] never writes as they
    were, or a new one made by [load]. *)
Definition heap_evolve (σ : State) (hp' : list ModuleBundle) : Prop :=
  length (heap σ) ≤ length hp' ∧
  ∀ h b', hp' !! h = Some b' →
    (∃ b, heap σ !! h = Some b ∧ url b' = url b ∧ moduleType b' = moduleType b ∧
          moduleRef b' = moduleRef b ∧ create_compFactory b' = create_compFactory b)
    ∨ (length (heap σ) ≤ h ∧ bundle_ok b').

Definition evolves (σ σ' : State) : Prop :=
  promises_evolve σ (promises σ') ∧
  reactions_evolve σ (length (promises σ')) (reactions σ') ∧
  scripts_evolve σ (length (promises σ')) (scriptElements σ') ∧
  heap_evolve σ (heap σ') ∧
  inj σ' = inj σ.

(** [settle] on the list of promises. *)
Definition settle_list (q : PromiseRef) (s : PromiseState) (ps : list PromiseState)
    : list PromiseState :=
  match ps !! q with
  | Some Pending => <[q := s]> ps
  | _ => ps
  end.

(** No unsettled reaction and no script element holds the resolving
    functions of [p]. *)
Definition unreferenced (p : PromiseRef) (σ : State) : Prop :=
  (∀ k r, reactions σ !! k = Some r → r_settled r = false →
     r_promise r ≠ p ∧ r_derived r ≠ p) ∧
  (∀ e s, scriptElements σ !! e = Some s → onload_promise s ≠ p).

(** Pending or fulfilled. *)
Definition not_rejected (s : option PromiseState) : Prop :=
  s = Some Pending ∨ ∃ v, s = Some (Fulfilled v).

(** [p] is not the promise some pending [then] returned. *)
Definition not_derived (p : PromiseRef) (σ : State) : Prop :=
  ∀ k r, reactions σ !! k = Some r → r_settled r = false → r_derived r ≠ p.

(** Events that call [unload]. *)
Definition is_unload (ev : Event) : bool :=
  match ev with
  | CallUnload _ _ | CallDestroy _ _ => true
  | _ => false
  end.

(** ** Scenarios *)

(** The module of the scenarios: one creatable component. *)
Definition LazyModule : ModuleType :=
  mkModuleType 1 (Some [("LazyComponent", 7)]).

Definition LazyFactory : NgModuleFactory :=
  mkNgModuleFactory LazyModule false [7].

(** The script elements under document.body whose [src] is [u]. *)
Definition scripts_with_src (u : string) (σ : State) : list ElementRef :=
  List.filter (λ e, match scriptElements σ !! e with
                    | Some s => String.eqb (script_src s) u
                    | None => false
                    end) (body σ).

(** ** What one event does to the data of the service *)

(** The state the callback leaves when it throws on a cache miss: the log
    line is written and [moduleFactory.create] was called; the host has one
    more module instance unless that call was what threw. *)
Definition after_failed_callback (u : string) (mf : NgModuleFactory) (σ : State) : State :=
  mkState (cache σ) (loadedLibraries σ) (inj σ) (heap σ) (promises σ) (reactions σ)
          (scriptElements σ) (body σ)
          (if mf_create_throws mf then nextModuleRef σ else S (nextModuleRef σ))
          (hostLog σ ++ [ModuleFactoryCreate (mf_moduleType mf) (inj σ)])
          (console σ ++ [["Loading Module "; u]]).

(** The state the callback leaves before [rs] when it builds a handle. *)
Definition after_callback (n u : string) (mf : NgModuleFactory)
    (L : list (string * ComponentType)) (σ : State) : State :=
  mkState (<[u := length (heap σ)]> (cache σ)) (loadedLibraries σ) (inj σ)
          (heap σ ++ [new_bundle n u mf L (nextModuleRef σ)])
          (promises σ) (reactions σ) (scriptElements σ) (body σ)
          (S (nextModuleRef σ))
          (hostLog σ ++ [ModuleFactoryCreate (mf_moduleType mf) (inj σ)])
          (console σ ++ [["Loading Module "; u]]).

(** The cache, the handles, the host's module counter, the loaded-script
    table, the script elements and the document body, before and after one
    event: the seven things an event can do to them. *)
Inductive changes (σ σ' : State) : Prop :=
  | ch_nothing :
      cache σ' = cache σ → heap σ' = heap σ → nextModuleRef σ' = nextModuleRef σ →
      loadedLibraries σ' = loadedLibraries σ → scriptElements σ' = scriptElements σ →
      body σ' = body σ → changes σ σ'
  | ch_instance_lost :
      cache σ' = cache σ → heap σ' = heap σ → nextModuleRef σ' = S (nextModuleRef σ) →
      loadedLibraries σ' = loadedLibraries σ → scriptElements σ' = scriptElements σ →
      body σ' = body σ → changes σ σ'
  | ch_loaded (n u : string) (mf : NgModuleFactory) (L : list (string * ComponentType)) :
      cache σ !! u = None → inherited u = false →
      creatableComponents (mf_moduleType mf) = Some L →
      cache σ' = <[u := length (heap σ)]> (cache σ) →
      heap σ' = heap σ ++ [new_bundle n u mf L (nextModuleRef σ)] →
      nextModuleRef σ' = S (nextModuleRef σ) →
      loadedLibraries σ' = loadedLibraries σ → scriptElements σ' = scriptElements σ →
      body σ' = body σ → changes σ σ'
  | ch_marked (h : loc) (b : ModuleBundle) :
      heap σ !! h = Some b →
      cache σ' = cache σ → heap σ' = <[h := marked b]> (heap σ) →
      nextModuleRef σ' = nextModuleRef σ →
      loadedLibraries σ' = loadedLibraries σ → scriptElements σ' = scriptElements σ →
      body σ' = body σ → changes σ σ'
  | ch_unloaded (h : loc) (b : ModuleBundle) :
      heap σ !! h = Some b →
      cache σ' = delete (url b) (cache σ) → heap σ' = <[h := stripped b]> (heap σ) →
      nextModuleRef σ' = nextModuleRef σ →
      loadedLibraries σ' = loadedLibraries σ → scriptElements σ' = scriptElements σ →
      body σ' = body σ → changes σ σ'
  | ch_script (u : string) (p : PromiseRef) :
      js_get (loadedLibraries σ) u = Undefined →
      cache σ' = cache σ → heap σ' = heap σ → nextModuleRef σ' = nextModuleRef σ →
      loadedLibraries σ' = loadedLibraries σ →
      scriptElements σ' = scriptElements σ ++ [mkScriptElement "text/javascript" u u p] →
      body σ' = body σ ++ [length (scriptElements σ)] → changes σ σ'
  | ch_onload (e : ElementRef) (s : ScriptElement) :
      scriptElements σ !! e = Some s →
      cache σ' = cache σ → heap σ' = heap σ → nextModuleRef σ' = nextModuleRef σ →
      loadedLibraries σ' = <[onload_url s := e]> (loadedLibraries σ) →
      scriptElements σ' = scriptElements σ → body σ' = body σ → changes σ σ'.

(** Every cache entry is a handle that exists, carries the entry's key as
    its url, and still has its factory mapping. *)
Definition cache_ok (σ : State) : Prop :=
  ∀ u h, cache σ !! u = Some h →
    ∃ b, heap σ !! h = Some b ∧ url b = u ∧ is_Some (factory b).

(** Every handle holds a module instance the host has made, and no two
    handles hold the same one. *)
Definition instances_ok (σ : State) : Prop :=
  (∀ h b, heap σ !! h = Some b → moduleRef b < nextModuleRef σ) ∧
  (∀ h1 h2 b1 b2, heap σ !! h1 = Some b1 → heap σ !! h2 = Some b2 →
     moduleRef b1 = moduleRef b2 → h1 = h2).

(** Every script element made so far is under document.body, once, in the
    order of creation, with type text/javascript and the src its handler
    caches under; every entry of the loaded-script table is such an element,
    filed under its src. *)
Definition scripts_ok (σ : State) : Prop :=
  body σ = seq 0 (length (scriptElements σ)) ∧
  (∀ e s, scriptElements σ !! e = Some s →
     script_type s = "text/javascript" ∧ script_src s = onload_url s) ∧
  (∀ u e, loadedLibraries σ !! u = Some e →
     ∃ s, scriptElements σ !! e = Some s ∧ script_src s = u).

(** How event [ev], taking [σ] to [σ'], settled promise [p] with [s]: the
    callback of a host promise fulfilled it with the handle now cached under
    the callback's url; or [p] is what [then] returned for that host
    promise; or the load event of a script element fulfilled it with the
    element. *)
Definition settles_by (ev : Event) (σ σ' : State) (p : PromiseRef) (s : PromiseState)
    : Prop :=
  (∃ k mf r h b, ev = HostFulfils k mf ∧ reactions σ !! k = Some r ∧
      r_settled r = false ∧ r_promise r = p ∧ s = Fulfilled (VBundle h) ∧
      heap σ' !! h = Some b ∧ url b = r_moduleURL r ∧
      cache σ' !! r_moduleURL r = Some h)
  ∨ (∃ k r, ((∃ mf, ev = HostFulfils k mf) ∨ ev = HostRejects k) ∧
      reactions σ !! k = Some r ∧ r_settled r = false ∧ r_derived r = p)
  ∨ (∃ e sc, ev = ScriptLoads e ∧ scriptElements σ !! e = Some sc ∧
      onload_promise sc = p ∧ s = Fulfilled (VScript e)).

(** The host was asked to destroy only module instances it had made. *)
Definition destroys_ok (σ : State) : Prop :=
  ∀ m, ModuleRefDestroy m ∈ hostLog σ → m < nextModuleRef σ.

(** Who holds the resolving functions of promise [p]: it is not the promise
    a [then] returned; the callback of a host promise holds them only if it
    was registered for module URL [u]; the [onload] handler of a script
    element only if the element is [e]. *)
Definition held_by (p : PromiseRef) (u : option string) (e : option ElementRef)
    (σ : State) : Prop :=
  (∀ k r, reactions σ !! k = Some r →
     r_derived r ≠ p ∧ (r_promise r = p → u = Some (r_moduleURL r))) ∧
  (∀ e' s, scriptElements σ !! e' = Some s → onload_promise s = p → e = Some e').

(** A handle has the compFactory of its [create] as [factory], or has lost
    [factory] and is flagged. *)
Definition handles_ok (σ : State) : Prop :=
  ∀ h b, heap σ !! h = Some b →
    factory b = Some (create_compFactory b)
    ∨ (factory b = None ∧ unloaded b = Some true).

(** The flagged handles are those whose module instance the host was asked
    to destroy. *)
Definition flags_ok (σ : State) : Prop :=
  (∀ h b, heap σ !! h = Some b → unloaded b = Some true →
     ModuleRefDestroy (moduleRef b) ∈ hostLog σ) ∧
  (∀ m, ModuleRefDestroy m ∈ hostLog σ →
     ∃ h b, heap σ !! h = Some b ∧ moduleRef b = m ∧ unloaded b = Some true).

(** Events of the script loader: a call of [loadJs], or the load event of a
    script element. *)
Definition is_script_event (ev : Event) : bool :=
  match ev with
  | CallLoadJs _ | ScriptLoads _ => true
  | _ => false
  end.

(** * Properties *)

(** ** Keys *)

Lemma has_hash_moduleURL (moduleName moduleFilename : string) :
  has_hash (moduleFilename +:+ "#" +:+ moduleName) = true.
Proof.
  induction moduleFilename as [|c s IH]; simpl.
  - reflexivity.
  - rewrite IH. apply orb_true_r.
Qed.

Lemma inherited_no_hash (k : string) : inherited k = true → has_hash k = false.
Proof.
  unfold inherited, Object_prototype_names. simpl.
  repeat match goal with
         | |- context [String.eqb k ?c] =>
           destruct (String.eqb_spec k c) as [->|_]; [intros _; reflexivity|]
         end.
  simpl. discriminate.
Qed.

Lemma inherited_moduleURL (moduleName moduleFilename : string) :
  inherited (moduleFilename +:+ "#" +:+ moduleName) = false.
Proof.
  destruct (inherited _) eqn:E; [|reflexivity].
  apply inherited_no_hash in E. rewrite has_hash_moduleURL in E. discriminate.
Qed.

Lemma js_get_moduleURL {V} (o : gmap string V) (moduleName moduleFilename : string) :
  js_get o (moduleFilename +:+ "#" +:+ moduleName)
  = match o !! (moduleFilename +:+ "#" +:+ moduleName) with
    | Some v => Own v
    | None => Undefined
    end.
Proof. unfold js_get. rewrite inherited_moduleURL. reflexivity. Qed.

(** ** What the pieces do to the state *)

Lemma settle_fields (p : PromiseRef) (s : PromiseState) (σ : State) :
  cache (settle p s σ) = cache σ ∧
  loadedLibraries (settle p s σ) = loadedLibraries σ ∧
  inj (settle p s σ) = inj σ ∧
  heap (settle p s σ) = heap σ ∧
  reactions (settle p s σ) = reactions σ ∧
  scriptElements (settle p s σ) = scriptElements σ ∧
  body (settle p s σ) = body σ ∧
  nextModuleRef (settle p s σ) = nextModuleRef σ ∧
  hostLog (settle p s σ) = hostLog σ ∧
  console (settle p s σ) = console σ ∧
  length (promises (settle p s σ)) = length (promises σ).
Proof.
  unfold settle. destruct (promises σ !! p) as [[]|]; simpl;
    rewrite ?length_insert; tauto.
Qed.

Lemma settle_lookup_ne (p q : PromiseRef) (s : PromiseState) (σ : State) :
  p ≠ q → promises (settle p s σ) !! q = promises σ !! q.
Proof.
  intros Hne. unfold settle. destruct (promises σ !! p) as [[]|]; simpl; try reflexivity.
  apply list_lookup_insert_ne. exact Hne.
Qed.

Lemma settle_lookup_eq (p : PromiseRef) (s : PromiseState) (σ : State) :
  promises (settle p s σ) !! p
  = match promises σ !! p with
    | Some Pending => Some s
    | other => other
    end.
Proof.
  unfold settle. destruct (promises σ !! p) as [[]|] eqn:E; simpl; try exact E.
  apply list_lookup_insert_eq. apply lookup_lt_Some in E. exact E.
Qed.

(** The callbacks of [array.map] in [load_callback] only ask the host. *)
Lemma array_map_state {A B} (f : A → M B) (l : list A) (σ : State) :
  (∀ a s, (f a s).2 = s) → (array_map f l σ).2 = σ.
Proof.
  intros Hf. revert σ. induction l as [|a l IH]; intros σ; simpl.
  - reflexivity.
  - unfold bind. specialize (Hf a σ). destruct (f a σ) as [[b|e] s1]; simpl in *; subst.
    + specialize (IH σ). destruct (array_map f l σ) as [[bs|e] s2]; simpl in *; subst;
        reflexivity.
    + reflexivity.
Qed.

Lemma compFactory_source_state mf mref ec key (σ : State) :
  (compFactory_source mf mref ec key σ).2 = σ.
Proof.
  unfold compFactory_source, resolveComponentFactory, bind, ret, throw.
  destruct (property _ key); [|reflexivity].
  destruct (existsb _ _); reflexivity.
Qed.

Lemma bind_Normal {A B} (m : M A) (k : A → M B) (σ σ' : State) a :
  m σ = (Normal a, σ') → bind m k σ = k a σ'.
Proof. intros H. unfold bind. rewrite H. reflexivity. Qed.

Lemma bind_Throw {A B} (m : M A) (k : A → M B) (σ σ' : State) e :
  m σ = (Throw e, σ') → bind m k σ = (Throw e, σ').
Proof. intros H. unfold bind. rewrite H. reflexivity. Qed.

Lemma compFactory_source_cases mf mref L key (σ : State) :
  compFactory_source mf mref (Some L) key σ
  = if resolvable mf L key then (Normal (key, entry_of L mref key), σ)
    else (Throw HostError, σ).
Proof.
  unfold compFactory_source, resolvable, entry_of, resolveComponentFactory, bind, ret, throw.
  simpl. destruct (property L key) as [t|]; [|reflexivity]. simpl.
  destruct (existsb _ _); reflexivity.
Qed.

Lemma array_map_source_ok mf mref L keys (σ : State) :
  forallb (resolvable mf L) keys = true →
  array_map (compFactory_source mf mref (Some L)) keys σ
  = (Normal (map (λ key, (key, entry_of L mref key)) keys), σ).
Proof.
  induction keys as [|k keys IH]; simpl; intros H.
  - reflexivity.
  - apply andb_true_iff in H as [Hk Hks].
    erewrite bind_Normal by (rewrite compFactory_source_cases, Hk; reflexivity).
    erewrite bind_Normal by (apply IH, Hks). reflexivity.
Qed.

Lemma array_map_source_fails mf mref L keys (σ : State) :
  forallb (resolvable mf L) keys = false →
  array_map (compFactory_source mf mref (Some L)) keys σ = (Throw HostError, σ).
Proof.
  induction keys as [|k keys IH]; simpl; intros H.
  - discriminate.
  - destruct (resolvable mf L k) eqn:Hk; simpl in H.
    + erewrite bind_Normal by (rewrite compFactory_source_cases, Hk; reflexivity).
      erewrite bind_Throw by (apply IH, H). reflexivity.
    + erewrite bind_Throw by (rewrite compFactory_source_cases, Hk; reflexivity).
      reflexivity.
Qed.

(** The four ways the [then] callback can go. *)
Lemma load_callback_cases n u p mf (σ : State) :
  (∃ h, cache σ !! u = Some h ∧
        load_callback n u p mf σ = (Normal VUndefined, settle p (Fulfilled (VBundle h)) σ))
  ∨ (cache σ !! u = None ∧ inherited u = true ∧
     load_callback n u p mf σ = (Normal VUndefined, settle p (Fulfilled VBuiltin) σ))
  ∨ (cache σ !! u = None ∧ inherited u = false ∧ well_behaved mf = false ∧
     ∃ e σ', load_callback n u p mf σ = (Throw e, σ') ∧ same_core σ σ')
  ∨ (cache σ !! u = None ∧ inherited u = false ∧ well_behaved mf = true ∧
     ∃ L, creatableComponents (mf_moduleType mf) = Some L ∧
       load_callback n u p mf σ
       = (Normal VUndefined,
          settle p (Fulfilled (VBundle (length (heap σ))))
            (mkState (<[u := length (heap σ)]> (cache σ)) (loadedLibraries σ) (inj σ)
                     (heap σ ++ [new_bundle n u mf L (nextModuleRef σ)])
                     (promises σ) (reactions σ) (scriptElements σ) (body σ)
                     (S (nextModuleRef σ))
                     (hostLog σ ++ [ModuleFactoryCreate (mf_moduleType mf) (inj σ)])
                     (console σ ++ [["Loading Module "; u]])))).
Proof.
  unfold load_callback.
  erewrite bind_Normal by reflexivity.
  unfold js_get.
  destruct (cache σ !! u) as [h|] eqn:Hc.
  { left. exists h. split; reflexivity. }
  right. destruct (inherited u) eqn:Hi.
  { left. repeat split; reflexivity. }
  right. unfold well_behaved.
  erewrite bind_Normal by reflexivity.
  unfold moduleFactory_create.
  destruct (mf_create_throws mf) eqn:Hthrows; simpl.
  { left. repeat split; try reflexivity. eexists _, _. split; [reflexivity|].
    repeat split. }
  destruct (creatableComponents (mf_moduleType mf)) as [L|] eqn:HL; simpl.
  2:{ left. repeat split; try reflexivity. eexists _, _. split; [reflexivity|].
      repeat split. }
  erewrite bind_Normal by reflexivity.
  erewrite bind_Normal by reflexivity.
  destruct (forallb (resolvable mf L) (map fst L)) eqn:Hall.
  - erewrite bind_Normal by (apply array_map_source_ok, Hall).
    right. repeat split; try reflexivity. exists L. split; reflexivity.
  - erewrite bind_Throw by (apply array_map_source_fails, Hall).
    left. repeat split; try reflexivity. eexists _, _. split; [reflexivity|].
    repeat split.
Qed.

Lemma lookup_snoc {A} (l : list A) (x : A) : (l ++ [x]) !! length l = Some x.
Proof. induction l as [|a l IH]; simpl; [reflexivity | exact IH]. Qed.

Lemma insert_snoc {A} (l : list A) (x y : A) : <[length l := y]> (l ++ [x]) = l ++ [y].
Proof. induction l as [|a l IH]; simpl; [reflexivity | f_equal; exact IH]. Qed.

Lemma settle_fresh (s0 s : PromiseState) (σ : State) :
  settle (length (promises σ)) s (set_promises (λ ps, ps ++ [s0]) σ)
  = set_promises (λ ps, ps ++ [match s0 with Pending => s | _ => s0 end]) σ.
Proof.
  unfold settle. simpl. rewrite lookup_snoc.
  destruct s0; try reflexivity.
  unfold set_promises. simpl. rewrite insert_snoc. reflexivity.
Qed.

(** [load] when the host loader returns a promise: the promise of [load]
    stays pending and one reaction waits for the host. *)
Lemma load_returns_promise n f (σ : State) :
  load n f LoaderReturnsPromise σ
  = (length (promises σ),
     mkState (cache σ) (loadedLibraries σ) (inj σ) (heap σ)
             ((promises σ ++ [Pending]) ++ [Pending])
             (reactions σ ++ [mkReaction n (f +:+ "#" +:+ n) (length (promises σ))
                                         (S (length (promises σ))) false])
             (scriptElements σ) (body σ) (nextModuleRef σ)
             (hostLog σ ++ [LoaderLoad (f +:+ "#" +:+ n)]) (console σ)).
Proof.
  unfold load, async_function, lift, new_Promise, try_catch, loader_load, promise_then,
    alloc_promise, host_call, modify, bind, ret. simpl.
  rewrite length_app. simpl. rewrite Nat.add_1_r. reflexivity.
Qed.

(** [load] when the host loader throws: the catch clause resolves the promise
    with undefined. *)
Lemma load_throws n f (σ : State) :
  load n f LoaderThrows σ
  = (length (promises σ),
     mkState (cache σ) (loadedLibraries σ) (inj σ) (heap σ)
             (promises σ ++ [Fulfilled VUndefined])
             (reactions σ) (scriptElements σ) (body σ) (nextModuleRef σ)
             (hostLog σ ++ [LoaderLoad (f +:+ "#" +:+ n)]) (console σ)).
Proof.
  unfold load, async_function, lift, new_Promise, try_catch, loader_load,
    host_call, modify, bind, ret, throw, rs. simpl.
  match goal with |- context [settle _ ?s ?st] =>
    change st with (set_promises (λ ps, ps ++ [Pending])
                      (set_hostLog (λ l, l ++ [LoaderLoad (f +:+ "#" +:+ n)]) σ));
    change (length (promises σ)) with
      (length (promises (set_hostLog (λ l, l ++ [LoaderLoad (f +:+ "#" +:+ n)]) σ)))
  end.
  rewrite settle_fresh. reflexivity.
Qed.

(** [loadJs]: three cases on [this.loadedLibraries[url]]. *)
Lemma loadJs_cases url (σ : State) :
  (js_get (loadedLibraries σ) url ≠ Undefined ∧
   loadJs url σ = (length (promises σ), set_promises (λ ps, ps ++ [Pending]) σ))
  ∨ (js_get (loadedLibraries σ) url = Undefined ∧
     loadJs url σ
     = (length (promises σ),
        mkState (cache σ) (loadedLibraries σ) (inj σ) (heap σ)
                (promises σ ++ [Pending]) (reactions σ)
                (scriptElements σ
                 ++ [mkScriptElement "text/javascript" url url (length (promises σ))])
                (body σ ++ [length (scriptElements σ)])
                (nextModuleRef σ) (hostLog σ) (console σ))).
Proof.
  unfold loadJs, new_Promise.
  erewrite bind_Normal by reflexivity. simpl.
  destruct (js_get (loadedLibraries σ) url) eqn:E.
  - left. split; [discriminate | reflexivity].
  - left. split; [discriminate | reflexivity].
  - right. split; reflexivity.
Qed.

Lemma script_onload_cases e (σ : State) :
  (scriptElements σ !! e = None ∧ script_onload e σ = (Normal VUndefined, σ))
  ∨ (∃ s, scriptElements σ !! e = Some s ∧
       script_onload e σ
       = (Normal VUndefined,
          settle (onload_promise s) (Fulfilled (VScript e))
            (set_loadedLibraries (λ l, <[onload_url s := e]> l) σ))).
Proof.
  unfold script_onload. erewrite bind_Normal by reflexivity.
  destruct (scriptElements σ !! e) as [s|] eqn:E.
  - right. exists s. split; reflexivity.
  - left. split; reflexivity.
Qed.

Lemma create_same_core h t v (σ : State) : same_core σ (create h t v σ).2.
Proof.
  unfold create. unfold bind at 1, deref at 1, bind at 1, gets at 1. simpl.
  destruct (heap σ !! h) as [b|]; simpl; [|repeat split].
  destruct v; destruct (compFactory_factory _ _); simpl; repeat split.
Qed.

Lemma update_bundle_at h f b (σ : State) :
  heap σ !! h = Some b →
  update_bundle h f σ = (Normal tt, set_heap (λ hp, <[h := f b]> hp) σ).
Proof. intros H. unfold update_bundle, modify, set_heap. rewrite H. reflexivity. Qed.

Lemma deref_at h b (σ : State) : heap σ !! h = Some b → deref h σ = (Normal b, σ).
Proof.
  intros H. unfold deref. erewrite bind_Normal by reflexivity. rewrite H. reflexivity.
Qed.

(** The four ways [unload] can go. *)
Lemma unload_cases h d (σ : State) :
  (heap σ !! h = None ∧
   unload h d σ = (length (promises σ), set_promises (λ ps, ps ++ [Rejected TypeError]) σ))
  ∨ (∃ b, heap σ !! h = Some b ∧ truthy (js_get (cache σ) (url b)) = false ∧
       unload h d σ
       = (length (promises σ), set_promises (λ ps, ps ++ [Fulfilled VUndefined]) σ))
  ∨ (∃ b, heap σ !! h = Some b ∧ truthy (js_get (cache σ) (url b)) = true ∧ d = true ∧
       unload h d σ
       = (length (promises σ),
          mkState (cache σ) (loadedLibraries σ) (inj σ) (<[h := marked b]> (heap σ))
                  (promises σ ++ [Rejected HostError]) (reactions σ) (scriptElements σ)
                  (body σ) (nextModuleRef σ)
                  (hostLog σ ++ [ModuleRefDestroy (moduleRef b)]) (console σ)))
  ∨ (∃ b, heap σ !! h = Some b ∧ truthy (js_get (cache σ) (url b)) = true ∧ d = false ∧
       unload h d σ
       = (length (promises σ),
          mkState (delete (url b) (cache σ)) (loadedLibraries σ) (inj σ)
                  (<[h := stripped b]> (heap σ))
                  (promises σ ++ [Fulfilled VUndefined]) (reactions σ) (scriptElements σ)
                  (body σ) (nextModuleRef σ)
                  (hostLog σ ++ [ModuleRefDestroy (moduleRef b)]) (console σ))).
Proof.
  unfold unload, async_function.
  destruct (heap σ !! h) as [b|] eqn:Hh.
  2:{ left. split; [reflexivity|]. unfold deref. erewrite bind_Throw; [reflexivity|].
      erewrite bind_Normal by reflexivity. rewrite Hh. reflexivity. }
  right. erewrite bind_Normal by (apply deref_at, Hh).
  erewrite bind_Normal by reflexivity.
  destruct (truthy (js_get (cache σ) (url b))) eqn:Ht.
  2:{ left. exists b. repeat split; try reflexivity; exact Ht. }
  right. assert (Hlt : h < length (heap σ)) by (eapply lookup_lt_Some; eauto).
  erewrite bind_Normal by (apply update_bundle_at, Hh).
  erewrite bind_Normal.
  2:{ apply update_bundle_at. simpl. apply list_lookup_insert_eq. exact Hlt. }
  erewrite bind_Normal.
  2:{ apply deref_at. simpl. apply list_lookup_insert_eq. rewrite length_insert. exact Hlt. }
  unfold set_heap; simpl. rewrite list_insert_insert_eq.
  unfold moduleRef_destroy. destruct d.
  - left. exists b. split; [reflexivity|]. split; [exact Ht|]. split; [reflexivity|].
    erewrite bind_Throw by reflexivity. reflexivity.
  - right. exists b. split; [reflexivity|]. split; [exact Ht|]. split; [reflexivity|].
    erewrite bind_Normal by reflexivity.
    erewrite bind_Normal.
    2:{ apply update_bundle_at. simpl. apply list_lookup_insert_eq. exact Hlt. }
    erewrite bind_Normal.
    2:{ apply deref_at. simpl. apply list_lookup_insert_eq. rewrite length_insert. exact Hlt. }
    unfold set_heap; simpl. rewrite list_insert_insert_eq. reflexivity.
Qed.

Lemma settle_lookup_cases (q p : PromiseRef) (s : PromiseState) (σ : State) :
  promises (settle q s σ) !! p = promises σ !! p
  ∨ (q = p ∧ promises σ !! p = Some Pending ∧ promises (settle q s σ) !! p = Some s).
Proof.
  destruct (decide (q = p)) as [->|Hne].
  - rewrite settle_lookup_eq. destruct (promises σ !! p) as [[]|]; auto.
  - left. apply settle_lookup_ne, Hne.
Qed.

Lemma mark_settled_fields k (σ : State) :
  cache (mark_settled k σ) = cache σ ∧
  loadedLibraries (mark_settled k σ) = loadedLibraries σ ∧
  inj (mark_settled k σ) = inj σ ∧
  heap (mark_settled k σ) = heap σ ∧
  promises (mark_settled k σ) = promises σ ∧
  scriptElements (mark_settled k σ) = scriptElements σ ∧
  body (mark_settled k σ) = body σ.
Proof. unfold mark_settled. simpl. tauto. Qed.

Lemma mark_settled_lookup k j r' (σ : State) :
  reactions (mark_settled k σ) !! j = Some r' →
  ∃ r, reactions σ !! j = Some r ∧ r_moduleName r' = r_moduleName r ∧
       r_moduleURL r' = r_moduleURL r ∧ r_promise r' = r_promise r ∧
       r_derived r' = r_derived r ∧
       r_settled r' = (if decide (k = j) then true else r_settled r).
Proof.
  unfold mark_settled. simpl. destruct (reactions σ !! k) as [r|] eqn:Hk.
  - destruct (decide (k = j)) as [->|Hne].
    + rewrite list_lookup_insert_eq by (eapply lookup_lt_Some; eauto).
      intros [= <-]. exists r. simpl. tauto.
    + rewrite list_lookup_insert_ne by exact Hne. intros H. exists r'. tauto.
  - intros H. exists r'. destruct (decide (k = j)) as [->|]; [congruence|tauto].
Qed.

(** [host_fulfils] in terms of the callback's cases. *)
Lemma host_fulfils_cases k mf (σ : State) :
  (host_fulfils k mf σ = σ ∧
   ∀ r, reactions σ !! k = Some r → r_settled r = true)
  ∨ (∃ r σ' s, reactions σ !! k = Some r ∧ r_settled r = false ∧
       host_fulfils k mf σ = settle (r_derived r) s σ' ∧
       ((∃ v, load_callback (r_moduleName r) (r_moduleURL r) (r_promise r) mf
                            (mark_settled k σ) = (Normal v, σ') ∧ s = Fulfilled v)
        ∨ (∃ e, load_callback (r_moduleName r) (r_moduleURL r) (r_promise r) mf
                              (mark_settled k σ) = (Throw e, σ') ∧ s = Rejected e))).
Proof.
  unfold host_fulfils. destruct (reactions σ !! k) as [r|] eqn:Hr.
  - destruct (r_settled r) eqn:Hs.
    + left. split; [reflexivity|]. intros ? [= <-]. exact Hs.
    + right. destruct (load_callback _ _ _ _ _) as [[v|e] σ'] eqn:Hcb.
      * exists r, σ', (Fulfilled v). repeat split; eauto.
      * exists r, σ', (Rejected e). repeat split; eauto.
  - left. split; [reflexivity|]. discriminate.
Qed.

(** From the two possible completions of the callback in [Hcb] and its known
    result: the state it left. *)
Ltac callback_state Hcb :=
  let Heq := fresh "Heq" in
  destruct Hcb as [(? & Heq & _)|(? & Heq & _)]; inversion Heq; reflexivity.

(** ** Well-formed states *)

Lemma wf_init i : wf (init i).
Proof. unfold wf, init. simpl. split; [|split]; intros ? ? H; discriminate. Qed.

Lemma lookup_snoc_cases {A} (l : list A) (x y : A) (i : nat) :
  (l ++ [x]) !! i = Some y → l !! i = Some y ∨ (i = length l ∧ y = x).
Proof.
  intros H. destruct (decide (i < length l)) as [Hlt|Hge].
  - left. rewrite lookup_app_l in H by exact Hlt. exact H.
  - right. rewrite lookup_app_r in H by lia.
    destruct (i - length l) as [|m] eqn:E; simpl in H; [|destruct m; discriminate].
    injection H as <-. split; [lia | reflexivity].
Qed.

Lemma lookup_insert_cases {A} (l : list A) (x y : A) (i j : nat) :
  (<[i := x]> l) !! j = Some y → l !! j = Some y ∨ (j = i ∧ y = x).
Proof.
  intros H. destruct (decide (i = j)) as [->|Hne].
  - destruct (decide (j < length l)) as [Hlt|Hge].
    + rewrite list_lookup_insert_eq in H by exact Hlt. injection H as <-. auto.
    + rewrite list_insert_ge in H by lia. auto.
  - rewrite list_lookup_insert_ne in H by exact Hne. auto.
Qed.

(** ** How one event changes promises, reactions, scripts and handles *)

Lemma promises_settle q s (σ : State) :
  promises (settle q s σ) = settle_list q s (promises σ).
Proof. unfold settle, settle_list. destruct (promises σ !! q) as [[]|]; reflexivity. Qed.

Lemma settle_list_length q s ps : length (settle_list q s ps) = length ps.
Proof.
  unfold settle_list. destruct (ps !! q) as [[]|]; rewrite ?length_insert; reflexivity.
Qed.

Lemma settle_list_cases q s ps p :
  settle_list q s ps !! p = ps !! p
  ∨ (q = p ∧ ps !! p = Some Pending ∧ settle_list q s ps !! p = Some s).
Proof.
  unfold settle_list. destruct (decide (q = p)) as [->|Hne].
  - destruct (ps !! p) as [[]|] eqn:E; auto. right. repeat split.
    apply list_lookup_insert_eq. eapply lookup_lt_Some; eauto.
  - left. destruct (ps !! q) as [[]|]; try reflexivity.
    apply list_lookup_insert_ne, Hne.
Qed.

Lemma promises_evolve_app (σ : State) news : promises_evolve σ (promises σ ++ news).
Proof.
  split.
  - rewrite length_app. lia.
  - intros p Hp. left. apply lookup_app_l, Hp.
Qed.

Lemma promises_evolve_same (σ : State) : promises_evolve σ (promises σ).
Proof. split; [lia | intros; left; reflexivity]. Qed.

Lemma promises_evolve_settle (σ : State) q s :
  may_settle σ q s → promises_evolve σ (settle_list q s (promises σ)).
Proof.
  intros Hq. split.
  - rewrite settle_list_length. lia.
  - intros p Hp. destruct (settle_list_cases q s (promises σ) p) as [H|(-> & H1 & H2)].
    + left. exact H.
    + right. split; [exact H1|]. exists s. split; [exact H2 | exact Hq].
Qed.

Lemma promises_evolve_settle2 (σ : State) q1 v q2 s2 :
  may_settle σ q1 (Fulfilled v) → may_settle σ q2 s2 →
  promises_evolve σ (settle_list q2 s2 (settle_list q1 (Fulfilled v) (promises σ))).
Proof.
  intros H1 H2. split.
  - rewrite !settle_list_length. lia.
  - intros p Hp.
    destruct (settle_list_cases q2 s2 (settle_list q1 (Fulfilled v) (promises σ)) p)
      as [E2|(-> & E2 & E2')];
    destruct (settle_list_cases q1 (Fulfilled v) (promises σ) p) as [E1|(-> & E1 & E1')].
    + left. congruence.
    + right. split; [exact E1|]. exists (Fulfilled v). split; [congruence | exact H1].
    + right. split; [congruence|]. exists s2. split; [exact E2' | exact H2].
    + congruence.
Qed.

Lemma reactions_evolve_same (σ : State) n' : reactions_evolve σ n' (reactions σ).
Proof. intros k r' H. left. exists r'. tauto. Qed.

Lemma reactions_evolve_mark (σ : State) n' k :
  reactions_evolve σ n' (reactions (mark_settled k σ)).
Proof.
  intros j r' H. left. apply mark_settled_lookup in H as (r & Hr & H1 & H2 & H3 & H4 & H5).
  exists r. repeat split; try assumption.
  intros Hs. rewrite H5. destruct (decide (k = j)); [reflexivity | exact Hs].
Qed.

Lemma scripts_evolve_same (σ : State) n' : scripts_evolve σ n' (scriptElements σ).
Proof. intros e s H. left. exact H. Qed.

Lemma heap_evolve_same (σ : State) : heap_evolve σ (heap σ).
Proof.
  split; [lia|]. intros h b' H. left. exists b'. tauto.
Qed.

Lemma heap_evolve_insert (σ : State) h b b' :
  heap σ !! h = Some b → url b' = url b → moduleType b' = moduleType b →
  moduleRef b' = moduleRef b → create_compFactory b' = create_compFactory b →
  heap_evolve σ (<[h := b']> (heap σ)).
Proof.
  intros Hb H1 H2 H3 H4. split; [rewrite length_insert; lia|].
  intros j c Hj. left. apply lookup_insert_cases in Hj as [Hj|[-> ->]].
  - exists c. tauto.
  - exists b. tauto.
Qed.

Lemma heap_evolve_snoc (σ : State) b : bundle_ok b → heap_evolve σ (heap σ ++ [b]).
Proof.
  intros Hb. split; [rewrite length_app; lia|].
  intros j c Hj. apply lookup_snoc_cases in Hj as [Hj|[-> ->]].
  - left. exists c. tauto.
  - right. split; [lia | exact Hb].
Qed.

(** The clauses of [evolves] that an event leaves as they were. *)
Ltac unchanged :=
  first [ apply promises_evolve_app | apply promises_evolve_same
        | apply reactions_evolve_same | apply reactions_evolve_mark
        | apply scripts_evolve_same | apply heap_evolve_same | reflexivity ].

Lemma wf_evolves (σ σ' : State) : wf σ → evolves σ σ' → wf σ'.
Proof.
  intros (Hr & Hs & Hh) ((Hlen & _) & Hr' & Hs' & (_ & Hh') & _).
  split; [|split].
  - intros k r' Hk. destruct (Hr' k r' Hk) as [(r & Hkr & E1 & E2 & E3 & E4 & _)|H].
    + destruct (Hr k r Hkr) as (A & B & C & f & D).
      rewrite E3, E4, E2, E1. repeat split; try lia. exists f. exact D.
    + destruct H as (_ & _ & A & B & C & _ & D). tauto.
  - intros e s He. destruct (Hs' e s He) as [H|(_ & A & B)].
    + destruct (Hs e s H) as [A B]. split; [lia | exact B].
    + tauto.
  - intros h b' Hb. destruct (Hh' h b' Hb) as [(b & Hhb & E1 & E2 & E3 & E4)|[_ H]].
    + destruct (Hh h b Hhb) as ((n & f & U) & L & HL & HC).
      split.
      * exists n, f. congruence.
      * exists L. split; congruence.
    + exact H.
Qed.

Lemma evolves_same_core (σ σ' : State) : same_core σ σ' → evolves σ σ'.
Proof.
  intros (_ & _ & Hi & Hh & Hp & Hr & Hs & _). unfold evolves.
  rewrite Hp, Hr, Hs, Hh, Hi. repeat split; unchanged.
Qed.

Lemma evolves_load n f a (σ : State) : evolves σ (load n f a σ).2.
Proof.
  destruct a.
  - rewrite load_throws. unfold evolves. simpl.
    split; [|split; [|split; [|split]]]; unchanged.
  - rewrite load_returns_promise. unfold evolves. simpl.
    split; [rewrite <- app_assoc|split; [|split; [|split]]]; try unchanged.
    intros k r' Hk. apply lookup_snoc_cases in Hk as [Hk|[-> ->]].
    + left. exists r'. tauto.
    + right. simpl. rewrite !length_app. simpl.
      repeat split; try lia. exists f. reflexivity.
Qed.

Lemma evolves_loadJs u (σ : State) : evolves σ (loadJs u σ).2.
Proof.
  destruct (loadJs_cases u σ) as [[_ ->]|[Hu ->]]; unfold evolves; simpl.
  - split; [|split; [|split; [|split]]]; unchanged.
  - split; [|split; [|split; [|split]]]; try unchanged.
    intros e s He. apply lookup_snoc_cases in He as [He|[-> ->]].
    + left. exact He.
    + right. simpl. rewrite length_app. simpl. split; [lia|]. split; [lia|].
      unfold js_get in Hu. destruct (loadedLibraries σ !! u); [discriminate|].
      destruct (inherited u); [discriminate | reflexivity].
Qed.

Lemma evolves_unload h d (σ : State) : evolves σ (unload h d σ).2.
Proof.
  destruct (unload_cases h d σ)
    as [[_ ->]|[(b & _ & _ & ->)|[(b & Hb & _ & _ & ->)|(b & Hb & _ & _ & ->)]]];
    unfold evolves; simpl;
    (split; [apply promises_evolve_app|]);
    (split; [apply reactions_evolve_same|]);
    (split; [apply scripts_evolve_same|]);
    (split; [|reflexivity]);
    try apply heap_evolve_same;
    eapply heap_evolve_insert; eauto.
Qed.

Lemma evolves_script_onload e (σ : State) : evolves σ (script_onload e σ).2.
Proof.
  destruct (script_onload_cases e σ) as [[_ ->]|(s & Hs & ->)]; simpl.
  - apply evolves_same_core. repeat split.
  - unfold evolves.
    destruct (settle_fields (onload_promise s) (Fulfilled (VScript e))
                (set_loadedLibraries (λ l, <[onload_url s := e]> l) σ))
      as (_ & _ & Ei & Eh & Er & Es & _ & _ & _ & _ & El).
    rewrite Er, Es, Eh, Ei, El, promises_settle. simpl.
    split; [|split; [apply reactions_evolve_same|split; [apply scripts_evolve_same|
             split; [apply heap_evolve_same | reflexivity]]]].
    apply promises_evolve_settle. right. right. exists e, s. tauto.
Qed.

Lemma evolves_host_rejects k (σ : State) : evolves σ (host_rejects k σ).
Proof.
  unfold host_rejects. destruct (reactions σ !! k) as [r|] eqn:Hr.
  2:{ apply evolves_same_core. repeat split. }
  destruct (r_settled r) eqn:Hs.
  { apply evolves_same_core. repeat split. }
  unfold evolves.
  destruct (settle_fields (r_derived r) (Rejected HostError) (mark_settled k σ))
    as (_ & _ & Ei & Eh & Er & Es & _ & _ & _ & _ & El).
  destruct (mark_settled_fields k σ) as (_ & _ & Fi & Fh & Fp & Fs & _).
  rewrite Er, Es, Eh, Ei, El, promises_settle, Fi, Fh, Fp, Fs.
  split; [|split; [apply reactions_evolve_mark|split; [apply scripts_evolve_same|
           split; [apply heap_evolve_same | reflexivity]]]].
  apply promises_evolve_settle. right. left. exists k, r. tauto.
Qed.

Lemma evolves_host_fulfils k mf (σ : State) : wf σ → evolves σ (host_fulfils k mf σ).
Proof.
  intros (Hwr & _ & _).
  destruct (host_fulfils_cases k mf σ) as [[-> _]|(r & σ' & s & Hr & Hs & -> & Hcb)].
  { apply evolves_same_core. repeat split. }
  destruct (Hwr k r Hr) as (_ & _ & _ & f & Hurl).
  assert (Hd : may_settle σ (r_derived r) s) by (right; left; exists k, r; tauto).
  assert (Hp : ∀ v, may_settle σ (r_promise r) (Fulfilled v))
    by (intros v; left; exists k, r, v; tauto).
  destruct (mark_settled_fields k σ) as (_ & _ & Fi & Fh & Fp & Fs & _).
  destruct (settle_fields (r_derived r) s σ')
    as (_ & _ & Ei & Eh & Er & Es & _ & _ & _ & _ & El).
  unfold evolves. rewrite Er, Es, Eh, Ei, El, promises_settle.
  destruct (load_callback_cases (r_moduleName r) (r_moduleURL r) (r_promise r) mf
              (mark_settled k σ))
    as [(h & _ & E)|[(_ & _ & E)|[(_ & _ & _ & e & σ2 & E & Hc)|(_ & _ & _ & L & HL & E)]]];
    rewrite E in Hcb.
  - assert (σ' = settle (r_promise r) (Fulfilled (VBundle h)) (mark_settled k σ)) as ->
      by (callback_state Hcb).
    destruct (settle_fields (r_promise r) (Fulfilled (VBundle h)) (mark_settled k σ))
      as (_ & _ & Gi & Gh & Gr & Gs & _ & _ & _ & _ & Gl).
    rewrite ?Gr, ?Gs, ?Gh, ?Gi, ?Gl, ?promises_settle, ?Fi, ?Fh, ?Fp, ?Fs.
    split; [apply promises_evolve_settle2; auto|].
    split; [apply reactions_evolve_mark|].
    split; [apply scripts_evolve_same|].
    split; [apply heap_evolve_same | reflexivity].
  - assert (σ' = settle (r_promise r) (Fulfilled VBuiltin) (mark_settled k σ)) as ->
      by (callback_state Hcb).
    destruct (settle_fields (r_promise r) (Fulfilled VBuiltin) (mark_settled k σ))
      as (_ & _ & Gi & Gh & Gr & Gs & _ & _ & _ & _ & Gl).
    rewrite ?Gr, ?Gs, ?Gh, ?Gi, ?Gl, ?promises_settle, ?Fi, ?Fh, ?Fp, ?Fs.
    split; [apply promises_evolve_settle2; auto|].
    split; [apply reactions_evolve_mark|].
    split; [apply scripts_evolve_same|].
    split; [apply heap_evolve_same | reflexivity].
  - assert (σ' = σ2) as ->
      by (callback_state Hcb).
    destruct Hc as (_ & _ & Gi & Gh & Gp & Gr & Gs & _).
    rewrite ?Gr, ?Gs, ?Gh, ?Gi, ?Gp, ?Fi, ?Fh, ?Fp, ?Fs.
    split; [apply promises_evolve_settle; auto|].
    split; [apply reactions_evolve_mark|].
    split; [apply scripts_evolve_same|].
    split; [apply heap_evolve_same | reflexivity].
  - match type of E with _ = (_, ?X) =>
      assert (σ' = X) as ->
        by (callback_state Hcb)
    end.
    match goal with |- context [settle ?q ?x ?st] =>
      destruct (settle_fields q x st)
        as (_ & _ & Gi & Gh & Gr & Gs & _ & _ & _ & _ & Gl);
      rewrite ?Gr, ?Gs, ?Gh, ?Gi, ?Gl, ?promises_settle
    end.
    simpl. rewrite ?Fi, ?Fh, ?Fp, ?Fs.
    split; [apply promises_evolve_settle2; auto|].
    split; [apply reactions_evolve_mark|].
    split; [apply scripts_evolve_same|].
    split; [|reflexivity].
    apply heap_evolve_snoc. split.
    + exists (r_moduleName r), f. exact Hurl.
    + exists L. split; [exact HL | reflexivity].
Qed.

Lemma evolves_step ev (σ : State) : wf σ → evolves σ (step ev σ).
Proof.
  intros Hwf. destruct ev as [n f a|k mf|k|h d|h d|h t v|u|e]; simpl.
  - apply evolves_load.
  - apply evolves_host_fulfils, Hwf.
  - apply evolves_host_rejects.
  - apply evolves_unload.
  - unfold destroy, lift, bind, ret.
    pose proof (evolves_unload h d σ) as H.
    destruct (unload h d σ) as [p σ']. exact H.
  - apply evolves_same_core, create_same_core.
  - apply evolves_loadJs.
  - apply evolves_script_onload.
Qed.

Lemma wf_step ev (σ : State) : wf σ → wf (step ev σ).
Proof. intros H. eapply wf_evolves; [exact H | apply evolves_step, H]. Qed.

Lemma wf_run evs (σ : State) : wf σ → wf (run evs σ).
Proof.
  revert σ. induction evs as [|ev evs IH]; intros σ H; simpl.
  - exact H.
  - apply IH, wf_step, H.
Qed.

Lemma reachable_wf (σ : State) : reachable σ → wf σ.
Proof. intros (i & evs & ->). apply wf_run, wf_init. Qed.

(** The keys [onload] handlers store under are never names of
    Object.prototype. *)
Lemma onload_key_not_inherited (σ : State) (e : ElementRef) (s : ScriptElement) :
  reachable σ → scriptElements σ !! e = Some s → inherited (onload_url s) = false.
Proof.
  intros Hr He. apply reachable_wf in Hr as (_ & Hs & _). apply (Hs e s He).
Qed.

Lemma reachable_init i : reachable (init i).
Proof. exists i, []. reflexivity. Qed.

Lemma run_app evs1 evs2 (σ : State) : run (evs1 ++ evs2) σ = run evs2 (run evs1 σ).
Proof. unfold run. apply fold_left_app. Qed.

Lemma reachable_run evs (σ : State) : reachable σ → reachable (run evs σ).
Proof.
  intros (i & evs0 & ->). exists i, (evs0 ++ evs). rewrite run_app. reflexivity.
Qed.

(** ** Promises nobody can settle *)

Lemma unreferenced_no_settle p s (σ : State) : unreferenced p σ → ¬ may_settle σ p s.
Proof.
  intros [Hr Hs] [(k & r & v & H1 & H2 & H3 & _)|[(k & r & H1 & H2 & H3)|(e & sc & H1 & H2 & _)]].
  - destruct (Hr k r H1 H2) as [A _]. contradiction.
  - destruct (Hr k r H1 H2) as [_ A]. contradiction.
  - exact (Hs e sc H1 H2).
Qed.

Lemma unreferenced_step ev p (σ : State) :
  wf σ → p < length (promises σ) → unreferenced p σ →
  promises (step ev σ) !! p = promises σ !! p ∧
  p < length (promises (step ev σ)) ∧
  unreferenced p (step ev σ).
Proof.
  intros Hwf Hp Hun.
  destruct (evolves_step ev σ Hwf) as ((Hlen & Hps) & Hrs & Hss & _).
  split; [|split; [lia|split]].
  - destruct (Hps p Hp) as [H|(_ & s & _ & Hs)]; [exact H|].
    exfalso. eapply unreferenced_no_settle; eauto.
  - intros k r' Hk Hs'. destruct (Hrs k r' Hk) as [(r & Hr & _ & _ & E1 & E2 & E3)|H].
    + rewrite E1, E2. apply (proj1 Hun k r Hr).
      destruct (r_settled r); [|reflexivity]. rewrite E3 in Hs' by reflexivity. discriminate.
    + destruct H as (A & B & _). lia.
  - intros e s He. destruct (Hss e s He) as [H|(A & _)].
    + apply (proj2 Hun e s H).
    + lia.
Qed.

Lemma unreferenced_run evs p (σ : State) :
  wf σ → p < length (promises σ) → unreferenced p σ →
  promises (run evs σ) !! p = promises σ !! p.
Proof.
  revert σ. induction evs as [|ev evs IH]; intros σ Hwf Hp Hun; simpl.
  - reflexivity.
  - destruct (unreferenced_step ev p σ Hwf Hp Hun) as (E & Hp' & Hun').
    rewrite IH by (try apply wf_step; assumption). exact E.
Qed.

(** ** Promises that cannot be rejected *)

Lemma not_rejected_step ev p (σ : State) :
  wf σ → p < length (promises σ) → not_derived p σ →
  not_rejected (promises σ !! p) →
  p < length (promises (step ev σ)) ∧ not_derived p (step ev σ) ∧
  not_rejected (promises (step ev σ) !! p).
Proof.
  intros Hwf Hp Hnd Hnr.
  destruct (evolves_step ev σ Hwf) as ((Hlen & Hps) & Hrs & _).
  split; [lia|split].
  - intros k r' Hk Hs'. destruct (Hrs k r' Hk) as [(r & Hr & _ & _ & _ & E2 & E3)|H].
    + rewrite E2. apply (Hnd k r Hr).
      destruct (r_settled r); [|reflexivity]. rewrite E3 in Hs' by reflexivity. discriminate.
    + destruct H as (_ & B & _). lia.
  - destruct (Hps p Hp) as [H|(_ & s & Hs & Hm)]; [rewrite H; exact Hnr|].
    rewrite Hs. destruct Hm as [(k & r & v & _ & _ & _ & ->)|[(k & r & H1 & H2 & H3)|
                                (e & sc & _ & _ & ->)]].
    + right. eauto.
    + exfalso. exact (Hnd k r H1 H2 H3).
    + right. eauto.
Qed.

Lemma not_rejected_run evs p (σ : State) :
  wf σ → p < length (promises σ) → not_derived p σ →
  not_rejected (promises σ !! p) →
  not_rejected (promises (run evs σ) !! p).
Proof.
  revert σ. induction evs as [|ev evs IH]; intros σ Hwf Hp Hnd Hnr; simpl.
  - exact Hnr.
  - destruct (not_rejected_step ev p σ Hwf Hp Hnd Hnr) as (Hp' & Hnd' & Hnr').
    apply IH; try assumption. apply wf_step, Hwf.
Qed.

(** ** A call of [load] whose host promise is fulfilled *)

Lemma load_then_fulfil n f mf (σ : State) :
  let u := f +:+ "#" +:+ n in
  let p := length (promises σ) in
  let σ2 := host_fulfils (length (reactions σ)) mf (load n f LoaderReturnsPromise σ).2 in
  match cache σ !! u with
  | Some h =>
    promises σ2 !! p = Some (Fulfilled (VBundle h)) ∧ cache σ2 = cache σ ∧
    heap σ2 = heap σ
  | None =>
    if well_behaved mf then
      ∃ L, creatableComponents (mf_moduleType mf) = Some L ∧
           promises σ2 !! p = Some (Fulfilled (VBundle (length (heap σ)))) ∧
           cache σ2 = <[u := length (heap σ)]> (cache σ) ∧
           heap σ2 = heap σ ++ [new_bundle n u mf L (nextModuleRef σ)]
    else
      promises σ2 !! p = Some Pending ∧ cache σ2 = cache σ ∧ heap σ2 = heap σ
  end.
Proof.
  intros u p σ2. subst σ2. rewrite load_returns_promise. simpl.
  set (σ1 := mkState _ _ _ _ _ _ _ _ _ _ _).
  assert (Hk : reactions σ1 !! length (reactions σ)
               = Some (mkReaction n u p (S p) false)) by apply lookup_snoc.
  assert (Hp : promises σ1 !! p = Some Pending).
  { subst σ1. simpl. rewrite lookup_app_l by (rewrite length_app; simpl; lia).
    apply lookup_snoc. }
  destruct (host_fulfils_cases (length (reactions σ)) mf σ1)
    as [[_ H]|(r & σ' & s & Hr & _ & -> & Hcb)].
  { specialize (H _ Hk). discriminate. }
  rewrite Hk in Hr. injection Hr as <-. simpl in Hcb |- *.
  assert (Hne : S p ≠ p) by lia.
  destruct (settle_fields (S p) s σ') as (Ec & _ & _ & Eh & _).
  rewrite (settle_lookup_ne _ _ _ _ Hne), Ec, Eh. clear Ec Eh.
  destruct (mark_settled_fields (length (reactions σ)) σ1) as (Fc & _ & _ & Fh & Fp & _).
  destruct (load_callback_cases n u p mf (mark_settled (length (reactions σ)) σ1))
    as [(h & Hc & E)|[(Hc & Hi & _)|[(Hc & _ & Hw & e & σ3 & E & Hs)|(Hc & _ & Hw & L & HL & E)]]].
  - rewrite Fc in Hc. change (cache σ1) with (cache σ) in Hc. rewrite Hc.
    rewrite E in Hcb.
    assert (σ' = settle p (Fulfilled (VBundle h)) (mark_settled (length (reactions σ)) σ1))
      as -> by (callback_state Hcb).
    destruct (settle_fields p (Fulfilled (VBundle h)) (mark_settled (length (reactions σ)) σ1))
      as (Ec & _ & _ & Eh & _).
    rewrite settle_lookup_eq, Ec, Eh, Fc, Fh, Fp, Hp. repeat split.
  - subst u. rewrite inherited_moduleURL in Hi. discriminate.
  - rewrite Fc in Hc. change (cache σ1) with (cache σ) in Hc. rewrite Hc, Hw.
    rewrite E in Hcb.
    assert (σ' = σ3) as ->
      by (callback_state Hcb).
    destruct Hs as (Ec & _ & _ & Eh & Ep & _).
    rewrite Ec, Eh, Ep, Fc, Fh, Fp, Hp. repeat split.
  - rewrite Fc in Hc. change (cache σ1) with (cache σ) in Hc. rewrite Hc, Hw.
    rewrite E in Hcb.
    match type of E with _ = (_, ?X) =>
      assert (σ' = X) as ->
        by (callback_state Hcb)
    end.
    match goal with |- context [settle ?q ?x ?st] =>
      destruct (settle_fields q x st) as (Ec & _ & _ & Eh & _)
    end.
    exists L. rewrite settle_lookup_eq, Ec, Eh. cbn [promises cache heap].
    rewrite Fp, Fh, Fc, Hp. repeat split. exact HL.
Qed.

(** ** The cache only loses entries through [unload] *)

Lemma cache_host_fulfils k mf (σ : State) :
  cache (host_fulfils k mf σ) = cache σ
  ∨ ∃ u h, cache σ !! u = None ∧ cache (host_fulfils k mf σ) = <[u := h]> (cache σ).
Proof.
  destruct (host_fulfils_cases k mf σ) as [[-> _]|(r & σ' & s & Hr & Hs & -> & Hcb)].
  { left. reflexivity. }
  destruct (settle_fields (r_derived r) s σ') as (Ec & _). rewrite Ec.
  destruct (mark_settled_fields k σ) as (Fc & _).
  destruct (load_callback_cases (r_moduleName r) (r_moduleURL r) (r_promise r) mf
              (mark_settled k σ))
    as [(h & _ & E)|[(_ & _ & E)|[(_ & _ & _ & e & σ2 & E & Hc)|(Hn & _ & _ & L & HL & E)]]];
    rewrite E in Hcb;
    match type of E with _ = (_, ?X) =>
      assert (σ' = X) as ->
        by (callback_state Hcb)
    end.
  - left. destruct (settle_fields (r_promise r) (Fulfilled (VBundle h)) (mark_settled k σ))
      as (Gc & _). rewrite Gc. exact Fc.
  - left. destruct (settle_fields (r_promise r) (Fulfilled VBuiltin) (mark_settled k σ))
      as (Gc & _). rewrite Gc. exact Fc.
  - left. destruct Hc as (Gc & _). rewrite Gc. exact Fc.
  - right. match goal with |- context [settle ?q ?x ?st] =>
      destruct (settle_fields q x st) as (Gc & _); rewrite Gc
    end.
    cbn [cache]. rewrite Fc in Hn |- *. eauto.
Qed.

Lemma cache_step ev (σ : State) :
  is_unload ev = false →
  cache (step ev σ) = cache σ
  ∨ ∃ u h, cache σ !! u = None ∧ cache (step ev σ) = <[u := h]> (cache σ).
Proof.
  intros Hev. destruct ev as [n f a|k mf|k|h d|h d|h t v|u|e]; try discriminate; simpl.
  - left. destruct a; [rewrite load_throws | rewrite load_returns_promise]; reflexivity.
  - apply cache_host_fulfils.
  - left. unfold host_rejects. destruct (reactions σ !! k) as [r|]; [|reflexivity].
    destruct (r_settled r); [reflexivity|].
    destruct (settle_fields (r_derived r) (Rejected HostError) (mark_settled k σ)) as (Ec & _).
    rewrite Ec. reflexivity.
  - left. apply (create_same_core h t v σ).
  - left. destruct (loadJs_cases u σ) as [[_ ->]|[_ ->]]; reflexivity.
  - left. destruct (script_onload_cases e σ) as [[_ ->]|(s & _ & ->)]; [reflexivity|].
    cbn [snd].
    destruct (settle_fields (onload_promise s) (Fulfilled (VScript e))
                (set_loadedLibraries (λ l, <[onload_url s := e]> l) σ)) as (Ec & _).
    rewrite Ec. reflexivity.
Qed.

Lemma cache_run_keeps evs u h (σ : State) :
  forallb (λ ev, negb (is_unload ev)) evs = true →
  cache σ !! u = Some h → cache (run evs σ) !! u = Some h.
Proof.
  revert σ. induction evs as [|ev evs IH]; intros σ Hevs Hc; simpl in *.
  - exact Hc.
  - apply andb_true_iff in Hevs as [Hev Hevs]. apply negb_true_iff in Hev.
    apply IH; [exact Hevs|].
    destruct (cache_step ev σ Hev) as [->|(u' & h' & Hn & ->)]; [exact Hc|].
    rewrite lookup_insert_ne; [exact Hc|]. intros ->. rewrite Hc in Hn. discriminate.
Qed.

(** ** After [unload] *)

(** After an [unload] that completed, the key of the handle is not in the
    cache, whether this call removed it or it was gone before. *)
Lemma unload_completed_key_absent (σ : State) (h : loc) (b : ModuleBundle) (d : bool) :
  heap σ !! h = Some b →
  inherited (url b) = false →
  promises (unload h d σ).2 !! (unload h d σ).1 = Some (Fulfilled VUndefined) →
  cache (unload h d σ).2 !! url b = None ∧
  (∃ b', heap (unload h d σ).2 !! h = Some b' ∧ url b' = url b) ∧
  length (heap (unload h d σ).2) = length (heap σ) ∧
  nextModuleRef (unload h d σ).2 = nextModuleRef σ.
Proof.
  intros Hb Hi.
  destruct (unload_cases h d σ)
    as [[Hn _]|[(b0 & Hb0 & Hf & ->)|[(b0 & _ & _ & _ & ->)|(b0 & Hb0 & _ & _ & ->)]]];
    simpl.
  - rewrite Hn in Hb. discriminate.
  - rewrite Hb in Hb0. injection Hb0 as <-. intros _.
    unfold js_get in Hf. rewrite Hi in Hf.
    destruct (cache σ !! url b) eqn:Hc; [discriminate|].
    split; [reflexivity|]. split; [eauto | split; reflexivity].
  - rewrite lookup_snoc. discriminate.
  - rewrite Hb in Hb0. injection Hb0 as <-. intros _.
    split; [apply lookup_delete_eq|]. split; [|split; [apply length_insert|reflexivity]].
    exists (stripped b). split; [|reflexivity].
    apply list_lookup_insert_eq. eapply lookup_lt_Some; eauto.
Qed.

Lemma reachable_bundle_url (σ : State) (h : loc) (b : ModuleBundle) :
  reachable σ → heap σ !! h = Some b → inherited (url b) = false.
Proof.
  intros Hr Hb. apply reachable_wf in Hr as (_ & _ & Hh).
  destruct (Hh h b Hb) as ((n & f & ->) & _). apply inherited_moduleURL.
Qed.

(** ** The compFactory object of a module *)

Section CompFactory.
Variable g : string → Entry.

Lemma assign_own (keys : list string) (o : CompFactory) (k : string) :
  k ≠ "__proto__" →
  cf_own (assign g keys o) !! k
  = if decide (k ∈ keys) then Some (g k) else cf_own o !! k.
Proof.
  intros Hk. revert o. induction keys as [|a keys IH]; intros o.
  - unfold assign. cbn [map fold_left]. destruct (decide (k ∈ [])) as [H|_]; [|reflexivity].
    apply elem_of_nil in H. contradiction.
  - unfold assign in *. cbn [map fold_left fst snd]. rewrite IH. clear IH.
    unfold compFactory_set.
    destruct (decide (k ∈ keys)) as [Hin|Hnin];
      destruct (decide (k ∈ a :: keys)) as [Hin'|Hnin']; try reflexivity.
    + exfalso. apply Hnin', elem_of_cons. right. exact Hin.
    + apply elem_of_cons in Hin' as [->|?]; [|contradiction].
      destruct (String.eqb_spec a "__proto__") as [->|_]; [contradiction|].
      simpl. apply lookup_insert_eq.
    + assert (a ≠ k) by (intros ->; apply Hnin', elem_of_cons; left; reflexivity).
      destruct (String.eqb a "__proto__"); simpl; [reflexivity|].
      apply lookup_insert_ne. assumption.
Qed.

Lemma assign_own_proto (keys : list string) (o : CompFactory) :
  cf_own (assign g keys o) !! "__proto__" = cf_own o !! "__proto__".
Proof.
  revert o. induction keys as [|a keys IH]; intros o; [reflexivity|].
  unfold assign in *. cbn [map fold_left fst snd]. rewrite IH. unfold compFactory_set.
  destruct (String.eqb_spec a "__proto__") as [->|Hne]; simpl; [reflexivity|].
  apply lookup_insert_ne. exact Hne.
Qed.

Lemma assign_proto (keys : list string) (o : CompFactory) :
  cf_proto (assign g keys o)
  = if decide ("__proto__" ∈ keys) then Some (g "__proto__") else cf_proto o.
Proof.
  revert o. induction keys as [|a keys IH]; intros o.
  - unfold assign. cbn [map fold_left].
    destruct (decide ("__proto__" ∈ [])) as [H|_]; [|reflexivity].
    apply elem_of_nil in H. contradiction.
  - unfold assign in *. cbn [map fold_left fst snd]. rewrite IH. clear IH.
    unfold compFactory_set.
    destruct (decide ("__proto__" ∈ keys)) as [Hin|Hnin];
      destruct (decide ("__proto__" ∈ a :: keys)) as [Hin'|Hnin']; try reflexivity.
    + exfalso. apply Hnin', elem_of_cons. right. exact Hin.
    + apply elem_of_cons in Hin' as [<-|?]; [|contradiction]. reflexivity.
    + destruct (String.eqb_spec a "__proto__") as [->|Hne]; simpl; [|reflexivity].
      exfalso. apply Hnin', elem_of_cons. left. reflexivity.
Qed.
End CompFactory.

Lemma property_elem_of (L : list (string * ComponentType)) (k : string) :
  k ∈ map fst L ↔ is_Some (property L k).
Proof.
  induction L as [|[a t] L IH]; simpl.
  - split; [intros H; apply elem_of_nil in H; contradiction | intros [? H]; discriminate].
  - destruct (String.eqb_spec a k) as [->|Hne].
    + split; [eauto | intros _; apply elem_of_cons; left; reflexivity].
    + rewrite elem_of_cons, IH. split; [intros [?|?]; [congruence|assumption] | auto].
Qed.

Lemma compFactory_of_assign L mref :
  compFactory_of L mref = assign (entry_of L mref) (map fst L) compFactory_empty.
Proof. reflexivity. Qed.

Lemma compFactory_of_declared L mref k t :
  property L k = Some t →
  compFactory_factory (compFactory_of L mref) k = FLFactory (mkComponentFactory t mref).
Proof.
  intros Hk. rewrite compFactory_of_assign. unfold compFactory_factory.
  assert (Hin : k ∈ map fst L) by (apply property_elem_of; eauto).
  assert (Hg : entry_factory (entry_of L mref k) = mkComponentFactory t mref)
    by (unfold entry_of; rewrite Hk; reflexivity).
  destruct (String.eqb_spec k "__proto__") as [->|Hne].
  - rewrite assign_own_proto. simpl. rewrite lookup_empty.
    rewrite assign_proto.
    destruct (decide ("__proto__" ∈ map fst L)) as [_|Hn]; [|contradiction].
    rewrite Hg. reflexivity.
  - rewrite assign_own by exact Hne.
    destruct (decide (k ∈ map fst L)) as [_|Hn]; [|contradiction].
    rewrite Hg. reflexivity.
Qed.

Lemma compFactory_of_undeclared L mref k :
  property L k = None →
  reaches_host_object L k = false →
  compFactory_factory (compFactory_of L mref) k
  = if inherited k then FLUndefined else FLThrows.
Proof.
  intros Hk Hh. rewrite compFactory_of_assign. unfold compFactory_factory.
  assert (Hnin : k ∉ map fst L).
  { intros H. apply property_elem_of in H as [t H]. congruence. }
  assert (Hown : cf_own (assign (entry_of L mref) (map fst L) compFactory_empty) !! k
                 = None).
  { destruct (String.eqb_spec k "__proto__") as [->|Hne].
    - rewrite assign_own_proto. reflexivity.
    - rewrite assign_own by exact Hne.
      destruct (decide (k ∈ map fst L)) as [Hn|_]; [contradiction | reflexivity]. }
  rewrite Hown, assign_proto.
  unfold reaches_host_object in Hh.
  destruct (decide ("__proto__" ∈ map fst L)) as [Hp|Hp].
  - apply property_elem_of in Hp as [t Hp]. rewrite Hp in Hh.
    destruct (String.eqb_spec k "__proto__") as [->|_]; [congruence|].
    rewrite Hh. reflexivity.
  - reflexivity.
Qed.

Lemma reachable_bundle_compFactory (σ : State) (h : loc) (b : ModuleBundle) L :
  reachable σ → heap σ !! h = Some b →
  creatableComponents (moduleType b) = Some L →
  create_compFactory b = compFactory_of L (moduleRef b).
Proof.
  intros Hr Hb HL. apply reachable_wf in Hr as (_ & _ & Hh).
  destruct (Hh h b Hb) as (_ & L' & HL' & Hc). congruence.
Qed.

(** With a container, a name inherited from Object.prototype gets as far as
    the host: the container is asked to create a component from undefined. *)
Lemma create_inherited_name_with_container (σ : State) (h : loc) (b : ModuleBundle)
    (L : list (string * ComponentType)) (componentName : string)
    (container : ViewContainerRef) :
  reachable σ →
  heap σ !! h = Some b →
  creatableComponents (moduleType b) = Some L →
  property L componentName = None →
  reaches_host_object L componentName = false →
  inherited componentName = true →
  create h componentName (Some container) σ
  = (Normal (Asked (ViewContainerCreateComponent container None)),
     set_hostLog (λ l, l ++ [ViewContainerCreateComponent container None]) σ).
Proof.
  intros Hr Hb HL Hn Hh Hi.
  pose proof (reachable_bundle_compFactory σ h b L Hr Hb HL) as Hc.
  pose proof (compFactory_of_undeclared L (moduleRef b) componentName Hn Hh) as Hf.
  unfold create. erewrite bind_Normal by (apply deref_at, Hb).
  rewrite Hc, Hf, Hi. reflexivity.
Qed.

(** ** Promises returned by [load] *)

Lemma settled_run evs p s (σ : State) :
  wf σ → promises σ !! p = Some s → s ≠ Pending →
  promises (run evs σ) !! p = Some s.
Proof.
  revert σ. induction evs as [|ev evs IH]; intros σ Hwf Hp Hs; simpl.
  - exact Hp.
  - apply IH; [apply wf_step, Hwf| |exact Hs].
    destruct (evolves_step ev σ Hwf) as ((_ & Hps) & _).
    destruct (Hps p) as [H|(H & _)].
    + eapply lookup_lt_Some; eauto.
    + rewrite H. exact Hp.
    + rewrite H in Hp. congruence.
Qed.

Lemma load_call_step n f a (σ : State) : (load n f a σ).2 = step (CallLoad n f a) σ.
Proof. reflexivity. Qed.

(** Once the host has settled the promise its loader returned to a [load]
    call, nothing holds the resolving functions of that call's promise. *)
Lemma load_promise_orphaned (σ σ' : State) (n f : string) :
  wf σ →
  reactions σ'
  = reactions (mark_settled (length (reactions σ)) (load n f LoaderReturnsPromise σ).2) →
  scriptElements σ' = scriptElements σ →
  unreferenced (length (promises σ)) σ'.
Proof.
  intros (Hwr & Hws & _) Er Es. split.
  - intros k r Hk Hs. rewrite Er in Hk.
    apply mark_settled_lookup in Hk as (r0 & Hk & _ & _ & E1 & E2 & E3).
    rewrite load_returns_promise in Hk. simpl in Hk. rewrite E1, E2.
    apply lookup_snoc_cases in Hk as [Hk|[-> ->]].
    + destruct (Hwr k r0 Hk) as (A & B & _). lia.
    + destruct (decide (length (reactions σ) = length (reactions σ))); congruence.
  - intros e s He. rewrite Es in He. destruct (Hws e s He) as [A _]. lia.
Qed.

(** C2, the synchronous half: the host loader throws, the catch clause
    resolves with undefined. *)
Lemma load_resolves_undefined_when_loader_throws (σ : State)
    (moduleName moduleFilename : string) :
  let call := load moduleName moduleFilename LoaderThrows σ in
  promises call.2 !! call.1 = Some (Fulfilled VUndefined).
Proof. intros call. subst call. rewrite load_throws. simpl. apply lookup_snoc. Qed.

(** The other way a resolution can fail: the host fulfils its promise, but
    the callback throws on a cache miss (the module factory's [create]
    throws, the class has no [creatableComponents], or a listed type cannot
    be resolved).  Again the promise of [load] stays pending. *)
Lemma load_hangs_when_callback_throws (σ : State)
    (moduleName moduleFilename : string) (mf : NgModuleFactory) (evs : list Event) :
  reachable σ →
  cache σ !! (moduleFilename +:+ "#" +:+ moduleName) = None →
  well_behaved mf = false →
  let call := load moduleName moduleFilename LoaderReturnsPromise σ in
  let σ' := host_fulfils (length (reactions σ)) mf call.2 in
  promises (run evs σ') !! call.1 = Some Pending.
Proof.
  intros Hr Hc Hmf call σ'.
  pose proof (reachable_wf σ Hr) as Hwf.
  assert (Hwf' : wf σ').
  { subst σ' call. rewrite load_call_step.
    change (host_fulfils ?k ?f ?s) with (step (HostFulfils k f) s).
    apply wf_step, wf_step, Hwf. }
  pose proof (load_then_fulfil moduleName moduleFilename mf σ) as H.
  cbv zeta in H. fold call in H. fold σ' in H. rewrite Hc, Hmf in H.
  destruct H as (Hp & _).
  assert (Ep : call.1 = length (promises σ))
    by (subst call; rewrite load_returns_promise; reflexivity).
  rewrite Ep.
  rewrite unreferenced_run; [exact Hp | exact Hwf' | eapply lookup_lt_Some; eauto |].
  assert (Hk : reactions call.2 !! length (reactions σ)
               = Some (mkReaction moduleName (moduleFilename +:+ "#" +:+ moduleName)
                                  (length (promises σ)) (S (length (promises σ))) false))
    by (subst call; rewrite load_returns_promise; apply lookup_snoc).
  destruct (host_fulfils_cases (length (reactions σ)) mf call.2)
    as [[_ H]|(r & σ3 & s & Hr3 & _ & E & Hcb)].
  { specialize (H _ Hk). discriminate. }
  rewrite Hk in Hr3. injection Hr3 as <-.
  cbn [r_moduleName r_moduleURL r_promise r_derived] in Hcb, E. fold σ' in E.
  destruct (settle_fields (S (length (promises σ))) s σ3)
    as (_ & _ & _ & _ & Gr & Gs & _).
  destruct (mark_settled_fields (length (reactions σ)) call.2)
    as (Fc & _ & _ & _ & _ & Fs & _).
  assert (Ecs : cache call.2 = cache σ ∧ scriptElements call.2 = scriptElements σ)
    by (subst call; rewrite load_returns_promise; split; reflexivity).
  destruct Ecs as [Ecc Ecs].
  destruct (load_callback_cases moduleName (moduleFilename +:+ "#" +:+ moduleName)
              (length (promises σ)) mf (mark_settled (length (reactions σ)) call.2))
    as [(h & Hh & _)|[(_ & Hi & _)|[(_ & _ & _ & e & σ4 & E4 & Hs)|(_ & _ & Hw & _)]]].
  - rewrite Fc, Ecc, Hc in Hh. discriminate.
  - rewrite inherited_moduleURL in Hi. discriminate.
  - rewrite E4 in Hcb.
    assert (σ3 = σ4) as ->
      by (callback_state Hcb).
    destruct Hs as (_ & _ & _ & _ & _ & Hr4 & Hs4 & _).
    apply (load_promise_orphaned σ σ' moduleName moduleFilename Hwf).
    + rewrite E, Gr. exact Hr4.
    + rewrite E, Gs, Hs4, Fs. exact Ecs.
  - congruence.
Qed.

(** Two [load] calls for one key, both issued before the host answers.  The
    callback checks the cache and writes it in one synchronous run, so the
    second callback finds what the first one stored: the module is
    instantiated once and both promises get the same handle. *)
Example concurrent_loads_share_handle :
  let σ := run [CallLoad "Lazy" "bundle/lazy.module" LoaderReturnsPromise;
                CallLoad "Lazy" "bundle/lazy.module" LoaderReturnsPromise;
                HostFulfils 1 LazyFactory; HostFulfils 0 LazyFactory] (init 0) in
  promises σ !! 0 = Some (Fulfilled (VBundle 0)) ∧
  promises σ !! 2 = Some (Fulfilled (VBundle 0)) ∧
  length (heap σ) = 1 ∧
  nextModuleRef σ = 1.
Proof. vm_compute. repeat split. Qed.

(** * The claims *)

(** C1.  Two [load] calls with the same [(moduleName, moduleFilename)], the
    second issued after the promise of the first has been fulfilled with a
    handle [h]: once the host fulfils the second call's resolution (with any
    module factory), the second promise is fulfilled with the same reference
    [h], the cache entry under [moduleFilename + "#" + moduleName].  Whatever
    else happens between the two calls does not matter as long as nothing
    is unloaded. *)
Theorem load_twice_same_handle (σ : State) (moduleName moduleFilename : string)
    (mf1 mf2 : NgModuleFactory) (evs : list Event) (h : loc) :
  let call1 := load moduleName moduleFilename LoaderReturnsPromise σ in
  let σ1 := host_fulfils (length (reactions σ)) mf1 call1.2 in
  promises σ1 !! call1.1 = Some (Fulfilled (VBundle h)) →
  forallb (λ ev, negb (is_unload ev)) evs = true →
  let σ2 := run evs σ1 in
  let call2 := load moduleName moduleFilename LoaderReturnsPromise σ2 in
  let σ3 := host_fulfils (length (reactions σ2)) mf2 call2.2 in
  promises σ3 !! call2.1 = Some (Fulfilled (VBundle h)) ∧
  cache σ3 !! (moduleFilename +:+ "#" +:+ moduleName) = Some h.
Proof.
  intros call1 σ1 H1 Hevs σ2 call2 σ3.
  assert (Hc1 : cache σ1 !! (moduleFilename +:+ "#" +:+ moduleName) = Some h).
  { pose proof (load_then_fulfil moduleName moduleFilename mf1 σ) as H.
    cbv zeta in H. fold call1 in H. fold σ1 in H.
    assert (E : call1.1 = length (promises σ))
      by (subst call1; rewrite load_returns_promise; reflexivity).
    rewrite E in H1.
    destruct (cache σ !! (moduleFilename +:+ "#" +:+ moduleName)) as [h0|] eqn:Hc.
    - destruct H as (Hp & Hcache & _). rewrite Hp in H1. injection H1 as ->.
      rewrite Hcache. exact Hc.
    - destruct (well_behaved mf1).
      + destruct H as (L & _ & Hp & Hcache & _). rewrite Hp in H1. injection H1 as <-.
        rewrite Hcache. apply lookup_insert_eq.
      + destruct H as (Hp & _). rewrite Hp in H1. discriminate. }
  assert (Hc2 : cache σ2 !! (moduleFilename +:+ "#" +:+ moduleName) = Some h)
    by (apply cache_run_keeps; assumption).
  pose proof (load_then_fulfil moduleName moduleFilename mf2 σ2) as H.
  cbv zeta in H. fold call2 in H. fold σ3 in H. rewrite Hc2 in H.
  destruct H as (Hp & Hcache & _).
  assert (E : call2.1 = length (promises σ2))
    by (subst call2; rewrite load_returns_promise; reflexivity).
  rewrite E, Hcache. split; [exact Hp | exact Hc2].
Qed.

Lemma load_twice_same_handle_witness :
  let σ0 := init 0 in
  let evs := [CallLoadJs "https://cdn/a.js";
              CallLoad "Other" "bundle/other.module" LoaderThrows] in
  let σ1 := run [CallLoad "Lazy" "bundle/lazy.module" LoaderReturnsPromise;
                 HostFulfils 0 LazyFactory] σ0 in
  let σ3 := run ([CallLoad "Lazy" "bundle/lazy.module" LoaderReturnsPromise;
                  HostFulfils 1 LazyFactory]) (run evs σ1) in
  promises σ1 !! 0 = Some (Fulfilled (VBundle 0)) ∧
  promises σ3 !! 4 = Some (Fulfilled (VBundle 0)).
Proof.
  split; [vm_compute; reflexivity|].
  apply (load_twice_same_handle (init 0) "Lazy" "bundle/lazy.module"
           LazyFactory LazyFactory
           [CallLoadJs "https://cdn/a.js";
            CallLoad "Other" "bundle/other.module" LoaderThrows] 0);
    vm_compute; reflexivity.
Defined.

(** C2, the asynchronous half, where the code departs from the claim: the
    host loader returns a promise and later rejects it.  The rejection goes
    to the promise [then] returned, which nobody holds; the promise of
    [load] is not resolved with undefined, it stays pending whatever
    happens next. *)
Theorem load_hangs_when_resolution_rejects (σ : State)
    (moduleName moduleFilename : string) (evs : list Event) :
  reachable σ →
  let call := load moduleName moduleFilename LoaderReturnsPromise σ in
  let σ' := host_rejects (length (reactions σ)) call.2 in
  promises (run evs σ') !! call.1 = Some Pending ∧
  promises σ' !! S call.1 = Some (Rejected HostError).
Proof.
  intros Hr call σ'.
  pose proof (reachable_wf σ Hr) as Hwf.
  assert (Hwf' : wf σ').
  { subst σ' call. rewrite load_call_step.
    change (host_rejects ?k ?s) with (step (HostRejects k) s).
    apply wf_step, wf_step, Hwf. }
  assert (E : σ' = settle (S (length (promises σ))) (Rejected HostError)
                     (mark_settled (length (reactions σ)) call.2)).
  { subst σ' call. rewrite load_returns_promise. unfold host_rejects. simpl.
    rewrite lookup_snoc. reflexivity. }
  assert (Ep : call.1 = length (promises σ))
    by (subst call; rewrite load_returns_promise; reflexivity).
  assert (Ec : promises call.2 = (promises σ ++ [Pending]) ++ [Pending] ∧
               scriptElements call.2 = scriptElements σ)
    by (subst call; rewrite load_returns_promise; split; reflexivity).
  destruct Ec as [Ec Ecs].
  destruct (settle_fields (S (length (promises σ))) (Rejected HostError)
              (mark_settled (length (reactions σ)) call.2))
    as (_ & _ & _ & _ & Gr & Gs & _ & _ & _ & _ & Gl).
  destruct (mark_settled_fields (length (reactions σ)) call.2) as (_ & _ & _ & _ & Fp & Fs & _).
  rewrite Ep. split.
  - rewrite unreferenced_run; [| exact Hwf' | |].
    + rewrite E, settle_lookup_ne by lia. rewrite Fp, Ec.
      rewrite lookup_app_l by (rewrite length_app; simpl; lia). apply lookup_snoc.
    + rewrite E, Gl, Fp, Ec. rewrite !length_app. simpl. lia.
    + apply (load_promise_orphaned σ σ' moduleName moduleFilename Hwf).
      * rewrite E. exact Gr.
      * rewrite E, Gs, Fs. exact Ecs.
  - rewrite E, settle_lookup_eq, Fp, Ec.
    replace (S (length (promises σ))) with (length (promises σ ++ [Pending]))
      by (rewrite length_app; simpl; lia).
    rewrite lookup_snoc. reflexivity.
Qed.

Lemma load_hangs_when_resolution_rejects_witness :
  let evs := [CallLoad "Lazy" "bundle/lazy.module" LoaderReturnsPromise;
              HostFulfils 1 LazyFactory; HostFulfils 0 LazyFactory] in
  let call := load "Lazy" "bundle/lazy.module" LoaderReturnsPromise (init 0) in
  let σ' := host_rejects 0 call.2 in
  call.1 = 0 ∧
  promises (run evs σ') !! 0 = Some Pending ∧
  promises (run evs σ') !! 1 = Some (Rejected HostError) ∧
  promises (run evs σ') !! 2 = Some (Fulfilled (VBundle 0)).
Proof.
  split; [reflexivity|]. split; [|split; vm_compute; reflexivity].
  pose proof (load_hangs_when_resolution_rejects (init 0) "Lazy" "bundle/lazy.module"
           [CallLoad "Lazy" "bundle/lazy.module" LoaderReturnsPromise;
            HostFulfils 1 LazyFactory; HostFulfils 0 LazyFactory]
           (reachable_init 0)) as H.
  vm_compute in H. vm_compute. exact (proj1 H).
Defined.

(** C3, what the code does where the claim expects the cached element back:
    [url] is cached, and [loadJs(url)] returns a new promise.  The [return]
    of the cached element is the executor's return value, which
    [new Promise] drops; [rs] is never called and no handler holds it, so
    the promise stays pending whatever happens next.  No script is added. *)
Theorem loadJs_cached_returns_promise_that_hangs (σ : State) (u : string)
    (script : ElementRef) (evs : list Event) :
  reachable σ →
  loadedLibraries σ !! u = Some script →
  let call := loadJs u σ in
  call.1 = length (promises σ) ∧
  call.2 = set_promises (λ ps, ps ++ [Pending]) σ ∧
  promises (run evs call.2) !! call.1 = Some Pending.
Proof.
  intros Hr Hu call.
  pose proof (reachable_wf σ Hr) as Hwf.
  assert (Hwf1 : wf call.2) by (apply (wf_step (CallLoadJs u)), Hwf).
  destruct (loadJs_cases u σ) as [[_ E]|[E _]].
  2:{ unfold js_get in E. rewrite Hu in E. discriminate. }
  subst call. rewrite E in *. simpl in *.
  split; [reflexivity|]. split; [reflexivity|].
  rewrite unreferenced_run; [apply lookup_snoc | exact Hwf1 | |].
  - simpl. rewrite length_app. simpl. lia.
  - destruct Hwf as (Hwr & Hws & _). split.
    + intros k r Hk _. destruct (Hwr k r Hk) as (A & B & _). lia.
    + intros e s He. destruct (Hws e s He) as [A _]. lia.
Qed.

Lemma loadJs_cached_returns_promise_that_hangs_witness :
  let σ := run [CallLoadJs "https://cdn/a.js"; ScriptLoads 0] (init 0) in
  (promises σ !! 0 = Some (Fulfilled (VScript 0)) ∧
   loadedLibraries σ !! "https://cdn/a.js" = Some 0) ∧
  (loadJs "https://cdn/a.js" σ).1 = 1 ∧
  body (loadJs "https://cdn/a.js" σ).2 = [0] ∧
  promises (run [ScriptLoads 0; CallLoadJs "https://cdn/a.js"]
                (loadJs "https://cdn/a.js" σ).2) !! 1 = Some Pending.
Proof.
  split; [split; vm_compute; reflexivity|].
  pose (σ := run [CallLoadJs "https://cdn/a.js"; ScriptLoads 0] (init 0)).
  destruct (loadJs_cached_returns_promise_that_hangs σ "https://cdn/a.js" 0
              [ScriptLoads 0; CallLoadJs "https://cdn/a.js"])
    as (E1 & E2 & E3).
  - apply reachable_run, reachable_init.
  - vm_compute. reflexivity.
  - fold σ. split; [exact E1|]. split; [rewrite E2; vm_compute; reflexivity|].
    rewrite E1 in E3. exact E3.
Defined.

(** C4.  [unload(h)] for a handle whose key [h.url] is still in the cache,
    the host's [destroy] returning: the name gets the suffix "-unloaded",
    [unloaded] becomes true, [destroy] is called on [h.moduleRef], [factory]
    becomes undefined, and the cache entry under [h.url] is removed.  In the
    scenario, the handle loaded with module name "Lazy" is named "Lazy"
    before and "Lazy-unloaded" after, with [unloaded] true. *)
Theorem unload_cached_handle :
  (∀ (σ : State) (h : loc) (b : ModuleBundle),
     heap σ !! h = Some b →
     is_Some (cache σ !! url b) →
     let call := unload h false σ in
     let σ' := call.2 in
     promises σ' !! call.1 = Some (Fulfilled VUndefined) ∧
     (∃ b', heap σ' !! h = Some b' ∧
            name b' = name b +:+ "-unloaded" ∧
            unloaded b' = Some true ∧
            factory b' = None ∧
            url b' = url b ∧ moduleRef b' = moduleRef b) ∧
     hostLog σ' = hostLog σ ++ [ModuleRefDestroy (moduleRef b)] ∧
     cache σ' = delete (url b) (cache σ) ∧
     cache σ' !! url b = None)
  ∧ (∀ (i : Injector) (mf : NgModuleFactory),
       well_behaved mf = true →
       let σ := run [CallLoad "Lazy" "bundle/lazy.module" LoaderReturnsPromise;
                     HostFulfils 0 mf] (init i) in
       let σ' := (unload 0 false σ).2 in
       promises σ !! 0 = Some (Fulfilled (VBundle 0)) ∧
       name <$> heap σ !! 0 = Some "Lazy" ∧
       name <$> heap σ' !! 0 = Some "Lazy-unloaded" ∧
       (heap σ' !! 0 ≫= unloaded) = Some true).
Proof.
  assert (General : ∀ (σ : State) (h : loc) (b : ModuleBundle),
     heap σ !! h = Some b →
     is_Some (cache σ !! url b) →
     let call := unload h false σ in
     let σ' := call.2 in
     promises σ' !! call.1 = Some (Fulfilled VUndefined) ∧
     (∃ b', heap σ' !! h = Some b' ∧
            name b' = name b +:+ "-unloaded" ∧
            unloaded b' = Some true ∧
            factory b' = None ∧
            url b' = url b ∧ moduleRef b' = moduleRef b) ∧
     hostLog σ' = hostLog σ ++ [ModuleRefDestroy (moduleRef b)] ∧
     cache σ' = delete (url b) (cache σ) ∧
     cache σ' !! url b = None).
  { intros σ h b Hb [c Hc] call σ'. subst σ' call.
    assert (Ht : truthy (js_get (cache σ) (url b)) = true)
      by (unfold js_get; rewrite Hc; reflexivity).
    destruct (unload_cases h false σ)
      as [[Hn _]|[(b0 & Hb0 & Hf & _)|[(b0 & _ & _ & Hd & _)|(b0 & Hb0 & _ & _ & ->)]]].
    - rewrite Hn in Hb. discriminate.
    - rewrite Hb in Hb0. injection Hb0 as <-. rewrite Hf in Ht. discriminate.
    - discriminate.
    - rewrite Hb in Hb0. injection Hb0 as <-. simpl.
      split; [apply lookup_snoc|].
      split; [|split; [reflexivity|split; [reflexivity|apply lookup_delete_eq]]].
      exists (stripped b). split; [|repeat split].
      apply list_lookup_insert_eq. eapply lookup_lt_Some; eauto. }
  split; [exact General|].
  intros i mf Hmf σ σ'.
  pose proof (load_then_fulfil "Lazy" "bundle/lazy.module" mf (init i)) as H.
  cbv zeta in H. simpl cache in H. rewrite lookup_empty, Hmf in H.
  destruct H as (L & HL & Hp & Hc & Hh).
  change (host_fulfils _ mf _) with σ in Hp, Hc, Hh. simpl in Hp, Hc, Hh.
  assert (Hb : heap σ !! 0 = Some (new_bundle "Lazy" "bundle/lazy.module#Lazy" mf L 0))
    by (rewrite Hh; reflexivity).
  destruct (General σ 0 _ Hb) as (_ & (b' & Hb' & Hname & Hun & _) & _).
  { simpl. rewrite Hc. rewrite lookup_insert_eq. eauto. }
  fold σ' in Hb'. rewrite Hb, Hb'. simpl. rewrite Hname, Hun. repeat split. exact Hp.
Qed.

Lemma unload_cached_handle_witness :
  let σ := run [CallLoad "Lazy" "bundle/lazy.module" LoaderReturnsPromise;
                HostFulfils 0 LazyFactory] (init 0) in
  let σ' := (unload 0 false σ).2 in
  (name <$> heap σ !! 0 = Some "Lazy" ∧ is_Some (cache σ !! "bundle/lazy.module#Lazy")) ∧
  (name <$> heap σ' !! 0 = Some "Lazy-unloaded" ∧
   cache σ' !! "bundle/lazy.module#Lazy" = None ∧
   hostLog σ' = hostLog σ ++ [ModuleRefDestroy 0]).
Proof.
  split.
  - split; [vm_compute; reflexivity | vm_compute; eauto].
  - destruct unload_cached_handle as [General Scenario].
    split.
    + apply (Scenario 0 LazyFactory). vm_compute. reflexivity.
    + pose (σ := run [CallLoad "Lazy" "bundle/lazy.module" LoaderReturnsPromise;
                      HostFulfils 0 LazyFactory] (init 0)).
      assert (Hb : heap σ !! 0
                   = Some (new_bundle "Lazy" "bundle/lazy.module#Lazy" LazyFactory
                             [("LazyComponent", 7)] 0))
        by (vm_compute; reflexivity).
      destruct (General σ 0 _ Hb) as (_ & _ & Hlog & _ & Hcache).
      * vm_compute. eauto.
      * split; [exact Hcache | exact Hlog].
Defined.

(** C5.  [create(componentName)] on a handle made by [load], for a name the
    module's [creatableComponents] does not have: the call throws a
    TypeError, from reading [.factory] of undefined or, for a name inherited
    from Object.prototype such as "constructor", from calling [.create] on
    the undefined factory of a built-in.  Nothing catches it and the state
    is untouched.  With a container the same holds for every name that is
    not inherited.  Left out: a module that declares a component under the
    own key "__proto__", asked for "type" or "factory". *)
Theorem create_undeclared_component_throws (σ : State) (h : loc) (b : ModuleBundle)
    (L : list (string * ComponentType)) (componentName : string) :
  reachable σ →
  heap σ !! h = Some b →
  creatableComponents (moduleType b) = Some L →
  property L componentName = None →
  reaches_host_object L componentName = false →
  create h componentName None σ = (Throw TypeError, σ) ∧
  (inherited componentName = false →
   ∀ container, create h componentName (Some container) σ = (Throw TypeError, σ)).
Proof.
  intros Hr Hb HL Hn Hh.
  pose proof (reachable_bundle_compFactory σ h b L Hr Hb HL) as Hc.
  pose proof (compFactory_of_undeclared L (moduleRef b) componentName Hn Hh) as Hf.
  split; [|intros Hi container];
    unfold create; erewrite bind_Normal by (apply deref_at, Hb); rewrite Hc, Hf.
  - destruct (inherited componentName); reflexivity.
  - rewrite Hi. reflexivity.
Qed.

Lemma create_undeclared_component_throws_witness :
  let σ := run [CallLoad "Lazy" "bundle/lazy.module" LoaderReturnsPromise;
                HostFulfils 0 LazyFactory] (init 0) in
  (property [("LazyComponent", 7)] "constructor" = None ∧
   property [("LazyComponent", 7)] "Nope" = None) ∧
  create 0 "constructor" None σ = (Throw TypeError, σ) ∧
  create 0 "Nope" None σ = (Throw TypeError, σ) ∧
  create 0 "Nope" (Some 5) σ = (Throw TypeError, σ).
Proof.
  split; [split; reflexivity|].
  pose (σ := run [CallLoad "Lazy" "bundle/lazy.module" LoaderReturnsPromise;
                  HostFulfils 0 LazyFactory] (init 0)).
  pose (b := new_bundle "Lazy" "bundle/lazy.module#Lazy" LazyFactory
                        [("LazyComponent", 7)] 0).
  assert (Hr : reachable σ) by apply reachable_run, reachable_init.
  assert (Hb : heap σ !! 0 = Some b) by (vm_compute; reflexivity).
  split; [|split].
  - apply (create_undeclared_component_throws σ 0 b [("LazyComponent", 7)] "constructor");
      try assumption; reflexivity.
  - apply (create_undeclared_component_throws σ 0 b [("LazyComponent", 7)] "Nope");
      try assumption; reflexivity.
  - apply (create_undeclared_component_throws σ 0 b [("LazyComponent", 7)] "Nope");
      try assumption; reflexivity.
Defined.

(** C6.  [create] for a name the module's [creatableComponents] has, on a
    handle made by [load]: with a container, the container is asked to
    create the component from the factory resolved for that name's type
    against the handle's own module instance; without one, that factory's
    [create] is called with the loader's injector, and no container is
    involved. *)
Theorem create_declared_component (σ : State) (h : loc) (b : ModuleBundle)
    (L : list (string * ComponentType)) (componentName : string) (t : ComponentType) :
  reachable σ →
  heap σ !! h = Some b →
  creatableComponents (moduleType b) = Some L →
  property L componentName = Some t →
  let bound := mkComponentFactory t (moduleRef b) in
  (∀ container,
     create h componentName (Some container) σ
     = (Normal (Asked (ViewContainerCreateComponent container (Some bound))),
        set_hostLog (λ l, l ++ [ViewContainerCreateComponent container (Some bound)]) σ))
  ∧ create h componentName None σ
    = (Normal (Asked (ComponentFactoryCreate bound (inj σ))),
       set_hostLog (λ l, l ++ [ComponentFactoryCreate bound (inj σ)]) σ).
Proof.
  intros Hr Hb HL Ht bound.
  pose proof (reachable_bundle_compFactory σ h b L Hr Hb HL) as Hc.
  pose proof (compFactory_of_declared L (moduleRef b) componentName t Ht) as Hf.
  split; [intros container|];
    unfold create; erewrite bind_Normal by (apply deref_at, Hb); rewrite Hc, Hf;
    reflexivity.
Qed.

Lemma create_declared_component_witness :
  let σ := run [CallLoad "Lazy" "bundle/lazy.module" LoaderReturnsPromise;
                HostFulfils 0 LazyFactory] (init 3) in
  property [("LazyComponent", 7)] "LazyComponent" = Some 7 ∧
  (create 0 "LazyComponent" (Some 5) σ).1
  = Normal (Asked (ViewContainerCreateComponent 5 (Some (mkComponentFactory 7 0)))) ∧
  (create 0 "LazyComponent" None σ).1
  = Normal (Asked (ComponentFactoryCreate (mkComponentFactory 7 0) 3)).
Proof.
  split; [reflexivity|].
  pose (σ := run [CallLoad "Lazy" "bundle/lazy.module" LoaderReturnsPromise;
                  HostFulfils 0 LazyFactory] (init 3)).
  pose (b := new_bundle "Lazy" "bundle/lazy.module#Lazy" LazyFactory
                        [("LazyComponent", 7)] 0).
  assert (Hr : reachable σ) by apply reachable_run, reachable_init.
  assert (Hb : heap σ !! 0 = Some b) by (vm_compute; reflexivity).
  destruct (create_declared_component σ 0 b [("LazyComponent", 7)] "LazyComponent" 7
              Hr Hb eq_refl eq_refl) as [Hwith Hwithout].
  split.
  - fold σ. rewrite (Hwith 5). reflexivity.
  - fold σ. rewrite Hwithout. reflexivity.
Defined.

(** C7 as stated fails: two [loadJs] calls for "https://cdn/a.js" in the
    same tick append two script elements, not one, and the two promises are
    fulfilled with different elements. *)
Lemma loadJs_twice_same_tick_two_scripts :
  let u := "https://cdn/a.js" in
  let σ := run [CallLoadJs u; CallLoadJs u] (init 0) in
  let σ' := run [ScriptLoads 0; ScriptLoads 1] σ in
  length (scripts_with_src u σ) ≠ 1 ∧
  scripts_with_src u σ = [0; 1] ∧
  promises σ' !! 0 = Some (Fulfilled (VScript 0)) ∧
  promises σ' !! 1 = Some (Fulfilled (VScript 1)).
Proof. vm_compute. repeat split. discriminate. Qed.

(** C7 as the code has it.  [url] has no truthy entry in
    [loadedLibraries]; two [loadJs(url)] calls before any load event: each
    call creates and appends its own script element with [src] equal to
    [url], so the body gains two; the two calls return different promises,
    and each promise is fulfilled with its own call's element when that
    element's load event fires.  The cache then holds the element whose
    event fired. *)
Theorem loadJs_twice_appends_two_scripts (σ : State) (u : string) :
  js_get (loadedLibraries σ) u = Undefined →
  let call1 := loadJs u σ in
  let call2 := loadJs u call1.2 in
  let e1 := length (scriptElements σ) in
  let e2 := S e1 in
  body call2.2 = body σ ++ [e1; e2] ∧
  scriptElements call2.2 !! e1
    = Some (mkScriptElement "text/javascript" u u call1.1) ∧
  scriptElements call2.2 !! e2
    = Some (mkScriptElement "text/javascript" u u call2.1) ∧
  call1.1 ≠ call2.1 ∧
  promises call2.2 !! call1.1 = Some Pending ∧
  promises call2.2 !! call2.1 = Some Pending ∧
  promises (script_onload e1 call2.2).2 !! call1.1 = Some (Fulfilled (VScript e1)) ∧
  loadedLibraries (script_onload e1 call2.2).2 !! u = Some e1 ∧
  promises (script_onload e2 call2.2).2 !! call2.1 = Some (Fulfilled (VScript e2)) ∧
  loadedLibraries (script_onload e2 call2.2).2 !! u = Some e2.
Proof.
  intros Hu call1 call2 e1 e2.
  destruct (loadJs_cases u σ) as [[H _]|[_ E1]]; [contradiction|].
  assert (Hu1 : js_get (loadedLibraries call1.2) u = Undefined)
    by (subst call1; rewrite E1; exact Hu).
  destruct (loadJs_cases u call1.2) as [[H _]|[_ E2]]; [contradiction|].
  fold call1 in E1. fold call2 in E2. rewrite E2. rewrite E1. simpl.
  set (p1 := length (promises σ)).
  assert (Hp2 : length (promises σ ++ [Pending]) = S p1)
    by (rewrite length_app; simpl; lia).
  assert (He2 : length (scriptElements σ
                 ++ [mkScriptElement "text/javascript" u u p1]) = e2)
    by (rewrite length_app; simpl; subst e2 e1; lia).
  rewrite Hp2, He2.
  set (σ2 := mkState _ _ _ _ _ _ _ _ _ _ _).
  assert (Hs1 : scriptElements σ2 !! e1 = Some (mkScriptElement "text/javascript" u u p1)).
  { subst σ2. simpl. rewrite lookup_app_l by (rewrite length_app; simpl; subst e1; lia).
    apply lookup_snoc. }
  assert (Hs2 : scriptElements σ2 !! e2
                = Some (mkScriptElement "text/javascript" u u (S p1))).
  { subst σ2. simpl. rewrite <- He2. apply lookup_snoc. }
  assert (Hq1 : promises σ2 !! p1 = Some Pending).
  { subst σ2. simpl. rewrite lookup_app_l by (rewrite length_app; simpl; lia).
    apply lookup_snoc. }
  assert (Hq2 : promises σ2 !! S p1 = Some Pending).
  { subst σ2. simpl. rewrite <- Hp2. apply lookup_snoc. }
  split; [rewrite <- app_assoc; reflexivity|].
  split; [exact Hs1|]. split; [exact Hs2|]. split; [lia|].
  split; [exact Hq1|]. split; [exact Hq2|].
  destruct (script_onload_cases e1 σ2) as [[H _]|(s1 & Hs1' & ->)]; [congruence|].
  destruct (script_onload_cases e2 σ2) as [[H _]|(s2 & Hs2' & ->)]; [congruence|].
  rewrite Hs1 in Hs1'. injection Hs1' as <-. rewrite Hs2 in Hs2'. injection Hs2' as <-.
  cbn [snd onload_promise onload_url].
  rewrite !settle_lookup_eq.
  repeat match goal with |- context [loadedLibraries (settle ?q ?x ?st)] =>
    destruct (settle_fields q x st) as (_ & -> & _)
  end.
  unfold set_loadedLibraries. cbn [promises loadedLibraries].
  rewrite Hq1, Hq2, !lookup_insert_eq. repeat split.
Qed.

Lemma loadJs_twice_appends_two_scripts_witness :
  let u := "https://cdn/a.js" in
  js_get (loadedLibraries (init 0)) u = Undefined ∧
  body (loadJs u (loadJs u (init 0)).2).2 = [0; 1] ∧
  (loadJs u (init 0)).1 ≠ (loadJs u (loadJs u (init 0)).2).1.
Proof.
  split; [reflexivity|].
  destruct (loadJs_twice_appends_two_scripts (init 0) "https://cdn/a.js" eq_refl)
    as (Hbody & _ & _ & Hne & _).
  split; [exact Hbody | exact Hne].
Defined.

(** C8.  After [unload(h)] has completed, a further [load] with the pair
    [(moduleName, moduleFilename)] whose key is [h.url], resolved by the host
    with a module factory that instantiates, is fulfilled with a handle that
    did not exist before, hence is not [h], and that handle is the new cache
    entry: [unload] had removed the old one. *)
Theorem load_after_unload_gives_new_handle (σ : State) (h : loc) (b : ModuleBundle)
    (moduleName moduleFilename : string) (d : bool) (mf : NgModuleFactory) :
  heap σ !! h = Some b →
  url b = moduleFilename +:+ "#" +:+ moduleName →
  let call_u := unload h d σ in
  promises call_u.2 !! call_u.1 = Some (Fulfilled VUndefined) →
  well_behaved mf = true →
  let call := load moduleName moduleFilename LoaderReturnsPromise call_u.2 in
  let σ' := host_fulfils (length (reactions call_u.2)) mf call.2 in
  cache call_u.2 !! url b = None ∧
  ∃ h', promises σ' !! call.1 = Some (Fulfilled (VBundle h')) ∧
        h' ≠ h ∧
        heap σ !! h' = None ∧
        cache σ' !! url b = Some h' ∧
        (name <$> heap σ' !! h') = Some moduleName.
Proof.
  intros Hb Hurl call_u Hdone Hmf call σ'.
  assert (Hi : inherited (url b) = false) by (rewrite Hurl; apply inherited_moduleURL).
  destruct (unload_completed_key_absent σ h b d Hb Hi Hdone)
    as (Habsent & _ & Hlen & _).
  fold call_u in Habsent, Hlen.
  pose proof (load_then_fulfil moduleName moduleFilename mf call_u.2) as H.
  cbv zeta in H. fold call in H. fold σ' in H.
  rewrite <- Hurl, Habsent, Hmf in H. destruct H as (L & _ & Hp & Hc & Hh).
  assert (E : call.1 = length (promises call_u.2))
    by (subst call; rewrite load_returns_promise; reflexivity).
  split; [exact Habsent|].
  exists (length (heap call_u.2)). rewrite E, Hlen in *.
  assert (Hlt : h < length (heap σ)) by (eapply lookup_lt_Some; eauto).
  split; [exact Hp|]. split; [lia|]. split; [apply lookup_ge_None; lia|].
  split.
  - rewrite Hc. apply lookup_insert_eq.
  - rewrite Hh, <- Hlen, lookup_snoc. reflexivity.
Qed.

Lemma load_after_unload_gives_new_handle_witness :
  let σ := run [CallLoad "Lazy" "bundle/lazy.module" LoaderReturnsPromise;
                HostFulfils 0 LazyFactory] (init 0) in
  let σ' := run [CallUnload 0 false;
                 CallLoad "Lazy" "bundle/lazy.module" LoaderReturnsPromise;
                 HostFulfils 1 LazyFactory] σ in
  promises σ !! 0 = Some (Fulfilled (VBundle 0)) ∧
  ∃ h', promises σ' !! 3 = Some (Fulfilled (VBundle h')) ∧ h' ≠ 0.
Proof.
  split; [vm_compute; reflexivity|].
  pose (σ := run [CallLoad "Lazy" "bundle/lazy.module" LoaderReturnsPromise;
                  HostFulfils 0 LazyFactory] (init 0)).
  destruct (load_after_unload_gives_new_handle σ 0
              (new_bundle "Lazy" "bundle/lazy.module#Lazy" LazyFactory
                          [("LazyComponent", 7)] 0)
              "Lazy" "bundle/lazy.module" false LazyFactory)
    as (_ & h' & Hp & Hne & _); try (vm_compute; reflexivity).
  exists h'. split; [exact Hp | exact Hne].
Defined.

(** C9.  A second [unload(h)] after a first one has completed, with no
    [load] in between: no exception (the promise is fulfilled with
    undefined), the host's [destroy] is not called again, and the cache, the
    handle (its name in particular) and everything else stay as they were;
    the state only gains the promise the call returns. *)
Theorem unload_twice_is_noop (σ : State) (h : loc) (b : ModuleBundle) (d d' : bool) :
  reachable σ →
  heap σ !! h = Some b →
  let call1 := unload h d σ in
  promises call1.2 !! call1.1 = Some (Fulfilled VUndefined) →
  let call2 := unload h d' call1.2 in
  call2.2 = set_promises (λ ps, ps ++ [Fulfilled VUndefined]) call1.2 ∧
  promises call2.2 !! call2.1 = Some (Fulfilled VUndefined) ∧
  cache call2.2 = cache call1.2 ∧
  heap call2.2 = heap call1.2 ∧
  hostLog call2.2 = hostLog call1.2.
Proof.
  intros Hr Hb call1 Hdone call2.
  assert (Hi : inherited (url b) = false) by (eapply reachable_bundle_url; eauto).
  destruct (unload_completed_key_absent σ h b d Hb Hi Hdone)
    as (Habsent & (b' & Hb' & Hurl) & _).
  fold call1 in Habsent, Hb'.
  assert (E : call2 = (length (promises call1.2),
                       set_promises (λ ps, ps ++ [Fulfilled VUndefined]) call1.2)).
  { subst call2.
    destruct (unload_cases h d' call1.2)
      as [[Hn _]|[(b0 & _ & _ & ->)|[(b0 & Hb0 & Ht & _)|(b0 & Hb0 & Ht & _)]]].
    - rewrite Hn in Hb'. discriminate.
    - reflexivity.
    - rewrite Hb' in Hb0. injection Hb0 as <-. unfold js_get in Ht.
      rewrite Hurl, Habsent, Hi in Ht. discriminate.
    - rewrite Hb' in Hb0. injection Hb0 as <-. unfold js_get in Ht.
      rewrite Hurl, Habsent, Hi in Ht. discriminate. }
  rewrite E. simpl. split; [reflexivity|]. split; [apply lookup_snoc|].
  repeat split.
Qed.

Lemma unload_twice_is_noop_witness :
  let σ := run [CallLoad "Lazy" "bundle/lazy.module" LoaderReturnsPromise;
                HostFulfils 0 LazyFactory] (init 0) in
  let σ1 := (unload 0 false σ).2 in
  let σ2 := (unload 0 true σ1).2 in
  promises σ1 !! 2 = Some (Fulfilled VUndefined) ∧
  heap σ2 = heap σ1 ∧ cache σ2 = cache σ1 ∧ hostLog σ2 = hostLog σ1.
Proof.
  split; [vm_compute; reflexivity|].
  pose (σ := run [CallLoad "Lazy" "bundle/lazy.module" LoaderReturnsPromise;
                  HostFulfils 0 LazyFactory] (init 0)).
  destruct (unload_twice_is_noop σ 0
              (new_bundle "Lazy" "bundle/lazy.module#Lazy" LazyFactory
                          [("LazyComponent", 7)] 0) false true)
    as (_ & _ & Hc & Hh & Hl).
  - apply reachable_run, reachable_init.
  - vm_compute. reflexivity.
  - vm_compute. reflexivity.
  - split; [exact Hh | split; [exact Hc | exact Hl]].
Defined.

(** C10.  The promise [load] returns is never rejected, whatever the host
    does and whatever happens afterwards: at any later time it is pending
    or fulfilled.  [load] itself returns a promise in every case (its type),
    so awaiting it cannot throw.  When the host loader throws, it is
    fulfilled with undefined and stays so. *)
Theorem load_never_rejects (σ : State) (moduleName moduleFilename : string)
    (a : LoaderAnswer) (evs : list Event) :
  reachable σ →
  let call := load moduleName moduleFilename a σ in
  let later := promises (run evs call.2) !! call.1 in
  (later = Some Pending ∨ ∃ v, later = Some (Fulfilled v)) ∧
  (∀ e, later ≠ Some (Rejected e)) ∧
  (a = LoaderThrows → later = Some (Fulfilled VUndefined)).
Proof.
  intros Hr call later.
  pose proof (reachable_wf σ Hr) as Hwf.
  assert (Hwf1 : wf call.2) by (subst call; rewrite load_call_step; apply wf_step, Hwf).
  assert (Hold : ∀ k r, reactions σ !! k = Some r → r_derived r < length (promises σ))
    by (intros k r Hk; destruct Hwf as (H & _); destruct (H k r Hk); tauto).
  assert (Hnr : not_rejected later).
  { subst later. apply not_rejected_run; [exact Hwf1| | |]; subst call; destruct a;
      rewrite ?load_throws, ?load_returns_promise; simpl.
    - rewrite length_app. simpl. lia.
    - rewrite !length_app. simpl. lia.
    - intros k r Hk _. specialize (Hold k r Hk). lia.
    - intros k r Hk _. apply lookup_snoc_cases in Hk as [Hk|[_ ->]].
      + specialize (Hold k r Hk). lia.
      + simpl. lia.
    - right. exists VUndefined. apply lookup_snoc.
    - left. rewrite lookup_app_l by (rewrite length_app; simpl; lia). apply lookup_snoc. }
  split; [exact Hnr|]. split.
  - intros e He. destruct Hnr as [H|[v H]]; rewrite H in He; discriminate.
  - intros ->. subst later. apply settled_run; [exact Hwf1| |discriminate].
    subst call. rewrite load_throws. simpl. apply lookup_snoc.
Qed.

Lemma load_never_rejects_witness :
  let call := load "Lazy" "bundle/lazy.module" LoaderReturnsPromise (init 0) in
  let bad := mkNgModuleFactory LazyModule true [7] in
  promises (run [HostFulfils 0 bad; CallLoadJs "x"] call.2) !! call.1 = Some Pending ∧
  ∀ e, promises (run [HostFulfils 0 bad; CallLoadJs "x"] call.2) !! call.1
       ≠ Some (Rejected e).
Proof.
  split; [vm_compute; reflexivity|].
  apply (load_never_rejects (init 0) "Lazy" "bundle/lazy.module" LoaderReturnsPromise
           [HostFulfils 0 (mkNgModuleFactory LazyModule true [7]); CallLoadJs "x"]).
  apply reachable_init.
Defined.

(** * Further properties *)

(** ** The callback, in full *)

Lemma load_callback_miss_fails n u p mf (σ : State) :
  cache σ !! u = None → inherited u = false → well_behaved mf = false →
  ∃ e, load_callback n u p mf σ = (Throw e, after_failed_callback u mf σ).
Proof.
  intros Hc Hi Hw. unfold load_callback.
  erewrite bind_Normal by reflexivity.
  unfold js_get. rewrite Hc, Hi. unfold well_behaved in Hw.
  erewrite bind_Normal by reflexivity.
  unfold moduleFactory_create, after_failed_callback.
  destruct (mf_create_throws mf) eqn:Hthrows; simpl.
  { eexists. reflexivity. }
  simpl in Hw.
  destruct (creatableComponents (mf_moduleType mf)) as [L|] eqn:HL; simpl.
  2:{ eexists. reflexivity. }
  erewrite bind_Normal by reflexivity.
  erewrite bind_Normal by reflexivity.
  erewrite bind_Throw by (apply array_map_source_fails, Hw).
  eexists. reflexivity.
Qed.

Lemma load_callback_miss_ok n u p mf (σ : State) :
  cache σ !! u = None → inherited u = false → well_behaved mf = true →
  ∃ L, creatableComponents (mf_moduleType mf) = Some L ∧
       load_callback n u p mf σ
       = (Normal VUndefined,
          settle p (Fulfilled (VBundle (length (heap σ)))) (after_callback n u mf L σ)).
Proof.
  intros Hc Hi Hw.
  destruct (load_callback_cases n u p mf σ)
    as [(h & Hh & _)|[(_ & Hi' & _)|[(_ & _ & Hw' & _)|(_ & _ & _ & L & HL & E)]]];
    try congruence.
  exists L. split; [exact HL | exact E].
Qed.

Lemma load_callback_hit n u p mf (σ : State) h :
  cache σ !! u = Some h →
  load_callback n u p mf σ = (Normal VUndefined, settle p (Fulfilled (VBundle h)) σ).
Proof.
  intros Hc. unfold load_callback. erewrite bind_Normal by reflexivity.
  unfold js_get. rewrite Hc. reflexivity.
Qed.

(** The host fulfils a promise of its loader that it had not settled, for a
    module URL: the three ways the state can go. *)
Lemma host_fulfils_explicit k mf (σ : State) r :
  reactions σ !! k = Some r → r_settled r = false → inherited (r_moduleURL r) = false →
  let σ0 := mark_settled k σ in
  match cache σ !! r_moduleURL r with
  | Some h =>
    host_fulfils k mf σ
    = settle (r_derived r) (Fulfilled VUndefined)
        (settle (r_promise r) (Fulfilled (VBundle h)) σ0)
  | None =>
    if well_behaved mf then
      ∃ L, creatableComponents (mf_moduleType mf) = Some L ∧
           host_fulfils k mf σ
           = settle (r_derived r) (Fulfilled VUndefined)
               (settle (r_promise r) (Fulfilled (VBundle (length (heap σ))))
                  (after_callback (r_moduleName r) (r_moduleURL r) mf L σ0))
    else
      ∃ e, host_fulfils k mf σ
           = settle (r_derived r) (Rejected e)
               (after_failed_callback (r_moduleURL r) mf σ0)
  end.
Proof.
  intros Hr Hs Hi σ0. unfold host_fulfils. rewrite Hr, Hs. fold σ0.
  assert (Hc0 : cache σ0 = cache σ) by reflexivity.
  destruct (cache σ !! r_moduleURL r) as [h|] eqn:Hc.
  - rewrite (load_callback_hit _ _ _ _ σ0 h) by (rewrite Hc0; exact Hc). reflexivity.
  - destruct (well_behaved mf) eqn:Hw.
    + destruct (load_callback_miss_ok (r_moduleName r) (r_moduleURL r) (r_promise r) mf σ0)
        as (L & HL & E); [rewrite Hc0; exact Hc | exact Hi | exact Hw |].
      exists L. split; [exact HL|]. rewrite E. reflexivity.
    + destruct (load_callback_miss_fails (r_moduleName r) (r_moduleURL r) (r_promise r) mf σ0)
        as (e & E); [rewrite Hc0; exact Hc | exact Hi | exact Hw |].
      exists e. rewrite E. reflexivity.
Qed.

(** [settle] touches the promises only. *)
Lemma cache_settle p s (σ : State) : cache (settle p s σ) = cache σ.
Proof. apply settle_fields. Qed.
Lemma heap_settle p s (σ : State) : heap (settle p s σ) = heap σ.
Proof. apply settle_fields. Qed.
Lemma nextModuleRef_settle p s (σ : State) :
  nextModuleRef (settle p s σ) = nextModuleRef σ.
Proof. apply settle_fields. Qed.
Lemma loadedLibraries_settle p s (σ : State) :
  loadedLibraries (settle p s σ) = loadedLibraries σ.
Proof. apply settle_fields. Qed.
Lemma scriptElements_settle p s (σ : State) :
  scriptElements (settle p s σ) = scriptElements σ.
Proof. apply settle_fields. Qed.
Lemma body_settle p s (σ : State) : body (settle p s σ) = body σ.
Proof. apply settle_fields. Qed.
Lemma reactions_settle p s (σ : State) : reactions (settle p s σ) = reactions σ.
Proof. apply settle_fields. Qed.
Lemma hostLog_settle p s (σ : State) : hostLog (settle p s σ) = hostLog σ.
Proof. apply settle_fields. Qed.
Lemma console_settle p s (σ : State) : console (settle p s σ) = console σ.
Proof. apply settle_fields. Qed.
Lemma inj_settle p s (σ : State) : inj (settle p s σ) = inj σ.
Proof. apply settle_fields. Qed.

Create Rewrite HintDb fields.

#[local] Hint Rewrite cache_settle heap_settle nextModuleRef_settle loadedLibraries_settle
  scriptElements_settle body_settle reactions_settle hostLog_settle console_settle
  inj_settle : fields.

Ltac fields_cbn :=
  cbn [cache heap nextModuleRef loadedLibraries scriptElements body reactions hostLog
       console inj promises mark_settled set_reactions set_promises set_loadedLibraries
       after_callback after_failed_callback snd fst].

Ltac fields := fields_cbn; autorewrite with fields; fields_cbn.

Lemma reaction_url_not_inherited (σ : State) k r :
  wf σ → reactions σ !! k = Some r → inherited (r_moduleURL r) = false.
Proof.
  intros (Hwr & _) Hr. destruct (Hwr k r Hr) as (_ & _ & _ & f & ->).
  apply inherited_moduleURL.
Qed.

Lemma changes_host_fulfils k mf (σ : State) : wf σ → changes σ (host_fulfils k mf σ).
Proof.
  intros Hwf.
  destruct (reactions σ !! k) as [r|] eqn:Hr.
  2:{ unfold host_fulfils. rewrite Hr. apply ch_nothing; reflexivity. }
  destruct (r_settled r) eqn:Hs.
  { unfold host_fulfils. rewrite Hr, Hs. apply ch_nothing; reflexivity. }
  pose proof (reaction_url_not_inherited σ k r Hwf Hr) as Hi.
  pose proof (host_fulfils_explicit k mf σ r Hr Hs Hi) as H. cbv zeta in H.
  destruct (cache σ !! r_moduleURL r) as [h|] eqn:Hc.
  - rewrite H. apply ch_nothing; fields; reflexivity.
  - destruct (well_behaved mf).
    + destruct H as (L & HL & ->).
      apply (ch_loaded _ _ (r_moduleName r) (r_moduleURL r) mf L); fields;
        try reflexivity; assumption.
    + destruct H as (e & ->). destruct (mf_create_throws mf) eqn:Ht.
      * apply ch_nothing; fields; rewrite ?Ht; reflexivity.
      * apply ch_instance_lost; fields; rewrite ?Ht; reflexivity.
Qed.

Lemma changes_unload h d (σ : State) : changes σ (unload h d σ).2.
Proof.
  destruct (unload_cases h d σ)
    as [[_ ->]|[(b & _ & _ & ->)|[(b & Hb & _ & _ & ->)|(b & Hb & _ & _ & ->)]]].
  - apply ch_nothing; reflexivity.
  - apply ch_nothing; reflexivity.
  - apply (ch_marked _ _ h b); try reflexivity. exact Hb.
  - apply (ch_unloaded _ _ h b); try reflexivity. exact Hb.
Qed.

Lemma create_nextModuleRef h t v (σ : State) :
  nextModuleRef (create h t v σ).2 = nextModuleRef σ.
Proof.
  unfold create. unfold bind at 1, deref at 1, bind at 1, gets at 1. simpl.
  destruct (heap σ !! h) as [b|]; simpl; [|reflexivity].
  destruct v; destruct (compFactory_factory _ _); reflexivity.
Qed.

(** Every event does one of the seven things. *)
Lemma changes_step ev (σ : State) : wf σ → changes σ (step ev σ).
Proof.
  intros Hwf. destruct ev as [n f a|k mf|k|h d|h d|h t v|u|e]; simpl.
  - destruct a; [rewrite load_throws | rewrite load_returns_promise];
      apply ch_nothing; reflexivity.
  - apply changes_host_fulfils, Hwf.
  - unfold host_rejects. destruct (reactions σ !! k) as [r|]; [|apply ch_nothing; reflexivity].
    destruct (r_settled r); apply ch_nothing; fields; reflexivity.
  - apply changes_unload.
  - unfold destroy, lift, bind, ret.
    pose proof (changes_unload h d σ) as H.
    destruct (unload h d σ) as [p σ']. exact H.
  - destruct (create_same_core h t v σ) as (Ec & El & _ & Eh & _ & _ & Es & Eb).
    apply ch_nothing; try assumption. apply create_nextModuleRef.
  - destruct (loadJs_cases u σ) as [[_ ->]|[Hu ->]].
    + apply ch_nothing; reflexivity.
    + apply (ch_script _ _ u (length (promises σ))); try reflexivity. exact Hu.
  - destruct (script_onload_cases e σ) as [[_ ->]|(s & Hs & ->)].
    + apply ch_nothing; reflexivity.
    + apply (ch_onload _ _ e s); fields; try reflexivity. exact Hs.
Qed.

(** ** Invariants of the data *)

Lemma cache_ok_changes (σ σ' : State) : cache_ok σ → changes σ σ' → cache_ok σ'.
Proof.
  intros Hok Hch u' h' Hc'.
  destruct Hch as [Ec Eh _ _ _ _|Ec Eh _ _ _ _|n u mf L Hn Hi HL Ec Eh _ _ _ _
                  |h b Hb Ec Eh _ _ _ _|h b Hb Ec Eh _ _ _ _
                  |u p _ Ec Eh _ _ _ _|e s _ Ec Eh _ _ _ _];
    rewrite Ec in Hc'; rewrite Eh; try (apply Hok; exact Hc').
  - destruct (decide (u = u')) as [->|Hne].
    + rewrite lookup_insert_eq in Hc'. injection Hc' as <-.
      exists (new_bundle n u' mf L (nextModuleRef σ)).
      split; [apply lookup_snoc|]. split; [reflexivity | eauto].
    + rewrite lookup_insert_ne in Hc' by exact Hne.
      destruct (Hok u' h' Hc') as (b & Hb & Hu & Hf). exists b.
      split; [|tauto]. rewrite lookup_app_l by (eapply lookup_lt_Some; eauto). exact Hb.
  - destruct (Hok u' h' Hc') as (b' & Hb' & Hu & Hf).
    destruct (decide (h = h')) as [<-|Hne].
    + rewrite Hb in Hb'. injection Hb' as <-. exists (marked b).
      split; [|split; assumption].
      apply list_lookup_insert_eq. eapply lookup_lt_Some; eauto.
    + exists b'. split; [|tauto]. rewrite list_lookup_insert_ne by exact Hne. exact Hb'.
  - destruct (decide (url b = u')) as [<-|Hne].
    { rewrite lookup_delete_eq in Hc'. discriminate. }
    rewrite lookup_delete_ne in Hc' by exact Hne.
    destruct (Hok u' h' Hc') as (b' & Hb' & Hu & Hf).
    exists b'. split; [|tauto]. rewrite list_lookup_insert_ne; [exact Hb'|].
    intros <-. rewrite Hb in Hb'. injection Hb' as <-. contradiction.
Qed.

Lemma instances_ok_changes (σ σ' : State) :
  instances_ok σ → changes σ σ' → instances_ok σ'.
Proof.
  intros [Hlt Hinj] Hch.
  assert (Hkeep : ∀ h b b0, heap σ !! h = Some b →
            (∀ j c, (<[h := b0]> (heap σ)) !! j = Some c →
               ∃ c0, heap σ !! j = Some c0 ∧
                     (moduleRef b0 = moduleRef b → moduleRef c = moduleRef c0))).
  { intros h b b0 Hb j c Hj. apply lookup_insert_cases in Hj as [Hj|[-> ->]].
    - exists c. tauto.
    - exists b. tauto. }
  destruct Hch as [_ Eh En _ _ _|_ Eh En _ _ _|n u mf L _ _ _ _ Eh En _ _ _
                  |h b Hb _ Eh En _ _ _|h b Hb _ Eh En _ _ _
                  |u p _ _ Eh En _ _ _|e s _ _ Eh En _ _ _];
    unfold instances_ok; rewrite Eh, En; try exact (conj Hlt Hinj).
  - split; [intros h b Hb; specialize (Hlt h b Hb); lia | exact Hinj].
  - split.
    + intros h b Hb. apply lookup_snoc_cases in Hb as [Hb|[_ ->]].
      * specialize (Hlt h b Hb). lia.
      * simpl. lia.
    + intros h1 h2 b1 b2 H1 H2 E.
      apply lookup_snoc_cases in H1 as [H1|[-> ->]];
        apply lookup_snoc_cases in H2 as [H2|[-> ->]].
      * eapply Hinj; eauto.
      * specialize (Hlt h1 b1 H1). simpl in E. lia.
      * specialize (Hlt h2 b2 H2). simpl in E. lia.
      * reflexivity.
  - split.
    + intros j c Hj. destruct (Hkeep h b (marked b) Hb j c Hj) as (c0 & Hc0 & E).
      rewrite E by reflexivity. eapply Hlt; eauto.
    + intros h1 h2 b1 b2 H1 H2 E.
      destruct (Hkeep h b (marked b) Hb h1 b1 H1) as (c1 & Hc1 & E1).
      destruct (Hkeep h b (marked b) Hb h2 b2 H2) as (c2 & Hc2 & E2).
      apply (Hinj h1 h2 c1 c2 Hc1 Hc2).
      rewrite <- E1, <- E2 by reflexivity. exact E.
  - split.
    + intros j c Hj. destruct (Hkeep h b (stripped b) Hb j c Hj) as (c0 & Hc0 & E).
      rewrite E by reflexivity. eapply Hlt; eauto.
    + intros h1 h2 b1 b2 H1 H2 E.
      destruct (Hkeep h b (stripped b) Hb h1 b1 H1) as (c1 & Hc1 & E1).
      destruct (Hkeep h b (stripped b) Hb h2 b2 H2) as (c2 & Hc2 & E2).
      apply (Hinj h1 h2 c1 c2 Hc1 Hc2).
      rewrite <- E1, <- E2 by reflexivity. exact E.
Qed.

Lemma scripts_ok_changes (σ σ' : State) : scripts_ok σ → changes σ σ' → scripts_ok σ'.
Proof.
  intros (Hbody & Hel & Hlib) Hch.
  destruct Hch as [_ _ _ El Es Eb|_ _ _ El Es Eb|n u mf L _ _ _ _ _ _ El Es Eb
                  |h b _ _ _ _ El Es Eb|h b _ _ _ _ El Es Eb
                  |u p _ _ _ _ El Es Eb|e s Hs _ _ _ El Es Eb];
    unfold scripts_ok; rewrite El, Es, Eb; try exact (conj Hbody (conj Hel Hlib)).
  - split; [|split].
    + rewrite Hbody, length_app. simpl. rewrite Nat.add_1_r, seq_S. reflexivity.
    + intros e s He. apply lookup_snoc_cases in He as [He|[_ ->]].
      * apply (Hel e s He).
      * split; reflexivity.
    + intros u' e Hu'. destruct (Hlib u' e Hu') as (s & He & Hsrc).
      exists s. split; [|exact Hsrc].
      rewrite lookup_app_l by (eapply lookup_lt_Some; eauto). exact He.
  - split; [exact Hbody|]. split; [exact Hel|].
    intros u' e' Hu'. destruct (decide (onload_url s = u')) as [<-|Hne].
    + rewrite lookup_insert_eq in Hu'. injection Hu' as <-.
      exists s. split; [exact Hs|]. apply (Hel e s Hs).
    + rewrite lookup_insert_ne in Hu' by exact Hne. apply (Hlib u' e' Hu').
Qed.

Lemma reachable_step ev (σ : State) : reachable σ → reachable (step ev σ).
Proof. intros H. apply (reachable_run [ev] σ H). Qed.

(** What holds of a property that holds at construction and that every
    event keeps in well-formed states. *)
Lemma reachable_ind (P : State → Prop) :
  (∀ i, P (init i)) →
  (∀ ev σ, wf σ → P σ → P (step ev σ)) →
  ∀ σ, reachable σ → P σ.
Proof.
  intros Hinit Hstep σ (i & evs & ->).
  assert (H : wf (init i) ∧ P (init i)) by (split; [apply wf_init | apply Hinit]).
  revert H. generalize (init i). induction evs as [|ev evs IH]; intros σ [Hwf HP]; simpl.
  - exact HP.
  - apply IH. split; [apply wf_step, Hwf | apply Hstep; assumption].
Qed.

Lemma reachable_cache_ok (σ : State) : reachable σ → cache_ok σ.
Proof.
  apply reachable_ind.
  - intros i u h H. cbn [init cache] in H. rewrite lookup_empty in H. discriminate.
  - intros ev s Hwf H. eapply cache_ok_changes; [exact H | apply changes_step, Hwf].
Qed.

Lemma reachable_instances_ok (σ : State) : reachable σ → instances_ok σ.
Proof.
  apply reachable_ind.
  - intros i. split; [intros h b H | intros h1 h2 b1 b2 H]; discriminate.
  - intros ev s Hwf H. eapply instances_ok_changes; [exact H | apply changes_step, Hwf].
Qed.

Lemma reachable_scripts_ok (σ : State) : reachable σ → scripts_ok σ.
Proof.
  apply reachable_ind.
  - intros i. split; [reflexivity|]. split; [intros e s H | intros u e H];
      [discriminate | cbn [init loadedLibraries] in H; rewrite lookup_empty in H;
                      discriminate].
  - intros ev s Hwf H. eapply scripts_ok_changes; [exact H | apply changes_step, Hwf].
Qed.

(** ** Which event settles a promise, and with what *)

Lemma settle2_lookup (X : State) p0 v d sd p :
  let ps' := promises (settle d sd (settle p0 (Fulfilled v) X)) in
  ps' !! p = promises X !! p
  ∨ (promises X !! p = Some Pending ∧
     ((p = p0 ∧ ps' !! p = Some (Fulfilled v)) ∨ (p = d ∧ ps' !! p = Some sd))).
Proof.
  intros ps'. subst ps'. rewrite !promises_settle.
  destruct (settle_list_cases d sd (settle_list p0 (Fulfilled v) (promises X)) p)
    as [E2|(-> & E2 & E2')];
  destruct (settle_list_cases p0 (Fulfilled v) (promises X) p) as [E1|(-> & E1 & E1')].
  - left. congruence.
  - right. split; [exact E1|]. left. split; [reflexivity | congruence].
  - right. split; [congruence|]. right. split; [reflexivity | exact E2'].
  - congruence.
Qed.

Lemma settle1_lookup (X : State) d sd p :
  promises (settle d sd X) !! p = promises X !! p
  ∨ (promises X !! p = Some Pending ∧ p = d ∧ promises (settle d sd X) !! p = Some sd).
Proof.
  rewrite promises_settle.
  destruct (settle_list_cases d sd (promises X) p) as [E|(-> & E & E')]; auto.
Qed.

Lemma settles_host_fulfils k mf (σ : State) p :
  wf σ → cache_ok σ →
  promises (host_fulfils k mf σ) !! p = promises σ !! p
  ∨ (promises σ !! p = Some Pending ∧
     ∃ s, promises (host_fulfils k mf σ) !! p = Some s ∧
          settles_by (HostFulfils k mf) σ (host_fulfils k mf σ) p s).
Proof.
  intros Hwf Hok.
  destruct (reactions σ !! k) as [r|] eqn:Hr.
  2:{ unfold host_fulfils. rewrite Hr. left. reflexivity. }
  destruct (r_settled r) eqn:Hs.
  { unfold host_fulfils. rewrite Hr, Hs. left. reflexivity. }
  pose proof (reaction_url_not_inherited σ k r Hwf Hr) as Hi.
  pose proof (host_fulfils_explicit k mf σ r Hr Hs Hi) as H. cbv zeta in H.
  assert (Hderived : ∀ s, r_derived r = p → settles_by (HostFulfils k mf) σ
                                              (host_fulfils k mf σ) p s).
  { intros s Hd. right. left. exists k, r. split; [left; eauto | tauto]. }
  destruct (cache σ !! r_moduleURL r) as [h|] eqn:Hc.
  - rewrite H.
    destruct (settle2_lookup (mark_settled k σ) (r_promise r) (VBundle h) (r_derived r)
                (Fulfilled VUndefined) p) as [E|[Hp [[-> E]|[-> E]]]].
    + left. exact E.
    + right. split; [exact Hp|]. eexists. split; [exact E|].
      rewrite <- H. left. destruct (Hok _ _ Hc) as (b & Hb & Hu & _).
      exists k, mf, r, h, b. rewrite H. fields. tauto.
    + right. split; [exact Hp|]. eexists. split; [exact E|].
      rewrite <- H. apply Hderived. reflexivity.
  - destruct (well_behaved mf).
    + destruct H as (L & HL & H). rewrite H.
      match goal with |- context [settle _ _ (settle _ _ ?X)] =>
        destruct (settle2_lookup X (r_promise r) (VBundle (length (heap σ))) (r_derived r)
                    (Fulfilled VUndefined) p) as [E|[Hp [[-> E]|[-> E]]]]
      end.
      * left. exact E.
      * right. split; [exact Hp|]. eexists. split; [exact E|].
        rewrite <- H. left.
        exists k, mf, r, (length (heap σ)),
               (new_bundle (r_moduleName r) (r_moduleURL r) mf L (nextModuleRef σ)).
        rewrite H. fields. rewrite lookup_snoc, lookup_insert_eq. tauto.
      * right. split; [exact Hp|]. eexists. split; [exact E|].
        rewrite <- H. apply Hderived. reflexivity.
    + destruct H as (e & H). rewrite H.
      match goal with |- context [settle _ _ ?X] =>
        destruct (settle1_lookup X (r_derived r) (Rejected e) p) as [E|(Hp & -> & E)]
      end.
      * left. exact E.
      * right. split; [exact Hp|]. eexists. split; [exact E|].
        rewrite <- H. apply Hderived. reflexivity.
Qed.

Lemma step_settles ev (σ : State) p :
  wf σ → cache_ok σ → p < length (promises σ) →
  promises (step ev σ) !! p = promises σ !! p
  ∨ (promises σ !! p = Some Pending ∧
     ∃ s, promises (step ev σ) !! p = Some s ∧ settles_by ev σ (step ev σ) p s).
Proof.
  intros Hwf Hok Hp. destruct ev as [n f a|k mf|k|h d|h d|h t v|u|e]; simpl.
  - left. destruct a; [rewrite load_throws | rewrite load_returns_promise]; simpl;
      rewrite <- ?app_assoc; apply lookup_app_l, Hp.
  - apply settles_host_fulfils; assumption.
  - unfold host_rejects. destruct (reactions σ !! k) as [r|] eqn:Hr; [|left; reflexivity].
    destruct (r_settled r) eqn:Hs; [left; reflexivity|].
    destruct (settle1_lookup (mark_settled k σ) (r_derived r) (Rejected HostError) p)
      as [E|(Hpend & -> & E)].
    + left. exact E.
    + right. split; [exact Hpend|]. eexists. split; [exact E|].
      right. left. exists k, r. tauto.
  - left. destruct (unload_cases h d σ)
      as [[_ ->]|[(b & _ & _ & ->)|[(b & _ & _ & _ & ->)|(b & _ & _ & _ & ->)]]];
      simpl; apply lookup_app_l, Hp.
  - left. unfold destroy, lift, bind, ret.
    destruct (unload_cases h d σ)
      as [[_ ->]|[(b & _ & _ & ->)|[(b & _ & _ & _ & ->)|(b & _ & _ & _ & ->)]]];
      simpl; apply lookup_app_l, Hp.
  - left. destruct (create_same_core h t v σ) as (_ & _ & _ & _ & -> & _). reflexivity.
  - left. destruct (loadJs_cases u σ) as [[_ ->]|[_ ->]]; simpl; apply lookup_app_l, Hp.
  - destruct (script_onload_cases e σ) as [[_ ->]|(s & Hs & ->)]; [left; reflexivity|].
    cbn [snd].
    destruct (settle1_lookup (set_loadedLibraries (λ l, <[onload_url s := e]> l) σ)
                (onload_promise s) (Fulfilled (VScript e)) p) as [E|(Hpend & -> & E)].
    + left. exact E.
    + right. split; [exact Hpend|]. eexists. split; [exact E|].
      right. right. exists e, s. tauto.
Qed.

(** ** The host fulfils a promise of its loader, in any state *)

Lemma settle_keeps (X : State) q s p v :
  promises X !! p = Some (Fulfilled v) → promises (settle q s X) !! p = Some (Fulfilled v).
Proof.
  intros H. destruct (settle1_lookup X q s p) as [E|(Hp & _)]; [rewrite E; exact H|].
  rewrite H in Hp. discriminate.
Qed.

Lemma host_fulfils_result k mf (σ : State) r :
  reactions σ !! k = Some r → r_settled r = false →
  inherited (r_moduleURL r) = false →
  promises σ !! r_promise r = Some Pending → r_promise r ≠ r_derived r →
  let σ' := host_fulfils k mf σ in
  let u := r_moduleURL r in
  match cache σ !! u with
  | Some h =>
    promises σ' !! r_promise r = Some (Fulfilled (VBundle h)) ∧
    cache σ' = cache σ ∧ heap σ' = heap σ ∧ nextModuleRef σ' = nextModuleRef σ ∧
    hostLog σ' = hostLog σ ∧ console σ' = console σ
  | None =>
    hostLog σ' = hostLog σ ++ [ModuleFactoryCreate (mf_moduleType mf) (inj σ)] ∧
    console σ' = console σ ++ [["Loading Module "; u]] ∧
    if well_behaved mf then
      ∃ L, creatableComponents (mf_moduleType mf) = Some L ∧
           promises σ' !! r_promise r = Some (Fulfilled (VBundle (length (heap σ)))) ∧
           cache σ' = <[u := length (heap σ)]> (cache σ) ∧
           heap σ' = heap σ ++ [new_bundle (r_moduleName r) u mf L (nextModuleRef σ)] ∧
           nextModuleRef σ' = S (nextModuleRef σ)
    else
      promises σ' !! r_promise r = Some Pending ∧
      cache σ' = cache σ ∧ heap σ' = heap σ ∧
      nextModuleRef σ'
      = (if mf_create_throws mf then nextModuleRef σ else S (nextModuleRef σ))
  end.
Proof.
  intros Hr Hs Hi Hp Hne σ' u. subst σ' u.
  pose proof (host_fulfils_explicit k mf σ r Hr Hs Hi) as H. cbv zeta in H.
  assert (Hp0 : promises (mark_settled k σ) !! r_promise r = Some Pending) by exact Hp.
  destruct (cache σ !! r_moduleURL r) as [h|] eqn:Hc.
  - rewrite H. fields. rewrite settle_lookup_ne by congruence.
    rewrite settle_lookup_eq, Hp0. repeat split.
  - destruct (well_behaved mf).
    + destruct H as (L & HL & ->). fields. repeat split. exists L.
      rewrite settle_lookup_ne by congruence. rewrite settle_lookup_eq. fields.
      rewrite Hp. repeat split. exact HL.
    + destruct H as (e & ->). fields. repeat split.
      rewrite settle_lookup_ne by congruence. exact Hp.
Qed.

(** It leaves every other promise and every other reaction as they were. *)
Lemma host_fulfils_frame k mf (σ : State) r :
  wf σ → reactions σ !! k = Some r →
  (∀ q, q ≠ r_promise r → q ≠ r_derived r →
     promises (host_fulfils k mf σ) !! q = promises σ !! q) ∧
  (∀ j, j ≠ k → reactions (host_fulfils k mf σ) !! j = reactions σ !! j) ∧
  length (reactions (host_fulfils k mf σ)) = length (reactions σ).
Proof.
  intros Hwf Hr.
  destruct (r_settled r) eqn:Hs.
  { unfold host_fulfils. rewrite Hr, Hs. repeat split. }
  pose proof (reaction_url_not_inherited σ k r Hwf Hr) as Hi.
  pose proof (host_fulfils_explicit k mf σ r Hr Hs Hi) as H. cbv zeta in H.
  assert (Hmark : (∀ j, j ≠ k → reactions (mark_settled k σ) !! j = reactions σ !! j) ∧
                  length (reactions (mark_settled k σ)) = length (reactions σ)).
  { unfold mark_settled. cbn [reactions set_reactions]. rewrite Hr. split.
    - intros j Hj. apply list_lookup_insert_ne. congruence.
    - apply length_insert. }
  destruct Hmark as [Hmark Hlen].
  destruct (cache σ !! r_moduleURL r) as [h|].
  - rewrite H. fields. split; [|split; assumption].
    intros q H1 H2. rewrite !settle_lookup_ne by congruence. reflexivity.
  - destruct (well_behaved mf).
    + destruct H as (L & _ & ->). fields. split; [|split; assumption].
      intros q H1 H2. rewrite !settle_lookup_ne by congruence. reflexivity.
    + destruct H as (e & ->). fields. split; [|split; assumption].
      intros q H1 H2. rewrite !settle_lookup_ne by congruence. reflexivity.
Qed.

(** ** [load], call by call *)

Lemma wf_host_fulfils k mf (σ : State) : wf σ → wf (host_fulfils k mf σ).
Proof. exact (wf_step (HostFulfils k mf) σ). Qed.

Lemma load_call_facts n f (σ : State) :
  let call := load n f LoaderReturnsPromise σ in
  let p := length (promises σ) in
  call.1 = p ∧
  reactions call.2 !! length (reactions σ)
    = Some (mkReaction n (f +:+ "#" +:+ n) p (S p) false) ∧
  length (reactions call.2) = S (length (reactions σ)) ∧
  (∀ j, j < length (reactions σ) → reactions call.2 !! j = reactions σ !! j) ∧
  promises call.2 = (promises σ ++ [Pending]) ++ [Pending] ∧
  cache call.2 = cache σ ∧ heap call.2 = heap σ ∧
  nextModuleRef call.2 = nextModuleRef σ ∧ console call.2 = console σ ∧
  inj call.2 = inj σ ∧
  hostLog call.2 = hostLog σ ++ [LoaderLoad (f +:+ "#" +:+ n)].
Proof.
  intros call p. subst call. rewrite load_returns_promise. simpl.
  repeat split.
  - apply lookup_snoc.
  - rewrite length_app. simpl. lia.
  - intros j Hj. apply lookup_app_l, Hj.
Qed.

Lemma load_then_fulfil_full n f mf (σ : State) :
  let u := f +:+ "#" +:+ n in
  let call := load n f LoaderReturnsPromise σ in
  let σ' := host_fulfils (length (reactions σ)) mf call.2 in
  match cache σ !! u with
  | Some h =>
    promises σ' !! call.1 = Some (Fulfilled (VBundle h)) ∧
    cache σ' = cache σ ∧ heap σ' = heap σ ∧ nextModuleRef σ' = nextModuleRef σ ∧
    hostLog σ' = hostLog σ ++ [LoaderLoad u] ∧ console σ' = console σ
  | None =>
    hostLog σ' = hostLog σ ++ [LoaderLoad u; ModuleFactoryCreate (mf_moduleType mf) (inj σ)] ∧
    console σ' = console σ ++ [["Loading Module "; u]] ∧
    if well_behaved mf then
      ∃ L, creatableComponents (mf_moduleType mf) = Some L ∧
           promises σ' !! call.1 = Some (Fulfilled (VBundle (length (heap σ)))) ∧
           cache σ' = <[u := length (heap σ)]> (cache σ) ∧
           heap σ' = heap σ ++ [new_bundle n u mf L (nextModuleRef σ)] ∧
           nextModuleRef σ' = S (nextModuleRef σ)
    else
      promises σ' !! call.1 = Some Pending ∧
      cache σ' = cache σ ∧ heap σ' = heap σ ∧
      nextModuleRef σ'
      = (if mf_create_throws mf then nextModuleRef σ else S (nextModuleRef σ))
  end.
Proof.
  intros u call σ'.
  destruct (load_call_facts n f σ)
    as (Ep & Hr & _ & _ & Eps & Ec & Eh & En & Eco & Ei & El).
  fold call in Ep, Hr, Eps, Ec, Eh, En, Eco, Ei, El.
  assert (Hp : promises call.2 !! length (promises σ) = Some Pending).
  { rewrite Eps, lookup_app_l by (rewrite length_app; simpl; lia). apply lookup_snoc. }
  pose proof (host_fulfils_result (length (reactions σ)) mf call.2 _ Hr eq_refl
                (inherited_moduleURL n f) Hp (Nat.neq_succ_diag_r _)) as H.
  cbv zeta in H. cbn [r_moduleURL r_promise r_moduleName] in H.
  fold σ' in H. fold u in H. rewrite Ec, Eh, En, Eco, Ei, El in H. rewrite Ep.
  destruct (cache σ !! u) as [h|]; [exact H|].
  rewrite <- app_assoc in H. exact H.
Qed.

(** X1.  Two [load] calls for one key, both issued before the host answers
    either, on a key that is not cached: whichever of the two host promises
    is fulfilled first (with a module factory that instantiates), its
    callback builds the handle and caches it, and the other callback finds
    it there.  Both promises are fulfilled with the same new handle, and the
    module is instantiated once. *)
Theorem concurrent_loads_share_one_handle (σ : State) (moduleName moduleFilename : string)
    (mfa mfb : NgModuleFactory) (second_first : bool) :
  reachable σ →
  cache σ !! (moduleFilename +:+ "#" +:+ moduleName) = None →
  well_behaved mfa = true →
  let call1 := load moduleName moduleFilename LoaderReturnsPromise σ in
  let call2 := load moduleName moduleFilename LoaderReturnsPromise call1.2 in
  let k1 := length (reactions σ) in
  let k2 := S k1 in
  let ka := if second_first then k2 else k1 in
  let kb := if second_first then k1 else k2 in
  let σ' := host_fulfils kb mfb (host_fulfils ka mfa call2.2) in
  promises σ' !! call1.1 = Some (Fulfilled (VBundle (length (heap σ)))) ∧
  promises σ' !! call2.1 = Some (Fulfilled (VBundle (length (heap σ)))) ∧
  length (heap σ') = S (length (heap σ)) ∧
  nextModuleRef σ' = S (nextModuleRef σ) ∧
  cache σ' !! (moduleFilename +:+ "#" +:+ moduleName) = Some (length (heap σ)).
Proof.
  intros Hreach Hc Hmf call1 call2 k1 k2 ka kb σ'.
  set (u := moduleFilename +:+ "#" +:+ moduleName) in *.
  set (p := length (promises σ)).
  destruct (load_call_facts moduleName moduleFilename σ)
    as (Ep1 & Hr1 & Hl1 & _ & Eps1 & Ec1 & Eh1 & En1 & _).
  fold call1 in Ep1, Hr1, Hl1, Eps1, Ec1, Eh1, En1. fold p in Ep1, Hr1, Eps1. fold u in Hr1.
  destruct (load_call_facts moduleName moduleFilename call1.2)
    as (Ep2 & Hr2 & Hl2 & Hold2 & Eps2 & Ec2 & Eh2 & En2 & _).
  fold call2 in Ep2, Hr2, Hl2, Hold2, Eps2, Ec2, Eh2, En2. fold u in Hr2.
  assert (Elen1 : length (promises call1.2) = S (S p))
    by (rewrite Eps1, !length_app; simpl; subst p; lia).
  rewrite Hl1 in Hr2. rewrite Elen1 in Ep2, Hr2. fold k1 in Hr1, Hr2. fold k2 in Hr2.
  assert (Hr1' : reactions call2.2 !! k1 = Some (mkReaction moduleName u p (S p) false))
    by (rewrite Hold2 by (rewrite Hl1; subst k1; lia); exact Hr1).
  assert (Hps : ∀ q, q < 4 → promises call2.2 !! (p + q) = Some Pending).
  { intros q Hq. rewrite Eps2, Eps1, <- !app_assoc. simpl.
    rewrite lookup_app_r by (subst p; lia).
    replace (p + q - length (promises σ)) with q by (subst p; lia).
    destruct q as [|[|[|[|q]]]]; try reflexivity. lia. }
  assert (Hwf2 : wf call2.2).
  { subst call2 call1. rewrite !load_call_step. apply wf_step, wf_step, reachable_wf, Hreach. }
  assert (Hcache2 : cache call2.2 !! u = None) by (rewrite Ec2, Ec1; exact Hc).
  set (ra := if second_first then mkReaction moduleName u (S (S p)) (S (S (S p))) false
             else mkReaction moduleName u p (S p) false).
  set (rb := if second_first then mkReaction moduleName u p (S p) false
             else mkReaction moduleName u (S (S p)) (S (S (S p))) false).
  assert (Hra : reactions call2.2 !! ka = Some ra)
    by (subst ka ra; destruct second_first; assumption).
  assert (Hrb : reactions call2.2 !! kb = Some rb)
    by (subst kb rb; destruct second_first; assumption).
  assert (Hab : ka ≠ kb) by (subst ka kb k2; destruct second_first; lia).
  assert (Hfacts : r_moduleURL ra = u ∧ r_moduleURL rb = u ∧
                   r_settled ra = false ∧ r_settled rb = false ∧
                   r_promise ra ≠ r_derived ra ∧ r_promise rb ≠ r_derived rb ∧
                   r_promise rb ≠ r_promise ra ∧ r_promise rb ≠ r_derived ra ∧
                   r_promise ra ≠ r_derived rb ∧
                   promises call2.2 !! r_promise ra = Some Pending ∧
                   promises call2.2 !! r_promise rb = Some Pending ∧
                   ((r_promise ra = call1.1 ∧ r_promise rb = call2.1) ∨
                    (r_promise ra = call2.1 ∧ r_promise rb = call1.1))).
  { rewrite Ep1, Ep2. subst ra rb. destruct second_first; cbn;
      repeat split; try lia; try (right; split; reflexivity);
      try (left; split; reflexivity).
    - replace (S (S p)) with (p + 2) by lia. apply Hps. lia.
    - replace p with (p + 0) by lia. apply Hps. lia.
    - replace p with (p + 0) by lia. apply Hps. lia.
    - replace (S (S p)) with (p + 2) by lia. apply Hps. lia. }
  destruct Hfacts as (Ua & Ub & Sa & Sb & Na & Nb & Nba & Nbd & Nad & Pa & Pb & Hwho).
  set (σa := host_fulfils ka mfa call2.2) in *.
  pose proof (host_fulfils_result ka mfa call2.2 ra Hra Sa
                (eq_ind_r (λ x, inherited x = false) (inherited_moduleURL _ _) Ua)
                Pa Na) as Ha.
  cbv zeta in Ha. fold σa in Ha. rewrite Ua, Hcache2, Hmf in Ha.
  destruct Ha as (_ & _ & L & _ & Hpa & Hca & Hha & Hna).
  destruct (host_fulfils_frame ka mfa call2.2 ra Hwf2 Hra) as (Hfp & Hfr & _).
  fold σa in Hfp, Hfr.
  assert (Hrb' : reactions σa !! kb = Some rb) by (rewrite Hfr by congruence; exact Hrb).
  assert (Pb' : promises σa !! r_promise rb = Some Pending)
    by (rewrite Hfp by assumption; exact Pb).
  pose proof (host_fulfils_result kb mfb σa rb Hrb' Sb
                (eq_ind_r (λ x, inherited x = false) (inherited_moduleURL _ _) Ub)
                Pb' Nb) as Hb.
  cbv zeta in Hb. fold σ' in Hb. rewrite Ub, Hca, lookup_insert_eq in Hb.
  destruct Hb as (Hpb & Hcb & Hhb & Hnb & _).
  assert (Hwfa : wf σa) by (unfold σa; apply wf_host_fulfils, Hwf2).
  destruct (host_fulfils_frame kb mfb σa rb Hwfa Hrb') as (Hfp' & _).
  fold σ' in Hfp'.
  assert (Hpa' : promises σ' !! r_promise ra = Some (Fulfilled (VBundle (length (heap σ)))))
    by (rewrite Hfp' by congruence; rewrite Hpa, Eh2, Eh1; reflexivity).
  rewrite Eh2, Eh1 in Hpb, Hha, Hcb.
  assert (Hrest : length (heap σ') = S (length (heap σ)) ∧
                  nextModuleRef σ' = S (nextModuleRef σ) ∧
                  cache σ' !! u = Some (length (heap σ))).
  { rewrite Hhb, Hha, Hnb, Hna, Hcb, En2, En1, length_app, lookup_insert_eq.
    simpl. repeat split. lia. }
  destruct Hwho as [[E1 E2]|[E1 E2]]; rewrite <- E1, <- E2;
    (split; [|split]; assumption).
Qed.

Lemma concurrent_loads_share_one_handle_witness :
  let σ := init 0 in
  let never := mkNgModuleFactory LazyModule true [] in
  let call1 := load "Lazy" "bundle/lazy.module" LoaderReturnsPromise σ in
  let call2 := load "Lazy" "bundle/lazy.module" LoaderReturnsPromise call1.2 in
  let σ' := host_fulfils 0 never (host_fulfils 1 LazyFactory call2.2) in
  (cache σ !! "bundle/lazy.module#Lazy" = None ∧ well_behaved LazyFactory = true) ∧
  promises σ' !! call1.1 = Some (Fulfilled (VBundle 0)) ∧
  promises σ' !! call2.1 = Some (Fulfilled (VBundle 0)) ∧
  length (heap σ') = 1 ∧ nextModuleRef σ' = 1.
Proof.
  split; [split; vm_compute; reflexivity|].
  pose proof (concurrent_loads_share_one_handle (init 0) "Lazy" "bundle/lazy.module"
                LazyFactory (mkNgModuleFactory LazyModule true []) true
                (reachable_init 0)) as H.
  cbv zeta in H. specialize (H ltac:(vm_compute; reflexivity) ltac:(vm_compute; reflexivity)).
  vm_compute in H. vm_compute. tauto.
Defined.

(** X2.  [load] for a key that is cached: the host loader is asked all the
    same, and when it answers, the promise is fulfilled with the cached
    handle and nothing else happens: the module factory just resolved is
    not used, nothing is instantiated, no line is logged, and the cache and
    the handles stay as they were. *)
Theorem cached_load_only_resolves (σ : State) (moduleName moduleFilename : string)
    (mf : NgModuleFactory) (h : loc) :
  cache σ !! (moduleFilename +:+ "#" +:+ moduleName) = Some h →
  let call := load moduleName moduleFilename LoaderReturnsPromise σ in
  let σ' := host_fulfils (length (reactions σ)) mf call.2 in
  promises σ' !! call.1 = Some (Fulfilled (VBundle h)) ∧
  hostLog σ' = hostLog σ ++ [LoaderLoad (moduleFilename +:+ "#" +:+ moduleName)] ∧
  console σ' = console σ ∧
  nextModuleRef σ' = nextModuleRef σ ∧
  cache σ' = cache σ ∧ heap σ' = heap σ.
Proof.
  intros Hc call σ'.
  pose proof (load_then_fulfil_full moduleName moduleFilename mf σ) as H.
  cbv zeta in H. rewrite Hc in H. fold call in H. fold σ' in H. tauto.
Qed.

Lemma cached_load_only_resolves_witness :
  let σ := run [CallLoad "Lazy" "bundle/lazy.module" LoaderReturnsPromise;
                HostFulfils 0 LazyFactory] (init 0) in
  let never := mkNgModuleFactory (mkModuleType 9 None) true [] in
  let call := load "Lazy" "bundle/lazy.module" LoaderReturnsPromise σ in
  let σ' := host_fulfils (length (reactions σ)) never call.2 in
  cache σ !! "bundle/lazy.module#Lazy" = Some 0 ∧
  promises σ' !! call.1 = Some (Fulfilled (VBundle 0)) ∧
  console σ' = console σ ∧ nextModuleRef σ' = nextModuleRef σ ∧ heap σ' = heap σ.
Proof.
  intros σ never call σ'.
  assert (Hc : cache σ !! "bundle/lazy.module#Lazy" = Some 0) by (vm_compute; reflexivity).
  split; [exact Hc|].
  destruct (cached_load_only_resolves σ "Lazy" "bundle/lazy.module" never 0 Hc)
    as (Hp & _ & Hco & Hn & _ & Hh).
  split; [exact Hp|]. split; [exact Hco|]. split; [exact Hn | exact Hh].
Defined.

(** X3.  [load] for a key that is not cached, answered with a module factory
    that instantiates: the module is instantiated once, with the loader's
    injector; one line "Loading Module <key>" is logged; the promise is
    fulfilled with a new handle, cached under the key, whose name is the
    module name, whose url is the key, whose module instance is the new
    one, which is not marked unloaded, and whose factory mapping gives every
    creatable name the factory of its type bound to that instance. *)
Theorem first_load_builds_handle (σ : State) (moduleName moduleFilename : string)
    (mf : NgModuleFactory) :
  cache σ !! (moduleFilename +:+ "#" +:+ moduleName) = None →
  well_behaved mf = true →
  let u := moduleFilename +:+ "#" +:+ moduleName in
  let call := load moduleName moduleFilename LoaderReturnsPromise σ in
  let σ' := host_fulfils (length (reactions σ)) mf call.2 in
  let h := length (heap σ) in
  ∃ b cf L,
    promises σ' !! call.1 = Some (Fulfilled (VBundle h)) ∧
    cache σ' !! u = Some h ∧
    heap σ' !! h = Some b ∧ heap σ !! h = None ∧
    name b = moduleName ∧ url b = u ∧ moduleRef b = nextModuleRef σ ∧
    moduleType b = mf_moduleType mf ∧ unloaded b = None ∧ factory b = Some cf ∧
    creatableComponents (mf_moduleType mf) = Some L ∧
    (∀ key t, property L key = Some t →
       compFactory_factory cf key = FLFactory (mkComponentFactory t (nextModuleRef σ))) ∧
    nextModuleRef σ' = S (nextModuleRef σ) ∧
    console σ' = console σ ++ [["Loading Module "; u]] ∧
    hostLog σ' = hostLog σ ++ [LoaderLoad u; ModuleFactoryCreate (mf_moduleType mf) (inj σ)].
Proof.
  intros Hc Hmf u call σ' h.
  pose proof (load_then_fulfil_full moduleName moduleFilename mf σ) as H.
  cbv zeta in H. fold u in H, Hc. rewrite Hc, Hmf in H. fold call in H. fold σ' in H.
  destruct H as (Hlog & Hcon & L & HL & Hp & Hcache & Hheap & Hn).
  exists (new_bundle moduleName u mf L (nextModuleRef σ)),
         (compFactory_of L (nextModuleRef σ)), L.
  rewrite Hcache, Hheap, lookup_insert_eq.
  repeat split; try assumption.
  - apply lookup_snoc.
  - apply lookup_ge_None. subst h. lia.
  - intros key t Hk. apply compFactory_of_declared, Hk.
Qed.

Lemma first_load_builds_handle_witness :
  let call := load "Lazy" "bundle/lazy.module" LoaderReturnsPromise (init 4) in
  let σ' := host_fulfils 0 LazyFactory call.2 in
  (cache (init 4) !! "bundle/lazy.module#Lazy" = None ∧ well_behaved LazyFactory = true) ∧
  ∃ b, heap σ' !! 0 = Some b ∧ name b = "Lazy" ∧ url b = "bundle/lazy.module#Lazy" ∧
       hostLog σ' = [LoaderLoad "bundle/lazy.module#Lazy"; ModuleFactoryCreate LazyModule 4].
Proof.
  split; [split; vm_compute; reflexivity|].
  destruct (first_load_builds_handle (init 4) "Lazy" "bundle/lazy.module" LazyFactory
              ltac:(vm_compute; reflexivity) ltac:(vm_compute; reflexivity))
    as (b & cf & L & _ & _ & Hb & _ & Hname & Hurl & _ & _ & _ & _ & _ & _ & _ & _ & Hlog).
  exists b. split; [exact Hb|]. split; [exact Hname|]. split; [exact Hurl | exact Hlog].
Defined.

(** ** What is asked of the host *)

Lemma create_hostLog h t v (σ : State) :
  ∃ l, hostLog (create h t v σ).2 = hostLog σ ++ l ∧ ∀ m, ModuleRefDestroy m ∉ l.
Proof.
  unfold create. unfold bind at 1, deref at 1, bind at 1, gets at 1. simpl.
  assert (Hnil : ∀ m, ModuleRefDestroy m ∉ []) by (intros m H; apply elem_of_nil in H; exact H).
  assert (Hone : ∀ c, (∀ m, c ≠ ModuleRefDestroy m) → ∀ m, ModuleRefDestroy m ∉ [c]).
  { intros c Hc m H. apply list_elem_of_singleton in H. exact (Hc m (eq_sym H)). }
  destruct (heap σ !! h) as [b|]; simpl.
  2:{ exists []. rewrite app_nil_r. auto. }
  destruct v; destruct (compFactory_factory _ _); simpl;
    first [ exists []; rewrite app_nil_r; split; [reflexivity | exact Hnil]
          | eexists [_]; split; [reflexivity | apply Hone; discriminate] ].
Qed.

Lemma hostLog_host_fulfils k mf (σ : State) :
  wf σ →
  ∃ l, hostLog (host_fulfils k mf σ) = hostLog σ ++ l ∧ ∀ m, ModuleRefDestroy m ∉ l.
Proof.
  intros Hwf.
  assert (Hnil : ∀ m, ModuleRefDestroy m ∉ []) by (intros m H; apply elem_of_nil in H; exact H).
  assert (Hone : ∀ c, (∀ m, c ≠ ModuleRefDestroy m) → ∀ m, ModuleRefDestroy m ∉ [c]).
  { intros c Hc m H. apply list_elem_of_singleton in H. exact (Hc m (eq_sym H)). }
  destruct (reactions σ !! k) as [r|] eqn:Hr.
  2:{ unfold host_fulfils. rewrite Hr. exists []. rewrite app_nil_r. auto. }
  destruct (r_settled r) eqn:Hs.
  { unfold host_fulfils. rewrite Hr, Hs. exists []. rewrite app_nil_r. auto. }
  pose proof (reaction_url_not_inherited σ k r Hwf Hr) as Hi.
  pose proof (host_fulfils_explicit k mf σ r Hr Hs Hi) as H. cbv zeta in H.
  destruct (cache σ !! r_moduleURL r) as [h|].
  - rewrite H. fields. exists []. rewrite app_nil_r. auto.
  - destruct (well_behaved mf).
    + destruct H as (L & _ & ->). fields. eexists [_]. split; [reflexivity|].
      apply Hone. discriminate.
    + destruct H as (e & ->). fields. eexists [_]. split; [reflexivity|].
      apply Hone. discriminate.
Qed.

(** An event adds to the host log, and the only module instances it asks
    the host to destroy are those of handles. *)
Lemma hostLog_step ev (σ : State) :
  wf σ →
  ∃ l, hostLog (step ev σ) = hostLog σ ++ l ∧
       ∀ m, ModuleRefDestroy m ∈ l → ∃ h b, heap σ !! h = Some b ∧ moduleRef b = m.
Proof.
  intros Hwf.
  assert (Hnone : ∀ σ', (∃ l, hostLog σ' = hostLog σ ++ l ∧ ∀ m, ModuleRefDestroy m ∉ l) →
            ∃ l, hostLog σ' = hostLog σ ++ l ∧
                 ∀ m, ModuleRefDestroy m ∈ l → ∃ h b, heap σ !! h = Some b ∧ moduleRef b = m).
  { intros σ' (l & E & Hl). exists l. split; [exact E|]. intros m Hm.
    exfalso. exact (Hl m Hm). }
  assert (Hnil : ∀ σ', hostLog σ' = hostLog σ →
            ∃ l, hostLog σ' = hostLog σ ++ l ∧ ∀ m, ModuleRefDestroy m ∉ l).
  { intros σ' E. exists []. rewrite app_nil_r. split; [exact E|].
    intros m H. apply elem_of_nil in H. exact H. }
  assert (Hunload : ∀ h d,
            ∃ l, hostLog (unload h d σ).2 = hostLog σ ++ l ∧
                 ∀ m, ModuleRefDestroy m ∈ l → ∃ h b, heap σ !! h = Some b ∧ moduleRef b = m).
  { intros h d. destruct (unload_cases h d σ)
      as [[_ ->]|[(b & _ & _ & ->)|[(b & Hb & _ & _ & ->)|(b & Hb & _ & _ & ->)]]];
      try (apply Hnone, Hnil; reflexivity);
      (eexists [_]; split; [reflexivity|]; intros m Hm;
       apply list_elem_of_singleton in Hm; injection Hm as ->; eauto). }
  destruct ev as [n f a|k mf|k|h d|h d|h t v|u|e]; simpl.
  - apply Hnone. destruct a; [rewrite load_throws | rewrite load_returns_promise];
      (eexists [_]; split; [reflexivity|]; intros m Hm;
       apply list_elem_of_singleton in Hm; discriminate).
  - apply Hnone, hostLog_host_fulfils, Hwf.
  - apply Hnone, Hnil. unfold host_rejects.
    destruct (reactions σ !! k) as [r|]; [|reflexivity].
    destruct (r_settled r); fields; reflexivity.
  - apply Hunload.
  - unfold destroy, lift, bind, ret. specialize (Hunload h d).
    destruct (unload h d σ) as [p σ']. exact Hunload.
  - apply Hnone, create_hostLog.
  - apply Hnone, Hnil. destruct (loadJs_cases u σ) as [[_ ->]|[_ ->]]; reflexivity.
  - apply Hnone, Hnil. destruct (script_onload_cases e σ) as [[_ ->]|(s & _ & ->)];
      fields; reflexivity.
Qed.

Lemma nextModuleRef_step ev (σ : State) :
  wf σ → nextModuleRef σ ≤ nextModuleRef (step ev σ).
Proof.
  intros Hwf. destruct (changes_step ev σ Hwf) as [_ _ -> _ _ _|_ _ -> _ _ _
    |? ? ? ? _ _ _ _ _ -> _ _ _|? ? _ _ _ -> _ _ _|? ? _ _ _ -> _ _ _
    |? ? _ _ _ -> _ _ _|? ? _ _ _ -> _ _ _]; lia.
Qed.

Lemma reachable_destroys_ok (σ : State) : reachable σ → destroys_ok σ.
Proof.
  intros Hr.
  assert (H : destroys_ok σ ∧ instances_ok σ);
    [|exact (proj1 H)].
  revert σ Hr. apply reachable_ind.
  - intros i. split.
    + intros m H. apply elem_of_nil in H. contradiction.
    + split; [intros h b H | intros h1 h2 b1 b2 H]; discriminate.
  - intros ev s Hwf [Hd Hi]. split.
    + intros m Hm. destruct (hostLog_step ev s Hwf) as (l & E & Hl).
      pose proof (nextModuleRef_step ev s Hwf) as Hle.
      rewrite E in Hm. apply elem_of_app in Hm as [Hm|Hm].
      * specialize (Hd m Hm). lia.
      * destruct (Hl m Hm) as (h & b & Hb & <-).
        pose proof (proj1 Hi h b Hb). lia.
    + eapply instances_ok_changes; [exact Hi | apply changes_step, Hwf].
Qed.

(** A module instance no handle holds stays so, and is never destroyed. *)
Lemma lost_instance_step ev (σ : State) m :
  wf σ → m < nextModuleRef σ →
  (∀ h b, heap σ !! h = Some b → moduleRef b ≠ m) →
  ModuleRefDestroy m ∉ hostLog σ →
  m < nextModuleRef (step ev σ) ∧
  (∀ h b, heap (step ev σ) !! h = Some b → moduleRef b ≠ m) ∧
  ModuleRefDestroy m ∉ hostLog (step ev σ).
Proof.
  intros Hwf Hm Hheap Hlog.
  pose proof (nextModuleRef_step ev σ Hwf) as Hle.
  split; [lia|]. split.
  - destruct (changes_step ev σ Hwf) as [_ Eh _ _ _ _|_ Eh _ _ _ _
      |n u mf L _ _ _ _ Eh _ _ _ _|h0 b0 Hb0 _ Eh _ _ _ _|h0 b0 Hb0 _ Eh _ _ _ _
      |? ? _ _ Eh _ _ _ _|? ? _ _ Eh _ _ _ _];
      rewrite Eh; try exact Hheap.
    + intros h b Hb. apply lookup_snoc_cases in Hb as [Hb|[_ ->]].
      * eapply Hheap; eauto.
      * simpl. lia.
    + intros h b Hb. apply lookup_insert_cases in Hb as [Hb|[-> ->]].
      * eapply Hheap; eauto.
      * apply (Hheap h0 b0 Hb0).
    + intros h b Hb. apply lookup_insert_cases in Hb as [Hb|[-> ->]].
      * eapply Hheap; eauto.
      * apply (Hheap h0 b0 Hb0).
  - destruct (hostLog_step ev σ Hwf) as (l & E & Hl). rewrite E.
    intros H. apply elem_of_app in H as [H|H]; [exact (Hlog H)|].
    destruct (Hl m H) as (h & b & Hb & Hmb). exact (Hheap h b Hb Hmb).
Qed.

Lemma lost_instance_run evs (σ : State) m :
  wf σ → m < nextModuleRef σ →
  (∀ h b, heap σ !! h = Some b → moduleRef b ≠ m) →
  ModuleRefDestroy m ∉ hostLog σ →
  (∀ h b, heap (run evs σ) !! h = Some b → moduleRef b ≠ m) ∧
  ModuleRefDestroy m ∉ hostLog (run evs σ).
Proof.
  revert σ. induction evs as [|ev evs IH]; intros σ Hwf Hm Hheap Hlog; simpl.
  - split; assumption.
  - destruct (lost_instance_step ev σ m Hwf Hm Hheap Hlog) as (A & B & C).
    apply IH; try assumption. apply wf_step, Hwf.
Qed.

(** X4.  [load] for a key that is not cached, answered with a module factory
    whose [create] returns but whose class has no usable
    [creatableComponents] (none, or a listed type that cannot be resolved):
    the module has been instantiated when the callback throws.  No handle
    is built and nothing is cached, the promise of [load] stays pending
    whatever happens next, and the instance is lost: no handle ever holds
    it, so nothing ever asks the host to destroy it. *)
Theorem failed_load_loses_the_instance (σ : State) (moduleName moduleFilename : string)
    (mf : NgModuleFactory) (evs : list Event) :
  reachable σ →
  cache σ !! (moduleFilename +:+ "#" +:+ moduleName) = None →
  mf_create_throws mf = false →
  well_behaved mf = false →
  let call := load moduleName moduleFilename LoaderReturnsPromise σ in
  let σ' := host_fulfils (length (reactions σ)) mf call.2 in
  let lost := nextModuleRef σ in
  nextModuleRef σ' = S lost ∧
  hostLog σ' = hostLog σ ++ [LoaderLoad (moduleFilename +:+ "#" +:+ moduleName);
                             ModuleFactoryCreate (mf_moduleType mf) (inj σ)] ∧
  heap σ' = heap σ ∧ cache σ' = cache σ ∧
  promises (run evs σ') !! call.1 = Some Pending ∧
  (∀ h b, heap (run evs σ') !! h = Some b → moduleRef b ≠ lost) ∧
  ModuleRefDestroy lost ∉ hostLog (run evs σ').
Proof.
  intros Hr Hc Hcreate Hmf call σ' lost.
  pose proof (load_then_fulfil_full moduleName moduleFilename mf σ) as H.
  cbv zeta in H. rewrite Hc, Hmf, Hcreate in H. fold call in H. fold σ' in H.
  destruct H as (Hlog & _ & _ & Hcache & Hheap & Hn).
  split; [exact Hn|]. split; [exact Hlog|]. split; [exact Hheap|]. split; [exact Hcache|].
  split.
  { apply (load_hangs_when_callback_throws σ moduleName moduleFilename mf evs Hr Hc Hmf). }
  assert (Hwf' : wf σ').
  { unfold σ'. apply wf_host_fulfils. unfold call. rewrite load_call_step.
    apply wf_step, reachable_wf, Hr. }
  apply lost_instance_run; [exact Hwf' | rewrite Hn; lia | |].
  - rewrite Hheap. intros h b Hb Hm.
    pose proof (proj1 (reachable_instances_ok σ Hr) h b Hb). lia.
  - rewrite Hlog. intros Hin. apply elem_of_app in Hin as [Hin|Hin].
    + apply (reachable_destroys_ok σ Hr) in Hin. lia.
    + apply elem_of_cons in Hin as [Hin|Hin]; [discriminate|].
      apply list_elem_of_singleton in Hin. discriminate.
Qed.

Lemma failed_load_loses_the_instance_witness :
  let σ := init 0 in
  let mf := mkNgModuleFactory (mkModuleType 2 None) false [] in
  let evs := [CallLoad "Lazy" "bundle/lazy.module" LoaderReturnsPromise;
              HostFulfils 1 LazyFactory; CallUnload 0 false] in
  let call := load "Lazy" "bundle/lazy.module" LoaderReturnsPromise σ in
  let σ' := host_fulfils (length (reactions σ)) mf call.2 in
  (cache σ !! "bundle/lazy.module#Lazy" = None ∧ well_behaved mf = false) ∧
  nextModuleRef σ' = 1 ∧
  promises (run evs σ') !! call.1 = Some Pending ∧
  (ModuleRefDestroy 0 ∉ hostLog (run evs σ')) ∧
  ModuleRefDestroy 1 ∈ hostLog (run evs σ').
Proof.
  intros σ mf evs call σ'.
  assert (Hc : cache σ !! "bundle/lazy.module#Lazy" = None) by reflexivity.
  assert (Hmf : well_behaved mf = false) by reflexivity.
  split; [split; assumption|].
  destruct (failed_load_loses_the_instance σ "Lazy" "bundle/lazy.module" mf evs
              (reachable_init 0) Hc eq_refl Hmf) as (Hn & _ & _ & _ & Hp & _ & Hlost).
  split; [exact Hn|]. split; [exact Hp|]. split; [exact Hlost|].
  vm_compute. apply list_elem_of_In. simpl. tauto.
Defined.

(** ** [unload] and [create] on a handle *)

Lemma unload_proceeds h d (σ : State) b :
  heap σ !! h = Some b → truthy (js_get (cache σ) (url b)) = true →
  unload h d σ
  = (length (promises σ),
     mkState (if d then cache σ else delete (url b) (cache σ)) (loadedLibraries σ) (inj σ)
             (<[h := if d then marked b else stripped b]> (heap σ))
             (promises σ ++ [if d then Rejected HostError else Fulfilled VUndefined])
             (reactions σ) (scriptElements σ) (body σ) (nextModuleRef σ)
             (hostLog σ ++ [ModuleRefDestroy (moduleRef b)]) (console σ)).
Proof.
  intros Hb Ht.
  destruct (unload_cases h d σ)
    as [[Hn _]|[(b0 & Hb0 & Hf & _)|[(b0 & Hb0 & _ & -> & ->)|(b0 & Hb0 & _ & -> & ->)]]].
  - rewrite Hn in Hb. discriminate.
  - rewrite Hb in Hb0. injection Hb0 as <-. rewrite Hf in Ht. discriminate.
  - rewrite Hb in Hb0. injection Hb0 as <-. reflexivity.
  - rewrite Hb in Hb0. injection Hb0 as <-. reflexivity.
Qed.

Lemma unload_skips h d (σ : State) b :
  heap σ !! h = Some b → truthy (js_get (cache σ) (url b)) = false →
  unload h d σ
  = (length (promises σ), set_promises (λ ps, ps ++ [Fulfilled VUndefined]) σ).
Proof.
  intros Hb Ht.
  destruct (unload_cases h d σ)
    as [[Hn _]|[(b0 & _ & _ & ->)|[(b0 & Hb0 & Hf & _)|(b0 & Hb0 & Hf & _)]]].
  - rewrite Hn in Hb. discriminate.
  - reflexivity.
  - rewrite Hb in Hb0. injection Hb0 as <-. rewrite Hf in Ht. discriminate.
  - rewrite Hb in Hb0. injection Hb0 as <-. rewrite Hf in Ht. discriminate.
Qed.

(** The fields of a handle nothing writes after line 111. *)
Lemma handle_core_step ev (σ : State) h b :
  wf σ → heap σ !! h = Some b →
  ∃ b', heap (step ev σ) !! h = Some b' ∧ url b' = url b ∧
        moduleType b' = moduleType b ∧ moduleRef b' = moduleRef b ∧
        create_compFactory b' = create_compFactory b.
Proof.
  intros Hwf Hb. destruct (evolves_step ev σ Hwf) as (_ & _ & _ & [Hlen Hheap] & _).
  pose proof (lookup_lt_Some _ _ _ Hb) as Hh.
  assert (Hlt : h < length (heap (step ev σ))) by lia.
  destruct (lookup_lt_is_Some_2 _ _ Hlt) as [b' Hb'].
  exists b'. split; [exact Hb'|].
  destruct (Hheap h b' Hb') as [(b0 & Hb0 & H)|[Hge _]].
  - rewrite Hb in Hb0. injection Hb0 as <-. exact H.
  - lia.
Qed.

Lemma handle_core_run evs (σ : State) h b :
  wf σ → heap σ !! h = Some b →
  inj (run evs σ) = inj σ ∧
  ∃ b', heap (run evs σ) !! h = Some b' ∧ url b' = url b ∧
        moduleType b' = moduleType b ∧ moduleRef b' = moduleRef b ∧
        create_compFactory b' = create_compFactory b.
Proof.
  revert σ b. induction evs as [|ev evs IH]; intros σ b Hwf Hb; simpl.
  - split; [reflexivity|]. exists b. split; [exact Hb|]. repeat split.
  - destruct (handle_core_step ev σ h b Hwf Hb) as (b1 & Hb1 & E1 & E2 & E3 & E4).
    destruct (IH (step ev σ) b1 (wf_step ev σ Hwf) Hb1)
      as (Ei & b' & Hb' & F1 & F2 & F3 & F4).
    split.
    + rewrite Ei. apply (evolves_step ev σ Hwf).
    + exists b'. split; [exact Hb'|]. rewrite F1, F2, F3, F4. repeat split; assumption.
Qed.

(** What [create] answers is a function of the compFactory its closure
    captured and of the injector. *)
Lemma create_result h t v (σ : State) b :
  heap σ !! h = Some b →
  (create h t v σ).1 =
  match compFactory_factory (create_compFactory b) t, v with
  | FLThrows, _ => Throw TypeError
  | FLFactory f, Some container =>
    Normal (Asked (ViewContainerCreateComponent container (Some f)))
  | FLFactory f, None => Normal (Asked (ComponentFactoryCreate f (inj σ)))
  | FLUndefined, Some container =>
    Normal (Asked (ViewContainerCreateComponent container None))
  | FLUndefined, None => Throw TypeError
  | FLHostObject, _ => Normal HostDefined
  end.
Proof.
  intros Hb. unfold create. erewrite bind_Normal by (apply deref_at, Hb).
  destruct v; destruct (compFactory_factory _ _); reflexivity.
Qed.

(** X5.  What [moduleBundle.create] does for a given component name and
    container never changes during the life of the handle: its closure reads
    the [compFactory] it captured at line 108, not the handle's [factory]
    field, so neither [unload] (which deletes that field and destroys the
    module instance) nor any other call alters the outcome.  A handle that
    was unloaded still hands the host factories bound to the destroyed
    module instance. *)
Theorem create_outlives_unload (σ : State) (h : loc) (b : ModuleBundle)
    (evs : list Event) (componentType : string) (viewRef : option ViewContainerRef) :
  reachable σ →
  heap σ !! h = Some b →
  (create h componentType viewRef (run evs σ)).1 = (create h componentType viewRef σ).1.
Proof.
  intros Hr Hb.
  destruct (handle_core_run evs σ h b (reachable_wf σ Hr) Hb)
    as (Ei & b' & Hb' & _ & _ & _ & Ec).
  rewrite (create_result h componentType viewRef _ b' Hb').
  rewrite (create_result h componentType viewRef _ b Hb).
  rewrite Ec, Ei. reflexivity.
Qed.

Lemma create_outlives_unload_witness :
  let σ := run [CallLoad "Lazy" "bundle/lazy.module" LoaderReturnsPromise;
                HostFulfils 0 LazyFactory] (init 0) in
  let evs := [CallUnload 0 false] in
  (∃ b, heap σ !! 0 = Some b) ∧
  (ModuleRefDestroy 0 ∈ hostLog (run evs σ)) ∧
  (create 0 "LazyComponent" (Some 3) (run evs σ)).1
  = Normal (Asked (ViewContainerCreateComponent 3 (Some (mkComponentFactory 7 0)))).
Proof.
  intros σ evs.
  assert (Hr : reachable σ) by (apply reachable_run, reachable_init).
  assert (Hb : ∃ b, heap σ !! 0 = Some b) by (eexists; vm_compute; reflexivity).
  split; [exact Hb|]. destruct Hb as [b Hb].
  split; [vm_compute; apply list_elem_of_In; simpl; tauto|].
  rewrite (create_outlives_unload σ 0 b evs "LazyComponent" (Some 3) Hr Hb).
  vm_compute. reflexivity.
Defined.

(** X6.  [unload] of a cached handle when [moduleRef.destroy()] throws
    (line 130): the returned promise is rejected with the host's error; the
    handle has already been renamed and flagged (lines 128-129) but keeps
    its [factory], and the cache entry stays.  Calling [unload] again
    therefore passes the guard: the name gets the suffix a second time, the
    host is asked to destroy the same module instance a second time, and
    only then are [factory] and the cache entry removed. *)
Theorem unload_again_after_destroy_throws (σ : State) (h : loc) (b : ModuleBundle) :
  heap σ !! h = Some b →
  is_Some (cache σ !! url b) →
  let call1 := unload h true σ in
  let call2 := unload h false call1.2 in
  promises call1.2 !! call1.1 = Some (Rejected HostError) ∧
  (∃ b1, heap call1.2 !! h = Some b1 ∧ name b1 = name b +:+ "-unloaded" ∧
         unloaded b1 = Some true ∧ factory b1 = factory b) ∧
  cache call1.2 = cache σ ∧
  promises call2.2 !! call2.1 = Some (Fulfilled VUndefined) ∧
  (∃ b2, heap call2.2 !! h = Some b2 ∧
         name b2 = (name b +:+ "-unloaded") +:+ "-unloaded" ∧
         unloaded b2 = Some true ∧ factory b2 = None) ∧
  cache call2.2 = delete (url b) (cache σ) ∧
  hostLog call2.2
  = hostLog σ ++ [ModuleRefDestroy (moduleRef b); ModuleRefDestroy (moduleRef b)].
Proof.
  intros Hb [c Hc] call1 call2.
  assert (Ht : truthy (js_get (cache σ) (url b)) = true)
    by (unfold js_get; rewrite Hc; reflexivity).
  pose proof (lookup_lt_Some _ _ _ Hb) as Hlt.
  pose proof (unload_proceeds h true σ b Hb Ht) as E1. fold call1 in E1.
  assert (Hb1 : heap call1.2 !! h = Some (marked b)).
  { rewrite E1. cbn [snd heap]. apply list_lookup_insert_eq, Hlt. }
  assert (Ht1 : truthy (js_get (cache call1.2) (url (marked b))) = true).
  { rewrite E1. cbn [snd cache]. exact Ht. }
  pose proof (unload_proceeds h false call1.2 (marked b) Hb1 Ht1) as E2. fold call2 in E2.
  rewrite E2. rewrite E1. cbn [fst snd promises heap cache hostLog].
  split; [apply lookup_snoc|].
  split. { exists (marked b). split; [apply list_lookup_insert_eq, Hlt|]. repeat split. }
  split; [reflexivity|].
  split; [apply lookup_snoc|].
  split.
  { exists (stripped (marked b)). split; [|repeat split].
    apply list_lookup_insert_eq. rewrite length_insert. exact Hlt. }
  split; [reflexivity|].
  rewrite <- app_assoc. reflexivity.
Qed.

Lemma unload_again_after_destroy_throws_witness :
  let σ := run [CallLoad "Lazy" "bundle/lazy.module" LoaderReturnsPromise;
                HostFulfils 0 LazyFactory] (init 0) in
  let call1 := unload 0 true σ in
  let call2 := unload 0 false call1.2 in
  promises call1.2 !! call1.1 = Some (Rejected HostError) ∧
  promises call2.2 !! call2.1 = Some (Fulfilled VUndefined) ∧
  (name <$> heap call2.2 !! 0) = Some "Lazy-unloaded-unloaded" ∧
  hostLog call2.2 = [LoaderLoad "bundle/lazy.module#Lazy"; ModuleFactoryCreate LazyModule 0;
                     ModuleRefDestroy 0; ModuleRefDestroy 0].
Proof.
  intros σ call1 call2.
  assert (Hb : heap σ !! 0 = Some (new_bundle "Lazy" "bundle/lazy.module#Lazy"
                                     LazyFactory [("LazyComponent", 7)] 0))
    by (vm_compute; reflexivity).
  assert (Hc : is_Some (cache σ !! "bundle/lazy.module#Lazy"))
    by (exists 0; vm_compute; reflexivity).
  destruct (unload_again_after_destroy_throws σ 0 _ Hb Hc)
    as (H1 & _ & _ & H2 & (b2 & Hb2 & Hn & _) & _ & Hlog).
  split; [exact H1|]. split; [exact H2|]. split.
  - fold call1 call2 in Hb2. rewrite Hb2. simpl. rewrite Hn. reflexivity.
  - exact Hlog.
Defined.

(** X7.  [unload] identifies the module by the handle's [url], not by the
    handle (line 127 and line 133).  So with a handle [h] that was unloaded
    and whose module was then loaded again (the cache now holds another
    handle [h'] under the same url), [unload h] passes the guard: it asks
    the host to destroy [h]'s own module instance again and deletes the
    cache entry of [h'].  The live handle [h'] is left as it is, its module
    instance is not destroyed, and a following [unload h'] finds no cache
    entry and does nothing. *)
Theorem unload_stale_handle_evicts_live_one (σ : State) (h h' : loc) (b : ModuleBundle)
    (d' : bool) :
  reachable σ →
  heap σ !! h = Some b →
  cache σ !! url b = Some h' →
  h' ≠ h →
  let call := unload h false σ in
  let call' := unload h' d' call.2 in
  ∃ b', heap σ !! h' = Some b' ∧ url b' = url b ∧ moduleRef b' ≠ moduleRef b ∧
        promises call.2 !! call.1 = Some (Fulfilled VUndefined) ∧
        hostLog call.2 = hostLog σ ++ [ModuleRefDestroy (moduleRef b)] ∧
        cache call.2 !! url b = None ∧
        heap call.2 !! h' = Some b' ∧
        call'.2 = set_promises (λ ps, ps ++ [Fulfilled VUndefined]) call.2.
Proof.
  intros Hr Hb Hc Hne call call'.
  destruct (reachable_cache_ok σ Hr _ _ Hc) as (b' & Hb' & Hurl & _).
  exists b'. split; [exact Hb'|]. split; [exact Hurl|].
  assert (Hi : inherited (url b) = false) by (eapply reachable_bundle_url; eauto).
  assert (Ht : truthy (js_get (cache σ) (url b)) = true)
    by (unfold js_get; rewrite Hc; reflexivity).
  pose proof (unload_proceeds h false σ b Hb Ht) as E. fold call in E.
  split.
  { intros Hm. apply Hne.
    exact (proj2 (reachable_instances_ok σ Hr) h' h b' b Hb' Hb Hm). }
  assert (Hb'' : heap call.2 !! h' = Some b').
  { rewrite E. cbn [snd heap]. rewrite list_lookup_insert_ne by congruence. exact Hb'. }
  assert (Hgone : cache call.2 !! url b = None).
  { rewrite E. cbn [snd cache]. apply lookup_delete_eq. }
  split; [rewrite E; apply lookup_snoc|].
  split; [rewrite E; reflexivity|].
  split; [exact Hgone|]. split; [exact Hb''|].
  unfold call'. rewrite (unload_skips h' d' call.2 b' Hb''); [reflexivity|].
  unfold js_get. rewrite Hurl, Hgone, Hi. reflexivity.
Qed.

Lemma unload_stale_handle_evicts_live_one_witness :
  let σ := run [CallLoad "Lazy" "bundle/lazy.module" LoaderReturnsPromise;
                HostFulfils 0 LazyFactory; CallUnload 0 false;
                CallLoad "Lazy" "bundle/lazy.module" LoaderReturnsPromise;
                HostFulfils 1 LazyFactory] (init 0) in
  let b := stripped (new_bundle "Lazy" "bundle/lazy.module#Lazy"
                       LazyFactory [("LazyComponent", 7)] 0) in
  (heap σ !! 0 = Some b ∧ cache σ !! url b = Some 1) ∧
  let call := unload 0 false σ in
  let call' := unload 1 true call.2 in
  ∃ b', heap σ !! 1 = Some b' ∧ url b' = url b ∧ moduleRef b' ≠ moduleRef b ∧
        promises call.2 !! call.1 = Some (Fulfilled VUndefined) ∧
        hostLog call.2 = hostLog σ ++ [ModuleRefDestroy (moduleRef b)] ∧
        cache call.2 !! url b = None ∧
        heap call.2 !! 1 = Some b' ∧
        call'.2 = set_promises (λ ps, ps ++ [Fulfilled VUndefined]) call.2.
Proof.
  intros σ b.
  assert (Hr : reachable σ) by (apply reachable_run, reachable_init).
  assert (Hb : heap σ !! 0 = Some b) by (vm_compute; reflexivity).
  assert (Hc : cache σ !! url b = Some 1) by (vm_compute; reflexivity).
  split; [split; assumption|].
  apply (unload_stale_handle_evicts_live_one σ 0 1 b true Hr Hb Hc). discriminate.
Defined.

(** X8.  Whatever the handle and whatever the host answers, [unload]
    returns a new promise and leaves everything else of the service alone:
    the promises that existed, the other handles, the cache entries under
    other urls, the pending host promises, the injector and all of the
    script loader's data.  Of the handle itself it keeps [url], [moduleRef],
    [moduleType] and the compFactory [create] uses; no handle is added or
    removed and no module is instantiated. *)
Theorem unload_frame (σ : State) (h : loc) (d : bool) :
  let call := unload h d σ in
  call.1 = length (promises σ) ∧
  length (promises call.2) = S (length (promises σ)) ∧
  (∀ p, p < length (promises σ) → promises call.2 !! p = promises σ !! p) ∧
  length (heap call.2) = length (heap σ) ∧
  (∀ h', h' ≠ h → heap call.2 !! h' = heap σ !! h') ∧
  (∀ b', heap call.2 !! h = Some b' →
     ∃ b, heap σ !! h = Some b ∧ url b' = url b ∧ moduleRef b' = moduleRef b ∧
          moduleType b' = moduleType b ∧ create_compFactory b' = create_compFactory b) ∧
  (∀ u, (∀ b, heap σ !! h = Some b → url b ≠ u) → cache call.2 !! u = cache σ !! u) ∧
  reactions call.2 = reactions σ ∧ inj call.2 = inj σ ∧
  nextModuleRef call.2 = nextModuleRef σ ∧ console call.2 = console σ ∧
  loadedLibraries call.2 = loadedLibraries σ ∧
  scriptElements call.2 = scriptElements σ ∧ body call.2 = body σ.
Proof.
  intros call. subst call.
  assert (Hlen : ∀ x, length (promises σ ++ [x]) = S (length (promises σ))).
  { intros x. rewrite length_app. simpl. lia. }
  assert (Hold : ∀ x p, p < length (promises σ) →
                        (promises σ ++ [x]) !! p = promises σ !! p).
  { intros x p Hp. apply lookup_app_l, Hp. }
  destruct (unload_cases h d σ)
    as [[Hn ->]|[(b & Hb & _ & ->)|[(b & Hb & _ & _ & ->)|(b & Hb & _ & _ & ->)]]];
    cbn [fst snd set_promises promises heap cache reactions inj nextModuleRef console
         loadedLibraries scriptElements body];
    (split; [reflexivity|]); (split; [apply Hlen|]); (split; [apply Hold|]).
  - repeat split. intros b' Hb'. rewrite Hn in Hb'. discriminate.
  - repeat split. intros b' Hb'. exists b'. repeat split. exact Hb'.
  - pose proof (lookup_lt_Some _ _ _ Hb) as Hlt.
    split; [apply length_insert|].
    split; [intros h' Hh'; apply list_lookup_insert_ne; congruence|].
    split; [|repeat split].
    intros b' Hb'. rewrite list_lookup_insert_eq in Hb' by exact Hlt.
    injection Hb' as <-. exists b. repeat split. exact Hb.
  - pose proof (lookup_lt_Some _ _ _ Hb) as Hlt.
    split; [apply length_insert|].
    split; [intros h' Hh'; apply list_lookup_insert_ne; congruence|].
    split.
    { intros b' Hb'. rewrite list_lookup_insert_eq in Hb' by exact Hlt.
      injection Hb' as <-. exists b. repeat split. exact Hb. }
    split; [|repeat split].
    intros u Hu. apply lookup_delete_ne. exact (Hu b Hb).
Qed.

(** ** The life of a promise *)

Lemma held_by_step ev (σ : State) p u e :
  wf σ → p < length (promises σ) → held_by p u e σ →
  p < length (promises (step ev σ)) ∧ held_by p u e (step ev σ).
Proof.
  intros Hwf Hp [Hr Hs].
  destruct (evolves_step ev σ Hwf) as ([Hlen _] & Hre & Hse & _).
  split; [lia|]. split.
  - intros k r' Hk.
    destruct (Hre k r' Hk) as [(r & Hkr & _ & E2 & E3 & E4 & _)|(A & B & _)].
    + rewrite E2, E3, E4. apply (Hr k r Hkr).
    + split; [lia|]. intros E. lia.
  - intros e' s He. destruct (Hse e' s He) as [Hold|(A & _)].
    + apply (Hs e' s Hold).
    + intros E. lia.
Qed.

(** A promise keeps its state over any run, unless it was pending and the
    one holder of its resolving functions settled it. *)
Lemma held_promise_run evs (σ : State) p u e :
  wf σ → cache_ok σ → p < length (promises σ) → held_by p u e σ →
  promises (run evs σ) !! p = promises σ !! p
  ∨ (promises σ !! p = Some Pending ∧
     ((∃ h b, u = Some (url b) ∧ heap (run evs σ) !! h = Some b ∧
              promises (run evs σ) !! p = Some (Fulfilled (VBundle h)))
      ∨ (∃ e', e = Some e' ∧ ScriptLoads e' ∈ evs ∧
               promises (run evs σ) !! p = Some (Fulfilled (VScript e'))))).
Proof.
  revert σ. induction evs as [|ev evs IH]; intros σ Hwf Hok Hp Hheld.
  { left. reflexivity. }
  change (run (ev :: evs) σ) with (run evs (step ev σ)).
  pose proof (wf_step ev σ Hwf) as Hwf'.
  assert (Hok' : cache_ok (step ev σ))
    by (eapply cache_ok_changes; [exact Hok | apply changes_step, Hwf]).
  destruct (held_by_step ev σ p u e Hwf Hp Hheld) as [Hp' Hheld'].
  destruct (step_settles ev σ p Hwf Hok Hp) as [E|(Hpend & s & Es & Hby)].
  - destruct (IH (step ev σ) Hwf' Hok' Hp' Hheld')
      as [E'|(Hpend & [(h & b & Hu & Hh & Hv)|(e' & He & Hin & Hv)])].
    + left. rewrite E'. exact E.
    + right. split; [rewrite <- E; exact Hpend|]. left. exists h, b. auto.
    + right. split; [rewrite <- E; exact Hpend|]. right. exists e'.
      split; [exact He|]. split; [|exact Hv]. apply elem_of_cons. right. exact Hin.
  - right. split; [exact Hpend|].
    destruct Hby as [(k & mf & r & h & b & -> & Hk & _ & Hrp & -> & Hh & Hurl & _)
                    |[(k & r & _ & Hk & _ & Hd)|(e' & sc & -> & He & Hop & ->)]].
    + left. destruct (handle_core_run evs _ h b Hwf' Hh) as (_ & b' & Hb' & Eu & _).
      exists h, b'. split; [|split; [exact Hb'|]].
      * rewrite Eu, Hurl. exact (proj2 (proj1 Hheld k r Hk) Hrp).
      * apply settled_run; [exact Hwf' | exact Es | discriminate].
    + exfalso. exact (proj1 (proj1 Hheld k r Hk) Hd).
    + right. exists e'. split; [exact (proj2 Hheld e' sc He Hop)|]. split.
      * apply elem_of_cons. left. reflexivity.
      * apply settled_run; [exact Hwf' | exact Es | discriminate].
Qed.

Lemma script_kept_run evs (σ : State) e s :
  wf σ → scriptElements σ !! e = Some s → scriptElements (run evs σ) !! e = Some s.
Proof.
  revert σ. induction evs as [|ev evs IH]; intros σ Hwf He; [exact He|].
  change (run (ev :: evs) σ) with (run evs (step ev σ)).
  apply IH; [apply wf_step, Hwf|].
  destruct (changes_step ev σ Hwf) as [_ _ _ _ E _|_ _ _ _ E _|? ? ? ? _ _ _ _ _ _ _ E _
    |? ? _ _ _ _ _ E _|? ? _ _ _ _ _ E _|? ? _ _ _ _ _ E _|? ? _ _ _ _ _ E _];
    rewrite E; try exact He.
  apply lookup_app_l_Some, He.
Qed.

(** X9.  [loadJs] with a url that is the name of a property of
    Object.prototype ("constructor", "toString", ...): the lookup
    [this.loadedLibraries[url]] of line 158 finds the built-in, which is
    truthy, so the executor returns at line 159 although no script was ever
    loaded.  No script element is created, nothing is appended to the
    document, and the promise stays pending whatever happens next. *)
Theorem loadJs_builtin_name_hangs (σ : State) (u : string) (evs : list Event) :
  reachable σ →
  inherited u = true →
  let call := loadJs u σ in
  scriptElements call.2 = scriptElements σ ∧ body call.2 = body σ ∧
  loadedLibraries call.2 = loadedLibraries σ ∧
  promises (run evs call.2) !! call.1 = Some Pending.
Proof.
  intros Hr Hu call.
  pose proof (reachable_wf σ Hr) as Hwf.
  assert (Hwf1 : wf call.2) by (apply (wf_step (CallLoadJs u)), Hwf).
  destruct (loadJs_cases u σ) as [[_ E]|[E _]].
  2:{ unfold js_get in E. rewrite Hu in E.
      destruct (loadedLibraries σ !! u); discriminate. }
  subst call. rewrite E in *. simpl in *.
  split; [reflexivity|]. split; [reflexivity|]. split; [reflexivity|].
  rewrite unreferenced_run; [apply lookup_snoc | exact Hwf1 | |].
  - simpl. rewrite length_app. simpl. lia.
  - destruct Hwf as (Hwr & Hws & _). split.
    + intros k r Hk _. destruct (Hwr k r Hk) as (A & B & _). lia.
    + intros e s He. destruct (Hws e s He) as [A _]. lia.
Qed.

Lemma loadJs_builtin_name_hangs_witness :
  let σ := init 0 in
  let evs := [CallLoadJs "constructor"; ScriptLoads 0] in
  let call := loadJs "constructor" σ in
  inherited "constructor" = true ∧
  scriptElements call.2 = scriptElements σ ∧ body call.2 = body σ ∧
  loadedLibraries call.2 = loadedLibraries σ ∧
  promises (run evs call.2) !! call.1 = Some Pending.
Proof.
  intros σ evs call. split; [reflexivity|].
  exact (loadJs_builtin_name_hangs σ "constructor" evs (reachable_init 0) eq_refl).
Defined.

(** X10.  The promise [loadJs] returns when it creates a script element:
    only the load event of that element settles it.  Over any later events
    it is pending, or (if the element's load event was among them) fulfilled
    with that element; it is never rejected and never fulfilled with
    anything else.  Whenever the element's load event does fire, the promise
    is fulfilled with the element and the element is recorded under its url
    in [loadedLibraries] (lines 164-167). *)
Theorem loadJs_settles_on_its_own_load_event (σ : State) (u : string)
    (evs : list Event) :
  reachable σ →
  js_get (loadedLibraries σ) u = Undefined →
  let call := loadJs u σ in
  let script := length (scriptElements σ) in
  let σ' := run evs call.2 in
  (promises σ' !! call.1 = Some Pending
   ∨ (ScriptLoads script ∈ evs ∧ promises σ' !! call.1 = Some (Fulfilled (VScript script)))) ∧
  promises (step (ScriptLoads script) σ') !! call.1 = Some (Fulfilled (VScript script)) ∧
  loadedLibraries (step (ScriptLoads script) σ') !! u = Some script.
Proof.
  intros Hr Hu call script σ'.
  pose proof (reachable_wf σ Hr) as Hwf.
  assert (Hr1 : reachable call.2) by (apply (reachable_step (CallLoadJs u)), Hr).
  pose proof (reachable_wf _ Hr1) as Hwf1.
  pose proof (reachable_cache_ok _ Hr1) as Hok1.
  destruct (loadJs_cases u σ) as [[Hne _]|[_ E]]; [contradiction|].
  fold call in E.
  assert (Ep : call.1 = length (promises σ)) by (rewrite E; reflexivity).
  assert (Eps : promises call.2 = promises σ ++ [Pending]) by (rewrite E; reflexivity).
  assert (Ere : reactions call.2 = reactions σ) by (rewrite E; reflexivity).
  assert (Ese : scriptElements call.2
                = scriptElements σ
                  ++ [mkScriptElement "text/javascript" u u (length (promises σ))])
    by (rewrite E; reflexivity).
  rewrite Ep.
  assert (Hp : length (promises σ) < length (promises call.2)).
  { rewrite Eps, length_app. simpl. lia. }
  assert (Hpend : promises call.2 !! length (promises σ) = Some Pending).
  { rewrite Eps. apply lookup_snoc. }
  assert (Hheld : held_by (length (promises σ)) None (Some script) call.2).
  { destruct Hwf as (Hwr & Hws & _). split.
    - intros k r Hk. rewrite Ere in Hk. destruct (Hwr k r Hk) as (A & B & _).
      split; [lia|]. intros F. lia.
    - intros e' s He F. rewrite Ese in He.
      apply lookup_snoc_cases in He as [He|[-> _]]; [|reflexivity].
      destruct (Hws e' s He) as [A _]. lia. }
  assert (Hcases : promises σ' !! length (promises σ) = Some Pending
                   ∨ (ScriptLoads script ∈ evs ∧
                      promises σ' !! length (promises σ) = Some (Fulfilled (VScript script)))).
  { destruct (held_promise_run evs call.2 _ _ _ Hwf1 Hok1 Hp Hheld)
      as [E'|(_ & [(h & b & F & _)|(e' & F & Hin & Hv)])].
    - left. unfold σ'. rewrite E'. exact Hpend.
    - discriminate.
    - injection F as <-. right. split; assumption. }
  split; [exact Hcases|].
  assert (Hel : scriptElements σ' !! script
                = Some (mkScriptElement "text/javascript" u u (length (promises σ)))).
  { apply script_kept_run; [exact Hwf1|]. rewrite Ese. apply lookup_snoc. }
  change (step (ScriptLoads script) σ') with (script_onload script σ').2.
  destruct (script_onload_cases script σ') as [[Hn _]|(s & Hs & ->)].
  { rewrite Hn in Hel. discriminate. }
  rewrite Hel in Hs. injection Hs as <-. cbn [snd onload_promise onload_url].
  split.
  - rewrite settle_lookup_eq. cbn [promises set_loadedLibraries].
    destruct Hcases as [->|[_ ->]]; reflexivity.
  - fields. apply lookup_insert_eq.
Qed.

Lemma loadJs_settles_on_its_own_load_event_witness :
  let σ := init 0 in
  let u := "assets/lib.js" in
  let evs := [CallLoadJs u; ScriptLoads 1] in
  let call := loadJs u σ in
  let script := length (scriptElements σ) in
  let σ' := run evs call.2 in
  js_get (loadedLibraries σ) u = Undefined ∧
  (promises σ' !! call.1 = Some Pending
   ∨ (ScriptLoads script ∈ evs ∧ promises σ' !! call.1 = Some (Fulfilled (VScript script)))) ∧
  promises (step (ScriptLoads script) σ') !! call.1 = Some (Fulfilled (VScript script)) ∧
  loadedLibraries (step (ScriptLoads script) σ') !! u = Some script.
Proof.
  intros σ u evs call script σ'. split; [reflexivity|].
  exact (loadJs_settles_on_its_own_load_event σ u evs (reachable_init 0) eq_refl).
Defined.

(** X11.  The value of the promise [load] returns, over any later events.
    If [this.loader.load] threw, it is fulfilled with undefined from the
    start (line 117).  Otherwise it is pending, or fulfilled with a handle
    whose [url] is this call's [moduleFilename + '#' + moduleName]: the
    callback of another call, the script loader, [unload] and [create] never
    touch it, and it is never fulfilled with undefined or rejected. *)
Theorem load_promise_values (σ : State) (moduleName moduleFilename : string)
    (a : LoaderAnswer) (evs : list Event) :
  reachable σ →
  let call := load moduleName moduleFilename a σ in
  let σ' := run evs call.2 in
  match a with
  | LoaderThrows => promises σ' !! call.1 = Some (Fulfilled VUndefined)
  | LoaderReturnsPromise =>
    promises σ' !! call.1 = Some Pending
    ∨ ∃ h b, promises σ' !! call.1 = Some (Fulfilled (VBundle h)) ∧
             heap σ' !! h = Some b ∧
             url b = moduleFilename +:+ "#" +:+ moduleName
  end.
Proof.
  intros Hr call σ'.
  pose proof (reachable_wf σ Hr) as Hwf.
  assert (Hr1 : reachable call.2)
    by (apply (reachable_step (CallLoad moduleName moduleFilename a)), Hr).
  pose proof (reachable_wf _ Hr1) as Hwf1.
  pose proof (reachable_cache_ok _ Hr1) as Hok1.
  destruct a.
  - unfold σ'. apply settled_run; [exact Hwf1| |discriminate].
    unfold call. rewrite load_throws. apply lookup_snoc.
  - destruct (load_call_facts moduleName moduleFilename σ)
      as (Ep & Hk0 & _ & _ & Eps & _).
    fold call in Ep, Hk0, Eps. rewrite Ep.
    assert (Hp : length (promises σ) < length (promises call.2)).
    { rewrite Eps, !length_app. simpl. lia. }
    assert (Hpend : promises call.2 !! length (promises σ) = Some Pending).
    { rewrite Eps, lookup_app_l by (rewrite length_app; simpl; lia). apply lookup_snoc. }
    assert (Hheld : held_by (length (promises σ))
                      (Some (moduleFilename +:+ "#" +:+ moduleName)) None call.2).
    { destruct Hwf1 as (Hwr & Hws & _). destruct Hwf as (Hwr0 & Hws0 & _). split.
      - intros k r Hk. unfold call in Hk. rewrite load_returns_promise in Hk.
        cbn [snd reactions] in Hk.
        apply lookup_snoc_cases in Hk as [Hk|[_ ->]].
        + destruct (Hwr0 k r Hk) as (A & B & _). split; [lia|]. intros F. lia.
        + cbn. split; [lia|]. reflexivity.
      - intros e' s He F. unfold call in He. rewrite load_returns_promise in He.
        cbn [snd scriptElements] in He. destruct (Hws0 e' s He) as [A _]. lia. }
    destruct (held_promise_run evs call.2 _ _ _ Hwf1 Hok1 Hp Hheld)
      as [E'|(_ & [(h & b & F & Hh & Hv)|(e' & F & _)])].
    + left. unfold σ'. rewrite E'. exact Hpend.
    + right. exists h, b. injection F as F. auto.
    + discriminate.
Qed.

Lemma load_promise_values_witness :
  let σ := init 0 in
  let evs := [CallLoadJs "assets/lib.js";
              CallLoad "Other" "bundle/other.module" LoaderReturnsPromise;
              HostFulfils 1 LazyFactory; HostFulfils 0 LazyFactory; ScriptLoads 0;
              CallUnload 1 false] in
  let call := load "Lazy" "bundle/lazy.module" LoaderReturnsPromise σ in
  let σ' := run evs call.2 in
  promises σ' !! call.1 = Some (Fulfilled (VBundle 1)) ∧
  (url <$> heap σ' !! 1) = Some "bundle/lazy.module#Lazy".
Proof.
  intros σ evs call σ'.
  destruct (load_promise_values σ "Lazy" "bundle/lazy.module" LoaderReturnsPromise evs
              (reachable_init 0)) as [H|(h & b & Hv & Hb & Hu)].
  - exfalso. vm_compute in H. discriminate.
  - fold call σ' in Hv, Hb. 
    assert (E : promises σ' !! call.1 = Some (Fulfilled (VBundle 1)))
      by (vm_compute; reflexivity).
    split; [exact E|]. rewrite E in Hv. injection Hv as <-.
    rewrite Hb. simpl. rewrite Hu. reflexivity.
Defined.

(** ** Handles, flags and the host's log *)

Lemma handles_ok_changes (σ σ' : State) : handles_ok σ → changes σ σ' → handles_ok σ'.
Proof.
  intros Hok Hch h' b' Hb'.
  destruct Hch as [_ Eh _ _ _ _|_ Eh _ _ _ _|n u mf L _ _ _ _ Eh _ _ _ _
                  |h b Hb _ Eh _ _ _ _|h b Hb _ Eh _ _ _ _
                  |u p _ _ Eh _ _ _ _|e s _ _ Eh _ _ _ _];
    rewrite Eh in Hb'; try (apply (Hok h' b' Hb')).
  - apply lookup_snoc_cases in Hb' as [Hb'|[_ ->]]; [apply (Hok h' b' Hb')|].
    left. reflexivity.
  - apply lookup_insert_cases in Hb' as [Hb'|[_ ->]]; [apply (Hok h' b' Hb')|].
    destruct (Hok h b Hb) as [E|[E _]]; [left; exact E | right; split; [exact E|reflexivity]].
  - apply lookup_insert_cases in Hb' as [Hb'|[_ ->]]; [apply (Hok h' b' Hb')|].
    right. split; reflexivity.
Qed.

Lemma reachable_handles_ok (σ : State) : reachable σ → handles_ok σ.
Proof.
  apply reachable_ind.
  - intros i h b H. discriminate.
  - intros ev s Hwf H. eapply handles_ok_changes; [exact H | apply changes_step, Hwf].
Qed.

(** One event either asks the host for no destruction and flags no handle,
    or it is an [unload] that passed its guard: it flags its handle and asks
    the host to destroy that handle's module instance. *)
Lemma destroy_log_step ev (σ : State) :
  wf σ →
  ((∃ l, hostLog (step ev σ) = hostLog σ ++ l ∧ ∀ m, ModuleRefDestroy m ∉ l) ∧
   (heap (step ev σ) = heap σ
    ∨ ∃ b, heap (step ev σ) = heap σ ++ [b] ∧ unloaded b = None))
  ∨ (∃ h b b', heap σ !! h = Some b ∧ heap (step ev σ) = <[h := b']> (heap σ) ∧
       moduleRef b' = moduleRef b ∧ unloaded b' = Some true ∧
       hostLog (step ev σ) = hostLog σ ++ [ModuleRefDestroy (moduleRef b)]).
Proof.
  intros Hwf.
  assert (Hnil : ∀ σ', hostLog σ' = hostLog σ →
            ∃ l, hostLog σ' = hostLog σ ++ l ∧ ∀ m, ModuleRefDestroy m ∉ l).
  { intros σ' E. exists []. rewrite app_nil_r. split; [exact E|].
    intros m H. apply elem_of_nil in H. exact H. }
  assert (Hunload : ∀ h d,
    ((∃ l, hostLog (unload h d σ).2 = hostLog σ ++ l ∧ ∀ m, ModuleRefDestroy m ∉ l) ∧
     (heap (unload h d σ).2 = heap σ
      ∨ ∃ b, heap (unload h d σ).2 = heap σ ++ [b] ∧ unloaded b = None))
    ∨ (∃ h0 b b', heap σ !! h0 = Some b ∧ heap (unload h d σ).2 = <[h0 := b']> (heap σ) ∧
         moduleRef b' = moduleRef b ∧ unloaded b' = Some true ∧
         hostLog (unload h d σ).2 = hostLog σ ++ [ModuleRefDestroy (moduleRef b)])).
  { intros h d. destruct (unload_cases h d σ)
      as [[_ ->]|[(b & _ & _ & ->)|[(b & Hb & _ & _ & ->)|(b & Hb & _ & _ & ->)]]].
    - left. split; [apply Hnil; reflexivity | left; reflexivity].
    - left. split; [apply Hnil; reflexivity | left; reflexivity].
    - right. exists h, b, (marked b). repeat split. exact Hb.
    - right. exists h, b, (stripped b). repeat split. exact Hb. }
  destruct ev as [n f a|k mf|k|h d|h d|h t v|u|e]; simpl.
  - left. split; [|left; destruct a; [rewrite load_throws | rewrite load_returns_promise];
                     reflexivity].
    destruct a; [rewrite load_throws | rewrite load_returns_promise];
      (eexists [_]; split; [reflexivity|]; intros m Hm;
       apply list_elem_of_singleton in Hm; discriminate).
  - left. split; [apply hostLog_host_fulfils, Hwf|].
    destruct (reactions σ !! k) as [r|] eqn:Hr.
    2:{ unfold host_fulfils. rewrite Hr. left. reflexivity. }
    destruct (r_settled r) eqn:Hs.
    { unfold host_fulfils. rewrite Hr, Hs. left. reflexivity. }
    pose proof (reaction_url_not_inherited σ k r Hwf Hr) as Hi.
    pose proof (host_fulfils_explicit k mf σ r Hr Hs Hi) as H. cbv zeta in H.
    destruct (cache σ !! r_moduleURL r) as [h|].
    + rewrite H. fields. left. reflexivity.
    + destruct (well_behaved mf).
      * destruct H as (L & _ & ->). fields. right. eexists. split; reflexivity.
      * destruct H as (e & ->). fields. left. reflexivity.
  - left. unfold host_rejects. destruct (reactions σ !! k) as [r|].
    2:{ split; [apply Hnil; reflexivity | left; reflexivity]. }
    destruct (r_settled r).
    { split; [apply Hnil; reflexivity | left; reflexivity]. }
    split; [apply Hnil; fields; reflexivity | left; fields; reflexivity].
  - apply Hunload.
  - unfold destroy, lift, bind, ret. specialize (Hunload h d).
    destruct (unload h d σ) as [p σ']. exact Hunload.
  - left. split; [apply create_hostLog|]. left.
    apply (create_same_core h t v σ).
  - left. destruct (loadJs_cases u σ) as [[_ ->]|[_ ->]];
      (split; [apply Hnil; reflexivity | left; reflexivity]).
  - left. destruct (script_onload_cases e σ) as [[_ ->]|(s & _ & ->)].
    + split; [apply Hnil; reflexivity | left; reflexivity].
    + split; [apply Hnil; fields; reflexivity | left; fields; reflexivity].
Qed.

Lemma reachable_flags_ok (σ : State) : reachable σ → flags_ok σ.
Proof.
  apply reachable_ind.
  - intros i. split.
    + intros h b H. discriminate.
    + intros m H. apply elem_of_nil in H. contradiction.
  - intros ev s Hwf [Hflag Hlog].
    destruct (destroy_log_step ev s Hwf)
      as [[(l & El & Hl) Hheap]|(h & b & b' & Hb & Eh & Em & Eu & El)].
    + split.
      * intros h0 b0 Hb0 Hu. rewrite El. apply elem_of_app. left.
        destruct Hheap as [Eh|(bn & Eh & Hn)]; rewrite Eh in Hb0.
        -- apply (Hflag h0 b0 Hb0 Hu).
        -- apply lookup_snoc_cases in Hb0 as [Hb0|[_ ->]]; [apply (Hflag h0 b0 Hb0 Hu)|].
           rewrite Hn in Hu. discriminate.
      * intros m Hm. rewrite El in Hm. apply elem_of_app in Hm as [Hm|Hm].
        2:{ exfalso. exact (Hl m Hm). }
        destruct (Hlog m Hm) as (h0 & b0 & Hb0 & E1 & E2). exists h0, b0.
        split; [|split; assumption].
        destruct Hheap as [Eh|(bn & Eh & _)]; rewrite Eh; [exact Hb0|].
        apply lookup_app_l_Some, Hb0.
    + pose proof (lookup_lt_Some _ _ _ Hb) as Hlt. split.
      * intros h0 b0 Hb0 Hu. rewrite El. apply elem_of_app. rewrite Eh in Hb0.
        apply lookup_insert_cases in Hb0 as [Hb0|[_ ->]].
        -- left. apply (Hflag h0 b0 Hb0 Hu).
        -- right. rewrite Em. apply list_elem_of_singleton. reflexivity.
      * intros m Hm. rewrite El in Hm. apply elem_of_app in Hm as [Hm|Hm].
        -- destruct (Hlog m Hm) as (h0 & b0 & Hb0 & E1 & E2).
           destruct (decide (h0 = h)) as [->|Hne].
           ++ rewrite Hb in Hb0. injection Hb0 as <-. exists h, b'.
              rewrite Eh. split; [apply list_lookup_insert_eq, Hlt|].
              split; [congruence | exact Eu].
           ++ exists h0, b0. rewrite Eh.
              split; [rewrite list_lookup_insert_ne by congruence; exact Hb0|].
              split; assumption.
        -- apply list_elem_of_singleton in Hm. injection Hm as ->. exists h, b'.
           rewrite Eh. split; [apply list_lookup_insert_eq, Hlt|].
           split; [exact Em | exact Eu].
Qed.

(** X12.  In every state the service can reach, a handle is in one of two
    conditions.  Its [factory] field is the very compFactory its [create]
    closes over (lines 98, 104, 108), or the field has been removed by
    [unload] (lines 131-132) and the handle is flagged [unloaded].  And a
    handle is flagged [unloaded] exactly when the host has been asked to
    destroy the module instance it holds (lines 129-130). *)
Theorem handle_flag_and_factory (σ : State) (h : loc) (b : ModuleBundle) :
  reachable σ →
  heap σ !! h = Some b →
  (factory b = Some (create_compFactory b)
   ∨ (factory b = None ∧ unloaded b = Some true)) ∧
  (unloaded b = Some true ↔ ModuleRefDestroy (moduleRef b) ∈ hostLog σ).
Proof.
  intros Hr Hb. split; [apply (reachable_handles_ok σ Hr h b Hb)|].
  destruct (reachable_flags_ok σ Hr) as [Hflag Hlog]. split.
  - apply (Hflag h b Hb).
  - intros Hm. destruct (Hlog _ Hm) as (h0 & b0 & Hb0 & Em & Eu).
    pose proof (proj2 (reachable_instances_ok σ Hr) h0 h b0 b Hb0 Hb Em) as ->.
    rewrite Hb in Hb0. injection Hb0 as <-. exact Eu.
Qed.

Lemma handle_flag_and_factory_witness :
  let σ := run [CallLoad "Lazy" "bundle/lazy.module" LoaderReturnsPromise;
                HostFulfils 0 LazyFactory; CallUnload 0 true] (init 0) in
  let b := marked (new_bundle "Lazy" "bundle/lazy.module#Lazy"
                     LazyFactory [("LazyComponent", 7)] 0) in
  heap σ !! 0 = Some b ∧
  (factory b = Some (create_compFactory b)
   ∨ (factory b = None ∧ unloaded b = Some true)) ∧
  (unloaded b = Some true ↔ ModuleRefDestroy (moduleRef b) ∈ hostLog σ).
Proof.
  intros σ b.
  assert (Hr : reachable σ) by (apply reachable_run, reachable_init).
  assert (Hb : heap σ !! 0 = Some b) by (vm_compute; reflexivity).
  split; [exact Hb|]. exact (handle_flag_and_factory σ 0 b Hr Hb).
Defined.

(** X13.  In every state the service can reach, an entry of [this.cache]
    is a handle that exists, whose [url] is the key of the entry and whose
    [factory] is still in place; the key is a module URL (it contains '#')
    and is not the name of a property of Object.prototype; and a handle is
    cached under at most one key. *)
Theorem cache_entries_are_handles (σ : State) (u : string) (h : loc) :
  reachable σ →
  cache σ !! u = Some h →
  inherited u = false ∧
  ∃ b, heap σ !! h = Some b ∧ url b = u ∧
       (∃ n f, u = f +:+ "#" +:+ n) ∧
       factory b = Some (create_compFactory b) ∧
       ∀ u', cache σ !! u' = Some h → u' = u.
Proof.
  intros Hr Hc.
  destruct (reachable_cache_ok σ Hr u h Hc) as (b & Hb & Hu & [cf Hf]).
  split; [rewrite <- Hu; eapply reachable_bundle_url; eauto|].
  exists b. split; [exact Hb|]. split; [exact Hu|]. split; [|split].
  - destruct (reachable_wf σ Hr) as (_ & _ & Hh).
    destruct (Hh h b Hb) as [(n & f & E) _]. exists n, f. rewrite <- Hu. exact E.
  - destruct (reachable_handles_ok σ Hr h b Hb) as [E|[E _]]; [exact E|].
    rewrite E in Hf. discriminate.
  - intros u' Hc'. destruct (reachable_cache_ok σ Hr u' h Hc') as (b' & Hb' & Hu' & _).
    rewrite Hb in Hb'. injection Hb' as <-. congruence.
Qed.

Lemma cache_entries_are_handles_witness :
  let σ := run [CallLoad "Lazy" "bundle/lazy.module" LoaderReturnsPromise;
                HostFulfils 0 LazyFactory; CallUnload 0 true] (init 0) in
  let u := "bundle/lazy.module#Lazy" in
  cache σ !! u = Some 0 ∧
  inherited u = false ∧
  ∃ b, heap σ !! 0 = Some b ∧ url b = u ∧
       (∃ n f, u = f +:+ "#" +:+ n) ∧
       factory b = Some (create_compFactory b) ∧
       ∀ u', cache σ !! u' = Some 0 → u' = u.
Proof.
  intros σ u.
  assert (Hr : reachable σ) by (apply reachable_run, reachable_init).
  assert (Hc : cache σ !! u = Some 0) by (vm_compute; reflexivity).
  split; [exact Hc|]. exact (cache_entries_are_handles σ u 0 Hr Hc).
Defined.

(** X14.  Module instances in every state the service can reach: each
    handle holds an instance the host has made, no two handles hold the same
    instance, and the host has been asked to destroy only instances held by
    handles that are flagged [unloaded]. *)
Theorem module_instances_invariant (σ : State) :
  reachable σ →
  (∀ h b, heap σ !! h = Some b → moduleRef b < nextModuleRef σ) ∧
  (∀ h1 h2 b1 b2, heap σ !! h1 = Some b1 → heap σ !! h2 = Some b2 →
     moduleRef b1 = moduleRef b2 → h1 = h2) ∧
  (∀ m, ModuleRefDestroy m ∈ hostLog σ →
     m < nextModuleRef σ ∧
     ∃ h b, heap σ !! h = Some b ∧ moduleRef b = m ∧ unloaded b = Some true).
Proof.
  intros Hr. destruct (reachable_instances_ok σ Hr) as [H1 H2].
  split; [exact H1|]. split; [exact H2|].
  intros m Hm. split; [apply (reachable_destroys_ok σ Hr m Hm)|].
  apply (proj2 (reachable_flags_ok σ Hr) m Hm).
Qed.

Lemma module_instances_invariant_witness :
  let σ := run [CallLoad "Lazy" "bundle/lazy.module" LoaderReturnsPromise;
                HostFulfils 0 LazyFactory; CallUnload 0 false;
                CallLoad "Lazy" "bundle/lazy.module" LoaderReturnsPromise;
                HostFulfils 1 LazyFactory] (init 0) in
  (moduleRef <$> heap σ !! 0) = Some 0 ∧ (moduleRef <$> heap σ !! 1) = Some 1 ∧
  (∀ h1 h2 b1 b2, heap σ !! h1 = Some b1 → heap σ !! h2 = Some b2 →
     moduleRef b1 = moduleRef b2 → h1 = h2).
Proof.
  intros σ.
  assert (Hr : reachable σ) by (apply reachable_run, reachable_init).
  split; [vm_compute; reflexivity|]. split; [vm_compute; reflexivity|].
  exact (proj1 (proj2 (module_instances_invariant σ Hr))).
Defined.

(** X15.  Script elements in every state the service can reach: the
    children [loadJs] appended to document.body are exactly the script
    elements it created, each once, in the order of creation (line 169);
    each has type text/javascript and a src that is not the name of a
    property of Object.prototype (lines 163, 168 and the guard of line 158);
    and an entry of [loadedLibraries] is one of the elements under the body
    whose src is the entry's key (line 165). *)
Theorem script_elements_invariant (σ : State) :
  reachable σ →
  body σ = seq 0 (length (scriptElements σ)) ∧
  NoDup (body σ) ∧
  (∀ e, e ∈ body σ ↔ is_Some (scriptElements σ !! e)) ∧
  (∀ e s, scriptElements σ !! e = Some s →
     script_type s = "text/javascript" ∧ inherited (script_src s) = false) ∧
  (∀ u e, loadedLibraries σ !! u = Some e → e ∈ scripts_with_src u σ).
Proof.
  intros Hr. destruct (reachable_scripts_ok σ Hr) as (Hbody & Hel & Hlib).
  assert (Hin : ∀ e, e ∈ body σ ↔ is_Some (scriptElements σ !! e)).
  { intros e. rewrite Hbody, elem_of_seq, lookup_lt_is_Some. lia. }
  split; [exact Hbody|]. split; [rewrite Hbody; apply NoDup_seq|].
  split; [exact Hin|]. split.
  - intros e s He. destruct (Hel e s He) as [Ht Hs]. split; [exact Ht|].
    rewrite Hs. eapply onload_key_not_inherited; eauto.
  - intros u e Hu. destruct (Hlib u e Hu) as (s & Hs & Hsrc).
    unfold scripts_with_src. apply list_elem_of_In, filter_In. split.
    + apply list_elem_of_In, Hin. eauto.
    + rewrite Hs. apply String.eqb_eq, Hsrc.
Qed.

Lemma script_elements_invariant_witness :
  let σ := run [CallLoadJs "assets/lib.js"; CallLoadJs "assets/lib.js"; ScriptLoads 1]
               (init 0) in
  body σ = [0; 1] ∧ loadedLibraries σ !! "assets/lib.js" = Some 1 ∧
  1 ∈ scripts_with_src "assets/lib.js" σ.
Proof.
  intros σ.
  assert (Hr : reachable σ) by (apply reachable_run, reachable_init).
  assert (Hl : loadedLibraries σ !! "assets/lib.js" = Some 1) by (vm_compute; reflexivity).
  destruct (script_elements_invariant σ Hr) as (Hbody & _ & _ & _ & Hlib).
  split; [rewrite Hbody; vm_compute; reflexivity|]. split; [exact Hl|].
  exact (Hlib _ _ Hl).
Defined.

(** ** Compositions *)

(** X16.  The cache key is the concatenation
    [moduleFilename + '#' + moduleName] (line 83), so two calls of [load]
    whose arguments differ but concatenate to the same string are the same
    module to the service: the second gets the handle built for the first.
    That handle carries the first call's [moduleName] and module type; the
    second call's module factory is never instantiated. *)
Theorem loads_with_equal_url_share_handle (σ : State) (n1 f1 n2 f2 : string)
    (mf1 mf2 : NgModuleFactory) :
  f1 +:+ "#" +:+ n1 = f2 +:+ "#" +:+ n2 →
  cache σ !! (f1 +:+ "#" +:+ n1) = None →
  well_behaved mf1 = true →
  let u := f1 +:+ "#" +:+ n1 in
  let call1 := load n1 f1 LoaderReturnsPromise σ in
  let σ1 := host_fulfils (length (reactions σ)) mf1 call1.2 in
  let call2 := load n2 f2 LoaderReturnsPromise σ1 in
  let σ2 := host_fulfils (length (reactions σ1)) mf2 call2.2 in
  let h := length (heap σ) in
  promises σ1 !! call1.1 = Some (Fulfilled (VBundle h)) ∧
  promises σ2 !! call2.1 = Some (Fulfilled (VBundle h)) ∧
  (∃ b, heap σ2 !! h = Some b ∧ name b = n1 ∧ url b = u ∧
        moduleType b = mf_moduleType mf1) ∧
  length (heap σ2) = S (length (heap σ)) ∧
  hostLog σ2 = hostLog σ ++ [LoaderLoad u; ModuleFactoryCreate (mf_moduleType mf1) (inj σ);
                             LoaderLoad u].
Proof.
  intros Heq Hc Hmf u call1 σ1 call2 σ2 h.
  pose proof (load_then_fulfil_full n1 f1 mf1 σ) as H1. cbv zeta in H1.
  rewrite Hc, Hmf in H1. fold call1 in H1. fold σ1 in H1.
  destruct H1 as (Hlog1 & _ & L & HL & Hp1 & Hc1 & Hh1 & _).
  assert (Hc2 : cache σ1 !! (f2 +:+ "#" +:+ n2) = Some h).
  { rewrite <- Heq, Hc1. apply lookup_insert_eq. }
  pose proof (load_then_fulfil_full n2 f2 mf2 σ1) as H2. cbv zeta in H2.
  rewrite Hc2 in H2. fold call2 in H2. fold σ2 in H2.
  destruct H2 as (Hp2 & _ & Hh2 & _ & Hlog2 & _).
  split; [exact Hp1|]. split; [exact Hp2|]. rewrite Hh2, Hh1. split; [|split].
  - eexists. split; [apply lookup_snoc|]. repeat split.
  - rewrite length_app. simpl. lia.
  - rewrite Hlog2, Hlog1, <- Heq, <- app_assoc. reflexivity.
Qed.

Lemma loads_with_equal_url_share_handle_witness :
  let σ := init 0 in
  let other := mkNgModuleFactory (mkModuleType 2 (Some [])) false [] in
  let u := "a" +:+ "#" +:+ "b#c" in
  let call1 := load "b#c" "a" LoaderReturnsPromise σ in
  let σ1 := host_fulfils (length (reactions σ)) LazyFactory call1.2 in
  let call2 := load "c" "a#b" LoaderReturnsPromise σ1 in
  let σ2 := host_fulfils (length (reactions σ1)) other call2.2 in
  let h := length (heap σ) in
  ("a" +:+ "#" +:+ "b#c" = "a#b" +:+ "#" +:+ "c" ∧ cache σ !! u = None ∧
   well_behaved LazyFactory = true) ∧
  promises σ1 !! call1.1 = Some (Fulfilled (VBundle h)) ∧
  promises σ2 !! call2.1 = Some (Fulfilled (VBundle h)) ∧
  (∃ b, heap σ2 !! h = Some b ∧ name b = "b#c" ∧ url b = u ∧
        moduleType b = mf_moduleType LazyFactory) ∧
  length (heap σ2) = S (length (heap σ)) ∧
  hostLog σ2 = hostLog σ ++ [LoaderLoad u;
                             ModuleFactoryCreate (mf_moduleType LazyFactory) (inj σ);
                             LoaderLoad u].
Proof.
  intros σ other u call1 σ1 call2 σ2 h.
  split; [repeat split|].
  exact (loads_with_equal_url_share_handle σ "b#c" "a" "c" "a#b" LazyFactory other
           eq_refl eq_refl eq_refl).
Defined.

(** X17.  [load] of a module that is not cached, followed by [unload] of
    the handle it gave: the cache is what it was before the two calls, and
    the one module instance the host was asked to destroy is the one
    [load] had created.  What remains is the handle itself, renamed, flagged
    and without [factory]. *)
Theorem load_then_unload_restores_cache (σ : State) (moduleName moduleFilename : string)
    (mf : NgModuleFactory) :
  cache σ !! (moduleFilename +:+ "#" +:+ moduleName) = None →
  well_behaved mf = true →
  let u := moduleFilename +:+ "#" +:+ moduleName in
  let call := load moduleName moduleFilename LoaderReturnsPromise σ in
  let σ1 := host_fulfils (length (reactions σ)) mf call.2 in
  let h := length (heap σ) in
  let call_u := unload h false σ1 in
  promises σ1 !! call.1 = Some (Fulfilled (VBundle h)) ∧
  promises call_u.2 !! call_u.1 = Some (Fulfilled VUndefined) ∧
  cache call_u.2 = cache σ ∧
  nextModuleRef call_u.2 = S (nextModuleRef σ) ∧
  hostLog call_u.2
  = hostLog σ ++ [LoaderLoad u; ModuleFactoryCreate (mf_moduleType mf) (inj σ);
                  ModuleRefDestroy (nextModuleRef σ)] ∧
  ∃ L, creatableComponents (mf_moduleType mf) = Some L ∧
       heap call_u.2
       = heap σ ++ [stripped (new_bundle moduleName u mf L (nextModuleRef σ))].
Proof.
  intros Hc Hmf u call σ1 h call_u.
  pose proof (load_then_fulfil_full moduleName moduleFilename mf σ) as H1.
  cbv zeta in H1. rewrite Hc, Hmf in H1. fold call in H1. fold σ1 in H1.
  destruct H1 as (Hlog1 & _ & L & HL & Hp1 & Hc1 & Hh1 & Hn1).
  fold u in Hc, Hlog1, Hc1, Hh1.
  assert (Hb : heap σ1 !! h = Some (new_bundle moduleName u mf L (nextModuleRef σ))).
  { rewrite Hh1. apply lookup_snoc. }
  assert (Ht : truthy (js_get (cache σ1)
                         (url (new_bundle moduleName u mf L (nextModuleRef σ)))) = true).
  { cbn [url new_bundle]. unfold js_get. rewrite Hc1, lookup_insert_eq. reflexivity. }
  pose proof (unload_proceeds h false σ1 _ Hb Ht) as E. fold call_u in E.
  split; [exact Hp1|]. rewrite E. cbn [fst snd promises cache nextModuleRef hostLog heap].
  split; [apply lookup_snoc|]. split; [|split; [exact Hn1|split]].
  - cbn [url new_bundle]. rewrite Hc1. apply delete_insert_id, Hc.
  - rewrite Hlog1, <- app_assoc. reflexivity.
  - exists L. split; [exact HL|]. rewrite Hh1. apply insert_snoc.
Qed.

Lemma load_then_unload_restores_cache_witness :
  let σ := init 0 in
  let u := "bundle/lazy.module" +:+ "#" +:+ "Lazy" in
  let call := load "Lazy" "bundle/lazy.module" LoaderReturnsPromise σ in
  let σ1 := host_fulfils (length (reactions σ)) LazyFactory call.2 in
  let h := length (heap σ) in
  let call_u := unload h false σ1 in
  (cache σ !! u = None ∧ well_behaved LazyFactory = true) ∧
  promises σ1 !! call.1 = Some (Fulfilled (VBundle h)) ∧
  promises call_u.2 !! call_u.1 = Some (Fulfilled VUndefined) ∧
  cache call_u.2 = cache σ ∧
  nextModuleRef call_u.2 = S (nextModuleRef σ) ∧
  hostLog call_u.2
  = hostLog σ ++ [LoaderLoad u; ModuleFactoryCreate (mf_moduleType LazyFactory) (inj σ);
                  ModuleRefDestroy (nextModuleRef σ)] ∧
  ∃ L, creatableComponents (mf_moduleType LazyFactory) = Some L ∧
       heap call_u.2
       = heap σ ++ [stripped (new_bundle "Lazy" u LazyFactory L (nextModuleRef σ))].
Proof.
  intros σ u call σ1 h call_u.
  split; [split; reflexivity|].
  exact (load_then_unload_restores_cache σ "Lazy" "bundle/lazy.module" LazyFactory
           eq_refl eq_refl).
Defined.

(** ** The two loaders *)

Lemma script_event_step ev (σ : State) :
  is_script_event ev = true →
  cache (step ev σ) = cache σ ∧ heap (step ev σ) = heap σ ∧
  reactions (step ev σ) = reactions σ ∧ nextModuleRef (step ev σ) = nextModuleRef σ ∧
  hostLog (step ev σ) = hostLog σ ∧ console (step ev σ) = console σ ∧
  inj (step ev σ) = inj σ.
Proof.
  destruct ev as [n f a|k mf|k|h d|h d|h t v|u|e]; try discriminate; intros _; simpl.
  - destruct (loadJs_cases u σ) as [[_ ->]|[_ ->]]; repeat split.
  - destruct (script_onload_cases e σ) as [[_ ->]|(s & _ & ->)]; fields; repeat split.
Qed.

Lemma module_event_step ev (σ : State) :
  wf σ → is_script_event ev = false →
  loadedLibraries (step ev σ) = loadedLibraries σ ∧
  scriptElements (step ev σ) = scriptElements σ ∧ body (step ev σ) = body σ.
Proof.
  intros Hwf.
  assert (Hunload : ∀ h d,
    loadedLibraries (unload h d σ).2 = loadedLibraries σ ∧
    scriptElements (unload h d σ).2 = scriptElements σ ∧ body (unload h d σ).2 = body σ).
  { intros h d. destruct (unload_cases h d σ)
      as [[_ ->]|[(b & _ & _ & ->)|[(b & _ & _ & _ & ->)|(b & _ & _ & _ & ->)]]];
      repeat split. }
  destruct ev as [n f a|k mf|k|h d|h d|h t v|u|e]; try discriminate; intros _; simpl.
  - destruct a; [rewrite load_throws | rewrite load_returns_promise]; repeat split.
  - destruct (reactions σ !! k) as [r|] eqn:Hr.
    2:{ unfold host_fulfils. rewrite Hr. repeat split. }
    destruct (r_settled r) eqn:Hs.
    { unfold host_fulfils. rewrite Hr, Hs. repeat split. }
    pose proof (reaction_url_not_inherited σ k r Hwf Hr) as Hi.
    pose proof (host_fulfils_explicit k mf σ r Hr Hs Hi) as H. cbv zeta in H.
    destruct (cache σ !! r_moduleURL r) as [h|].
    + rewrite H. fields. repeat split.
    + destruct (well_behaved mf).
      * destruct H as (L & _ & ->). fields. repeat split.
      * destruct H as (e & ->). fields. repeat split.
  - unfold host_rejects. destruct (reactions σ !! k) as [r|]; [|repeat split].
    destruct (r_settled r); fields; repeat split.
  - apply Hunload.
  - unfold destroy, lift, bind, ret. specialize (Hunload h d).
    destruct (unload h d σ) as [p σ']. exact Hunload.
  - destruct (create_same_core h t v σ) as (_ & E1 & _ & _ & _ & _ & E2 & E3).
    repeat split; assumption.
Qed.

(** X18.  The module loader and the script loader share nothing but the
    service object.  Calls of [loadJs] and load events of script elements
    never change the module cache, the handles, the pending host promises,
    the module instances or what was asked of the host; calls of [load],
    [unload], [create], [destroy] and the settling of host promises never
    change [loadedLibraries], the script elements or the document body. *)
Theorem loaders_are_independent (σ : State) (evs : list Event) :
  reachable σ →
  (forallb is_script_event evs = true →
   cache (run evs σ) = cache σ ∧ heap (run evs σ) = heap σ ∧
   reactions (run evs σ) = reactions σ ∧ nextModuleRef (run evs σ) = nextModuleRef σ ∧
   hostLog (run evs σ) = hostLog σ ∧ console (run evs σ) = console σ) ∧
  (forallb (λ ev, negb (is_script_event ev)) evs = true →
   loadedLibraries (run evs σ) = loadedLibraries σ ∧
   scriptElements (run evs σ) = scriptElements σ ∧ body (run evs σ) = body σ).
Proof.
  intros Hr. pose proof (reachable_wf σ Hr) as Hwf. clear Hr.
  revert σ Hwf. induction evs as [|ev evs IH]; intros σ Hwf.
  { split; intros _; repeat split. }
  change (run (ev :: evs) σ) with (run evs (step ev σ)).
  destruct (IH (step ev σ) (wf_step ev σ Hwf)) as [IH1 IH2].
  split; intros Hall; cbn [forallb] in Hall; apply andb_true_iff in Hall as [Hev Hall].
  - destruct (IH1 Hall) as (A1 & A2 & A3 & A4 & A5 & A6).
    destruct (script_event_step ev σ Hev) as (B1 & B2 & B3 & B4 & B5 & B6 & _).
    rewrite A1, A2, A3, A4, A5, A6. repeat split; assumption.
  - destruct (IH2 Hall) as (A1 & A2 & A3).
    apply negb_true_iff in Hev.
    destruct (module_event_step ev σ Hwf Hev) as (B1 & B2 & B3).
    rewrite A1, A2, A3. repeat split; assumption.
Qed.

Lemma loaders_are_independent_witness :
  let σ := run [CallLoad "Lazy" "bundle/lazy.module" LoaderReturnsPromise;
                CallLoadJs "assets/lib.js"] (init 0) in
  let scripts := [ScriptLoads 0; CallLoadJs "assets/lib.js"; CallLoadJs "toString"] in
  let modules := [HostFulfils 0 LazyFactory; CallCreate 0 "LazyComponent" None;
                  CallDestroy 0 true] in
  (cache (run scripts σ) = cache σ ∧ heap (run scripts σ) = heap σ ∧
   reactions (run scripts σ) = reactions σ ∧
   nextModuleRef (run scripts σ) = nextModuleRef σ ∧
   hostLog (run scripts σ) = hostLog σ ∧ console (run scripts σ) = console σ) ∧
  (loadedLibraries (run modules σ) = loadedLibraries σ ∧
   scriptElements (run modules σ) = scriptElements σ ∧ body (run modules σ) = body σ).
Proof.
  intros σ scripts modules.
  assert (Hr : reachable σ) by (apply reachable_run, reachable_init).
  split.
  - exact (proj1 (loaders_are_independent σ scripts Hr) eq_refl).
  - exact (proj2 (loaders_are_independent σ modules Hr) eq_refl).
Defined.

(** X19.  [moduleBundle.destroy()] (line 110) calls [unload] and drops the
    promise it returns.  So [destroy] returns undefined and never throws,
    whatever [unload] does: when its receiver is not an object, or when the
    host's [moduleRef.destroy()] throws, the error ends as the rejection of
    the dropped promise and stays there.  The effect on the service is that
    of [unload]. *)
Theorem destroy_swallows_errors (σ : State) (h : loc) (d : bool) (evs : list Event) :
  reachable σ →
  let call := destroy h d σ in
  let dropped := length (promises σ) in
  call.1 = Normal VUndefined ∧
  call.2 = (unload h d σ).2 ∧
  (heap σ !! h = None →
   promises (run evs call.2) !! dropped = Some (Rejected TypeError)) ∧
  (∀ b, heap σ !! h = Some b → is_Some (cache σ !! url b) → d = true →
     promises (run evs call.2) !! dropped = Some (Rejected HostError)).
Proof.
  intros Hr call dropped.
  assert (Hwf : wf call.2) by (apply (wf_step (CallDestroy h d)), reachable_wf, Hr).
  assert (E : call.1 = Normal VUndefined ∧ call.2 = (unload h d σ).2).
  { unfold call, destroy, lift, bind, ret. destruct (unload h d σ) as [p σ'].
    split; reflexivity. }
  destruct E as [E1 E2]. split; [exact E1|]. split; [exact E2|]. split.
  - intros Hn. apply settled_run; [exact Hwf| |discriminate]. rewrite E2.
    destruct (unload_cases h d σ)
      as [[_ ->]|[(b & Hb & _)|[(b & Hb & _)|(b & Hb & _)]]];
      [apply lookup_snoc | rewrite Hn in Hb; discriminate ..].
  - intros b Hb [c Hc] ->. apply settled_run; [exact Hwf| |discriminate]. rewrite E2.
    assert (Ht : truthy (js_get (cache σ) (url b)) = true)
      by (unfold js_get; rewrite Hc; reflexivity).
    rewrite (unload_proceeds h true σ b Hb Ht). apply lookup_snoc.
Qed.

Lemma destroy_swallows_errors_witness :
  let σ := run [CallLoad "Lazy" "bundle/lazy.module" LoaderReturnsPromise;
                HostFulfils 0 LazyFactory] (init 0) in
  let evs := [CallDestroy 0 false; HostRejects 0] in
  (destroy 0 true σ).1 = Normal VUndefined ∧
  promises (run evs (destroy 0 true σ).2) !! length (promises σ)
  = Some (Rejected HostError) ∧
  (destroy 5 true σ).1 = Normal VUndefined ∧
  promises (run evs (destroy 5 true σ).2) !! length (promises σ)
  = Some (Rejected TypeError).
Proof.
  intros σ evs.
  assert (Hr : reachable σ) by (apply reachable_run, reachable_init).
  destruct (destroy_swallows_errors σ 0 true evs Hr) as (A1 & _ & _ & A2).
  destruct (destroy_swallows_errors σ 5 true evs Hr) as (B1 & _ & B2 & _).
  split; [exact A1|]. split.
  - apply (A2 (new_bundle "Lazy" "bundle/lazy.module#Lazy"
                 LazyFactory [("LazyComponent", 7)] 0)).
    + vm_compute. reflexivity.
    + exists 0. vm_compute. reflexivity.
    + reflexivity.
  - split; [exact B1|]. apply B2. vm_compute. reflexivity.
Defined.

(** ** Errors the service does not catch *)

(** X20.  The [try]/[catch] of lines 86 and 116 guards the call
    [this.loader.load(moduleURL)] only.  An error thrown inside the callback
    given to [then] (the module cannot be instantiated, its class has no
    [creatableComponents], or a listed component cannot be resolved) is not
    caught by it: it becomes the rejection of the promise [then] returned,
    which the service dropped.  The promise [load] returned stays pending,
    although the log line "Loading Module" was written; no handle is built
    and nothing is cached. *)
Theorem callback_error_is_not_caught (σ : State) (moduleName moduleFilename : string)
    (mf : NgModuleFactory) (evs : list Event) :
  reachable σ →
  cache σ !! (moduleFilename +:+ "#" +:+ moduleName) = None →
  well_behaved mf = false →
  let u := moduleFilename +:+ "#" +:+ moduleName in
  let call := load moduleName moduleFilename LoaderReturnsPromise σ in
  let σ' := host_fulfils (length (reactions σ)) mf call.2 in
  (∃ r e, reactions call.2 !! length (reactions σ) = Some r ∧
          r_promise r = call.1 ∧ r_derived r ≠ call.1 ∧
          promises (run evs σ') !! r_derived r = Some (Rejected e)) ∧
  promises (run evs σ') !! call.1 = Some Pending ∧
  console σ' = console σ ++ [["Loading Module "; u]] ∧
  heap σ' = heap σ ∧ cache σ' = cache σ.
Proof.
  intros Hr Hc Hmf u call σ'.
  pose proof (load_then_fulfil_full moduleName moduleFilename mf σ) as H.
  cbv zeta in H. rewrite Hc, Hmf in H. fold call in H. fold σ' in H.
  destruct H as (_ & Hcon & _ & Hcache & Hheap & _).
  split; [|split; [|split; [exact Hcon|split; [exact Hheap|exact Hcache]]]].
  2:{ apply (load_hangs_when_callback_throws σ moduleName moduleFilename mf evs Hr Hc Hmf). }
  destruct (load_call_facts moduleName moduleFilename σ)
    as (Ep & Hk & _ & _ & Eps & Ec & _).
  fold call in Ep, Hk, Eps, Ec.
  assert (Hwf2 : wf call.2).
  { unfold call. rewrite load_call_step. apply wf_step, reachable_wf, Hr. }
  assert (Hwf' : wf σ') by (apply wf_host_fulfils, Hwf2).
  pose proof (host_fulfils_explicit (length (reactions σ)) mf call.2 _ Hk eq_refl
                (inherited_moduleURL moduleName moduleFilename)) as E.
  cbv zeta in E. cbn [r_moduleURL r_moduleName r_promise r_derived] in E.
  rewrite Ec, Hc, Hmf in E. destruct E as (e & E). fold σ' in E.
  eexists. exists e. split; [exact Hk|]. cbn [r_promise r_derived].
  split; [exact Ep|]. split; [rewrite Ep; lia|].
  apply settled_run; [exact Hwf'| |discriminate].
  rewrite E, settle_lookup_eq. fields. rewrite Eps.
  replace (S (length (promises σ))) with (length (promises σ ++ [Pending]))
    by (rewrite length_app; simpl; lia).
  rewrite lookup_snoc. reflexivity.
Qed.

Lemma callback_error_is_not_caught_witness :
  let σ := init 0 in
  let mf := mkNgModuleFactory LazyModule true [7] in
  let evs := [CallLoad "Lazy" "bundle/lazy.module" LoaderReturnsPromise;
              HostFulfils 0 LazyFactory; HostFulfils 1 LazyFactory] in
  let u := "bundle/lazy.module" +:+ "#" +:+ "Lazy" in
  let call := load "Lazy" "bundle/lazy.module" LoaderReturnsPromise σ in
  let σ' := host_fulfils (length (reactions σ)) mf call.2 in
  (cache σ !! u = None ∧ well_behaved mf = false) ∧
  (∃ r e, reactions call.2 !! length (reactions σ) = Some r ∧
          r_promise r = call.1 ∧ r_derived r ≠ call.1 ∧
          promises (run evs σ') !! r_derived r = Some (Rejected e)) ∧
  promises (run evs σ') !! call.1 = Some Pending ∧
  console σ' = console σ ++ [["Loading Module "; u]] ∧
  heap σ' = heap σ ∧ cache σ' = cache σ.
Proof.
  intros σ mf evs u call σ'.
  split; [split; reflexivity|].
  exact (callback_error_is_not_caught σ "Lazy" "bundle/lazy.module" mf evs
           (reachable_init 0) eq_refl eq_refl).
Defined.

(** X21.  [create] with a name the module does not declare but which is a
    property of Object.prototype ("toString", "constructor", ...), for a
    module that declares no component called "__proto__":
    [compFactory[componentType]] is the built-in, whose [factory] is
    undefined.  With a container, line 108 therefore passes undefined to the
    host's [viewRef.createComponent]; the service itself raises nothing.
    Without a container it evaluates [undefined.create] and throws a
    TypeError before any host call. *)
Theorem create_builtin_name (σ : State) (h : loc) (b : ModuleBundle)
    (L : list (string * ComponentType)) (componentName : string)
    (container : ViewContainerRef) :
  reachable σ →
  heap σ !! h = Some b →
  creatableComponents (moduleType b) = Some L →
  property L componentName = None →
  property L "__proto__" = None →
  inherited componentName = true →
  create h componentName (Some container) σ
  = (Normal (Asked (ViewContainerCreateComponent container None)),
     set_hostLog (λ l, l ++ [ViewContainerCreateComponent container None]) σ) ∧
  (create h componentName None σ).1 = Throw TypeError ∧
  hostLog (create h componentName None σ).2 = hostLog σ.
Proof.
  intros Hr Hb HL Hn Hproto Hi.
  assert (Hh : reaches_host_object L componentName = false)
    by (unfold reaches_host_object; rewrite Hproto; reflexivity).
  split; [apply (create_inherited_name_with_container σ h b L); assumption|].
  pose proof (reachable_bundle_compFactory σ h b L Hr Hb HL) as Hc.
  pose proof (compFactory_of_undeclared L (moduleRef b) componentName Hn Hh) as Hf.
  rewrite Hi in Hf. split.
  - rewrite (create_result h componentName None σ b Hb), Hc, Hf. reflexivity.
  - unfold create. erewrite bind_Normal by (apply deref_at, Hb).
    rewrite Hc, Hf. reflexivity.
Qed.

Lemma create_builtin_name_witness :
  let σ := run [CallLoad "Lazy" "bundle/lazy.module" LoaderReturnsPromise;
                HostFulfils 0 LazyFactory] (init 0) in
  let b := new_bundle "Lazy" "bundle/lazy.module#Lazy" LazyFactory
             [("LazyComponent", 7)] 0 in
  heap σ !! 0 = Some b ∧
  create 0 "toString" (Some 3) σ
  = (Normal (Asked (ViewContainerCreateComponent 3 None)),
     set_hostLog (λ l, l ++ [ViewContainerCreateComponent 3 None]) σ) ∧
  (create 0 "toString" None σ).1 = Throw TypeError ∧
  hostLog (create 0 "toString" None σ).2 = hostLog σ.
Proof.
  intros σ b.
  assert (Hr : reachable σ) by (apply reachable_run, reachable_init).
  assert (Hb : heap σ !! 0 = Some b) by (vm_compute; reflexivity).
  split; [exact Hb|].
  exact (create_builtin_name σ 0 b [("LazyComponent", 7)] "toString" 3 Hr Hb
           eq_refl eq_refl eq_refl eq_refl).
Defined.
